(** * The restore (mount) core of the flash file system: [libs/ffs/src/ffs_restore.c]

    A shallow embedding of the restore code.  The process-wide variables of
    the C program ([ffs_hash], [ffs_areas], [ffs_scratch_area_idx],
    [ffs_root_dir], [ffs_next_id] and the two object pools) are gathered in the
    record [ffs_state], which every function threads explicitly.  C integers
    are [Z] with their wrap-around written out.  Pointers to objects are
    modelled by the id of the object they point to, resolved through the
    object index (a NULL pointer is [None]).  Return codes are the enumeration
    [ffs_rc], where [FFS_OK] stands for the C value 0.

    Two exits of the code leave the table with a link to an object that has
    been freed: the label [err] of a merge that has inserted its new object,
    and the sweep when a deletion frees the object of the saved next pointer.
    What the program does from there on depends on the pools and on the
    layout of the table, which are not in this file; the state carries two
    history variables, [ffs_index_tainted] and [ffs_sweep_tainted], that
    record these exits, and the statements about the merges and the sweep
    are made for the runs in which the variable concerned stays clear.

    The collaborators that live in other files of the repository (raw flash
    reads, the area subsystem, the validators) are the fields of [ffs_env]. *)

From Stdlib Require Import ZArith List Bool Lia.
Import ListNotations.
Open Scope Z_scope.

Module Ffs.

(** ** Machine integers *)

Definition u32 (z : Z) : Z := z mod 2 ^ 32.
Definition u16 (z : Z) : Z := z mod 2 ^ 16.
Definition UINT32_MAX : Z := 2 ^ 32 - 1.

(** ** Return codes *)

(** Modelled from the spec: the codes are declared in [ffs/ffs.h], which is
    not part of the sources at hand; the names are the ones [ffs_restore.c]
    uses, [FFS_OK] is the value 0 and [FFS_EUNEXP] stands for every further
    nonzero code a collaborator may return. *)
Inductive ffs_rc : Type :=
| FFS_OK
| FFS_ECORRUPT
| FFS_EFLASH_ERROR
| FFS_ERANGE
| FFS_EINVAL
| FFS_ENOMEM
| FFS_ENOENT
| FFS_EEMPTY
| FFS_EUNEXP.

Definition ffs_rc_eqb (a b : ffs_rc) : bool :=
  match a, b with
  | FFS_OK, FFS_OK | FFS_ECORRUPT, FFS_ECORRUPT
  | FFS_EFLASH_ERROR, FFS_EFLASH_ERROR | FFS_ERANGE, FFS_ERANGE
  | FFS_EINVAL, FFS_EINVAL | FFS_ENOMEM, FFS_ENOMEM
  | FFS_ENOENT, FFS_ENOENT | FFS_EEMPTY, FFS_EEMPTY
  | FFS_EUNEXP, FFS_EUNEXP => true
  | _, _ => false
  end.

(** ** Constants of [ffs_priv.h] *)

(** Modelled from the spec: [ffs_priv.h] is not part of the sources at hand.
    The sentinels are the all-ones values of their types and the flag masks
    are distinct single bits. *)
Definition FFS_ID_NONE : Z := 4294967295.
Definition FFS_AREA_ID_NONE : Z := 65535.
Definition FFS_INODE_F_DELETED : Z := 1.
Definition FFS_INODE_F_DUMMY : Z := 2.
Definition FFS_INODE_F_DIRECTORY : Z := 4.
Definition FFS_BLOCK_F_DELETED : Z := 1.
Definition FFS_BLOCK_F_DUMMY : Z := 2.

(** The C test [flags & mask]. *)
Definition flag_set (flags mask : Z) : bool := negb (Z.land flags mask =? 0).

(** The type tag of an object; [FFS_OBJECT_TYPE_INVALID] stands for every
    value of the tag that is neither of the two defined ones. *)
Inductive ffs_object_type : Type :=
| FFS_OBJECT_TYPE_INODE
| FFS_OBJECT_TYPE_BLOCK
| FFS_OBJECT_TYPE_INVALID.

(** ** On-flash records *)

Record ffs_disk_area : Type := mk_disk_area {
  fda_magic_is_set : bool;
  fda_gc_seq : Z;
  fda_id : Z
}.

Record ffs_disk_inode : Type := mk_disk_inode {
  fdi_id : Z;
  fdi_seq : Z;
  fdi_parent_id : Z;
  fdi_flags : Z;
  fdi_filename_len : Z
}.

Record ffs_disk_block : Type := mk_disk_block {
  fdb_id : Z;
  fdb_seq : Z;
  fdb_inode_id : Z;
  fdb_flags : Z;
  fdb_data_len : Z
}.

(** [struct ffs_disk_object]: a tag, a union of the two records (both members
    are kept, only the one the tag names is meaningful) and the place the
    record was read from. *)
Record ffs_disk_object : Type := mk_disk_object {
  fdo_type : ffs_object_type;
  fdo_disk_inode : ffs_disk_inode;
  fdo_disk_block : ffs_disk_block;
  fdo_area_idx : Z;
  fdo_offset : Z
}.

Record ffs_area_desc : Type := mk_area_desc {
  fad_offset : Z;
  fad_length : Z
}.

(** ** In-RAM objects *)

Record ffs_inode : Type := mk_inode {
  fi_id : Z;
  fi_seq : Z;
  fi_area_idx : Z;
  fi_area_offset : Z;
  fi_flags : Z;
  fi_refcnt : Z;
  fi_filename_len : Z;
  fi_parent : option Z;
  fi_child_list : list Z;
  fi_block_list : list Z
}.

Record ffs_block : Type := mk_block {
  fb_id : Z;
  fb_seq : Z;
  fb_area_idx : Z;
  fb_area_offset : Z;
  fb_flags : Z;
  fb_data_len : Z;
  fb_inode : option Z
}.

Inductive ffs_object : Type :=
| ObjInode (i : ffs_inode)
| ObjBlock (b : ffs_block).

Definition fo_id (o : ffs_object) : Z :=
  match o with ObjInode i => fi_id i | ObjBlock b => fb_id b end.

Definition fo_area_idx (o : ffs_object) : Z :=
  match o with ObjInode i => fi_area_idx i | ObjBlock b => fb_area_idx b end.

(** [struct ffs_area].  The cursor [fa_cur] is a 32-bit offset, as the
    parameter [area_offset] of the functions it is handed to. *)
Record ffs_area : Type := mk_area {
  fa_offset : Z;
  fa_length : Z;
  fa_cur : Z;
  fa_gc_seq : Z;
  fa_id : Z
}.

Definition ffs_area_zero : ffs_area := mk_area 0 0 0 0 0.

(** ** The process-wide state *)

(** Besides the variables of the program the state has two history
    variables, which are no variables of the C program:
    - [ffs_index_tainted] is set when a merge leaves through the label [err]
      after it has changed the index (l.154, l.173, l.304): the change stays
      although the merge reports a failure, and where the object is a new
      one it is freed while the table still links it (l.210-213, l.328-331),
      so that what the table holds from then on is decided by the pools,
      which are not in this file;
    - [ffs_sweep_tainted] is set when the sweep goes on to a saved next
      pointer whose object the deletion before it has freed (l.60-63).
    From such a point on the index of the model need not be the index of the
    program; the statements about the merges and the sweep are made for the
    runs that leave the variable concerned clear. *)
Record ffs_state : Type := mk_ffs_state {
  ffs_hash : list ffs_object;
  ffs_areas : list ffs_area;
  ffs_scratch_area_idx : Z;
  ffs_root_dir : option Z;
  ffs_next_id : Z;
  ffs_inode_pool : nat;
  ffs_block_pool : nat;
  ffs_index_tainted : bool;
  ffs_sweep_tainted : bool
}.

(** A state whose history variables are clear. *)
Definition mk_state (h : list ffs_object) (a : list ffs_area) (s : Z)
           (r : option Z) (n : Z) (ip bp : nat) : ffs_state :=
  mk_ffs_state h a s r n ip bp false false.

Definition ffs_num_areas (st : ffs_state) : Z := Z.of_nat (length (ffs_areas st)).

Definition set_hash (h : list ffs_object) (st : ffs_state) : ffs_state :=
  mk_ffs_state h (ffs_areas st) (ffs_scratch_area_idx st) (ffs_root_dir st)
           (ffs_next_id st) (ffs_inode_pool st) (ffs_block_pool st)
           (ffs_index_tainted st) (ffs_sweep_tainted st).

Definition set_areas (a : list ffs_area) (st : ffs_state) : ffs_state :=
  mk_ffs_state (ffs_hash st) a (ffs_scratch_area_idx st) (ffs_root_dir st)
           (ffs_next_id st) (ffs_inode_pool st) (ffs_block_pool st)
           (ffs_index_tainted st) (ffs_sweep_tainted st).

Definition set_scratch_area_idx (i : Z) (st : ffs_state) : ffs_state :=
  mk_ffs_state (ffs_hash st) (ffs_areas st) i (ffs_root_dir st)
           (ffs_next_id st) (ffs_inode_pool st) (ffs_block_pool st)
           (ffs_index_tainted st) (ffs_sweep_tainted st).

Definition set_root_dir (r : option Z) (st : ffs_state) : ffs_state :=
  mk_ffs_state (ffs_hash st) (ffs_areas st) (ffs_scratch_area_idx st) r
           (ffs_next_id st) (ffs_inode_pool st) (ffs_block_pool st)
           (ffs_index_tainted st) (ffs_sweep_tainted st).

Definition set_next_id (n : Z) (st : ffs_state) : ffs_state :=
  mk_ffs_state (ffs_hash st) (ffs_areas st) (ffs_scratch_area_idx st)
           (ffs_root_dir st) n (ffs_inode_pool st) (ffs_block_pool st)
           (ffs_index_tainted st) (ffs_sweep_tainted st).

Definition set_inode_pool (n : nat) (st : ffs_state) : ffs_state :=
  mk_ffs_state (ffs_hash st) (ffs_areas st) (ffs_scratch_area_idx st)
           (ffs_root_dir st) (ffs_next_id st) n (ffs_block_pool st)
           (ffs_index_tainted st) (ffs_sweep_tainted st).

Definition set_block_pool (n : nat) (st : ffs_state) : ffs_state :=
  mk_ffs_state (ffs_hash st) (ffs_areas st) (ffs_scratch_area_idx st)
           (ffs_root_dir st) (ffs_next_id st) (ffs_inode_pool st) n
           (ffs_index_tainted st) (ffs_sweep_tainted st).

Definition set_index_tainted (st : ffs_state) : ffs_state :=
  mk_ffs_state (ffs_hash st) (ffs_areas st) (ffs_scratch_area_idx st)
               (ffs_root_dir st) (ffs_next_id st) (ffs_inode_pool st)
               (ffs_block_pool st) true (ffs_sweep_tainted st).

Definition set_sweep_tainted (st : ffs_state) : ffs_state :=
  mk_ffs_state (ffs_hash st) (ffs_areas st) (ffs_scratch_area_idx st)
               (ffs_root_dir st) (ffs_next_id st) (ffs_inode_pool st)
               (ffs_block_pool st) (ffs_index_tainted st) true.

(** ** Collaborators *)

(** The functions and constants of the repository that [ffs_restore.c] calls
    but that live in other files: the flash read primitives and the record
    decoders, the sizes of the on-flash structures, the pool and area-table
    capacities, the area subsystem and the final validators.  Flash reads take
    the area table because [ffs_flash_read] addresses flash through it. *)
Record ffs_env : Type := mk_env {
  sizeof_disk_area : Z;
  sizeof_disk_inode : Z;
  sizeof_disk_block : Z;
  FFS_INODE_MAGIC : Z;
  FFS_BLOCK_MAGIC : Z;
  (* [flash_read] of an area header at a flash offset; [None] is a nonzero rc *)
  flash_read_area : Z -> option ffs_disk_area;
  (* [ffs_flash_read] of the 32-bit magic at (area_idx, offset) *)
  ffs_flash_read_magic : list ffs_area -> Z -> Z -> ffs_rc * Z;
  ffs_inode_read_disk : list ffs_area -> Z -> Z -> ffs_rc * ffs_disk_inode;
  ffs_block_read_disk : list ffs_area -> Z -> Z -> ffs_rc * ffs_disk_block;
  (* the contents of the uninitialised locals [disk_object] of the area scan
     and [disk_area] of [ffs_restore_full] *)
  uninit_disk_object : ffs_disk_object;
  uninit_disk_area : ffs_disk_area;
  ffs_inode_pool_size : nat;
  ffs_block_pool_size : nat;
  ffs_area_capacity : nat;
  ffs_area_find_corrupt_scratch : ffs_state -> ffs_rc * (Z * Z);
  ffs_format_area : Z -> Z -> ffs_state -> ffs_rc * ffs_state;
  ffs_misc_validate_scratch : ffs_state -> ffs_rc;
  ffs_misc_validate_root : ffs_state -> ffs_rc;
  ffs_misc_set_max_block_data_size : ffs_state -> ffs_state
}.

(** ** The object index *)

(** Modelled from the spec: [ffs_hash.c] is not part of the sources at hand.
    The index is one table keyed by id that holds inodes and blocks; insertion
    is at the head.  The buckets of the C table are flattened into one
    list. *)
Fixpoint hash_find (h : list ffs_object) (id : Z) : option ffs_object :=
  match h with
  | [] => None
  | o :: h' => if fo_id o =? id then Some o else hash_find h' id
  end.

Fixpoint hash_remove (h : list ffs_object) (id : Z) : list ffs_object :=
  match h with
  | [] => []
  | o :: h' => if fo_id o =? id then h' else o :: hash_remove h' id
  end.

Fixpoint hash_update (h : list ffs_object) (id : Z)
         (f : ffs_object -> ffs_object) : list ffs_object :=
  match h with
  | [] => []
  | o :: h' => if fo_id o =? id then f o :: h' else o :: hash_update h' id f
  end.

Definition on_inode (f : ffs_inode -> ffs_inode) (o : ffs_object) : ffs_object :=
  match o with ObjInode i => ObjInode (f i) | ObjBlock b => ObjBlock b end.

Definition on_block (f : ffs_block -> ffs_block) (o : ffs_object) : ffs_object :=
  match o with ObjInode i => ObjInode i | ObjBlock b => ObjBlock (f b) end.

(** A write through an inode (block) pointer. *)
Definition inode_update (id : Z) (f : ffs_inode -> ffs_inode) (st : ffs_state)
  : ffs_state := set_hash (hash_update (ffs_hash st) id (on_inode f)) st.

Definition block_update (id : Z) (f : ffs_block -> ffs_block) (st : ffs_state)
  : ffs_state := set_hash (hash_update (ffs_hash st) id (on_block f)) st.

Definition ffs_hash_insert (o : ffs_object) (st : ffs_state) : ffs_state :=
  set_hash (o :: ffs_hash st) st.

Definition ffs_hash_remove (id : Z) (st : ffs_state) : ffs_state :=
  set_hash (hash_remove (ffs_hash st) id) st.

(** Modelled from the spec: find-inode-by-id.  A miss is [FFS_ENOENT]; an
    object of the other type under that id is a further nonzero code, the one
    the [default:] branches of the callers turn into [FFS_ECORRUPT]. *)
Definition ffs_hash_find_inode (st : ffs_state) (id : Z)
  : ffs_rc * option ffs_inode :=
  match hash_find (ffs_hash st) id with
  | None => (FFS_ENOENT, None)
  | Some (ObjInode i) => (FFS_OK, Some i)
  | Some (ObjBlock _) => (FFS_EUNEXP, None)
  end.

(** Modelled from the spec: find-block-by-id, as [ffs_hash_find_inode]. *)
Definition ffs_hash_find_block (st : ffs_state) (id : Z)
  : ffs_rc * option ffs_block :=
  match hash_find (ffs_hash st) id with
  | None => (FFS_ENOENT, None)
  | Some (ObjBlock b) => (FFS_OK, Some b)
  | Some (ObjInode _) => (FFS_EUNEXP, None)
  end.

(** ** Pools *)

Definition inode_zero : ffs_inode := mk_inode 0 0 0 0 0 0 0 None [] [].
Definition block_zero : ffs_block := mk_block 0 0 0 0 0 0 None.

(** Modelled from the spec: the inode pool; [None] is the NULL of an
    exhausted pool, a fresh object is zeroed.  Once an object has been freed
    while the table links it ([ffs_index_tainted]), the pool may hand out
    that very object; the model does not follow the table from there. *)
Definition ffs_inode_alloc (st : ffs_state) : option (ffs_inode * ffs_state) :=
  match ffs_inode_pool st with
  | O => None
  | S n => Some (inode_zero, set_inode_pool n st)
  end.

(** Modelled from the spec: returning an inode to its pool.  The pool does not
    know the index: an object that was inserted before stays linked there. *)
Definition ffs_inode_free (st : ffs_state) : ffs_state :=
  set_inode_pool (S (ffs_inode_pool st)) st.

(** Modelled from the spec: the block pool, as the inode pool. *)
Definition ffs_block_alloc (st : ffs_state) : option (ffs_block * ffs_state) :=
  match ffs_block_pool st with
  | O => None
  | S n => Some (block_zero, set_block_pool n st)
  end.

(** Modelled from the spec: returning a block to its pool. *)
Definition ffs_block_free (st : ffs_state) : ffs_state :=
  set_block_pool (S (ffs_block_pool st)) st.

(** ** Inode and block helpers *)

Definition set_fi_parent (p : option Z) (i : ffs_inode) : ffs_inode :=
  mk_inode (fi_id i) (fi_seq i) (fi_area_idx i) (fi_area_offset i) (fi_flags i)
           (fi_refcnt i) (fi_filename_len i) p (fi_child_list i) (fi_block_list i).

Definition set_fi_child_list (l : list Z) (i : ffs_inode) : ffs_inode :=
  mk_inode (fi_id i) (fi_seq i) (fi_area_idx i) (fi_area_offset i) (fi_flags i)
           (fi_refcnt i) (fi_filename_len i) (fi_parent i) l (fi_block_list i).

Definition set_fi_block_list (l : list Z) (i : ffs_inode) : ffs_inode :=
  mk_inode (fi_id i) (fi_seq i) (fi_area_idx i) (fi_area_offset i) (fi_flags i)
           (fi_refcnt i) (fi_filename_len i) (fi_parent i) (fi_child_list i) l.

Definition set_fi_flags (f : Z) (i : ffs_inode) : ffs_inode :=
  mk_inode (fi_id i) (fi_seq i) (fi_area_idx i) (fi_area_offset i) f
           (fi_refcnt i) (fi_filename_len i) (fi_parent i) (fi_child_list i)
           (fi_block_list i).

Definition set_fi_refcnt (r : Z) (i : ffs_inode) : ffs_inode :=
  mk_inode (fi_id i) (fi_seq i) (fi_area_idx i) (fi_area_offset i) (fi_flags i)
           r (fi_filename_len i) (fi_parent i) (fi_child_list i) (fi_block_list i).

Definition set_fb_inode (p : option Z) (b : ffs_block) : ffs_block :=
  mk_block (fb_id b) (fb_seq b) (fb_area_idx b) (fb_area_offset b) (fb_flags b)
           (fb_data_len b) p.

Definition set_fb_flags (f : Z) (b : ffs_block) : ffs_block :=
  mk_block (fb_id b) (fb_seq b) (fb_area_idx b) (fb_area_offset b) f
           (fb_data_len b) (fb_inode b).

Definition remove_id (id : Z) (l : list Z) : list Z :=
  filter (fun x => negb (x =? id)) l.

(** Modelled from the spec: [ffs_inode_from_disk] of [ffs_inode.c] initialises
    an inode from a record and the place it was read from; the links of the
    inode (parent, children, blocks) and its reference count are not part of
    the record and stay.  The return value, which [ffs_restore_inode] tests
    for a new inode, is taken to be 0. *)
Definition ffs_inode_from_disk (di : ffs_disk_inode) (area_idx area_offset : Z)
           (i : ffs_inode) : ffs_inode :=
  mk_inode (fdi_id di) (fdi_seq di) area_idx area_offset (fdi_flags di)
           (fi_refcnt i) (fdi_filename_len di) (fi_parent i) (fi_child_list i)
           (fi_block_list i).

(** Modelled from the spec: [ffs_block_from_disk] of [ffs_block.c] replaces a
    block in place from a record; the owning inode link is preserved. *)
Definition ffs_block_from_disk (db : ffs_disk_block) (area_idx area_offset : Z)
           (b : ffs_block) : ffs_block :=
  mk_block (fdb_id db) (fdb_seq db) area_idx area_offset (fdb_flags db)
           (fdb_data_len db) (fb_inode b).

(** Modelled from the spec: a record designates the root when its parent is
    [FFS_ID_NONE] and its flags say directory. *)
Definition ffs_inode_is_root (di : ffs_disk_inode) : bool :=
  (fdi_parent_id di =? FFS_ID_NONE) && flag_set (fdi_flags di) FFS_INODE_F_DIRECTORY.

(** Modelled from the spec: unlink an inode from its parent's child list. *)
Definition ffs_inode_remove_child (child : Z) (st : ffs_state) : ffs_state :=
  match hash_find (ffs_hash st) child with
  | Some (ObjInode c) =>
      match fi_parent c with
      | Some p =>
          inode_update child (set_fi_parent None)
            (inode_update p (fun pi => set_fi_child_list (remove_id child (fi_child_list pi)) pi) st)
      | None => st
      end
  | _ => st
  end.

(** Modelled from the spec: add an inode to a parent's children. *)
Definition ffs_inode_add_child (parent child : Z) (st : ffs_state)
  : ffs_rc * ffs_state :=
  (FFS_OK,
   inode_update child (set_fi_parent (Some parent))
     (inode_update parent (fun pi => set_fi_child_list (fi_child_list pi ++ [child]) pi) st)).

(** Modelled from the spec: link a block into the block list of an inode. *)
Definition ffs_inode_insert_block (inode block : Z) (st : ffs_state) : ffs_state :=
  inode_update inode (fun i => set_fi_block_list (fi_block_list i ++ [block]) i) st.

(** Modelled from the spec: deleting a block removes it from the index,
    unlinks it from the block list of its owner and returns it to its pool. *)
Definition ffs_block_delete_from_ram (b : ffs_block) (st : ffs_state) : ffs_state :=
  let st1 := match fb_inode b with
             | Some i => inode_update i (fun x => set_fi_block_list (remove_id (fb_id b) (fi_block_list x)) x) st
             | None => st
             end in
  ffs_block_free (ffs_hash_remove (fb_id b) st1).

Definition delete_owned_block (st : ffs_state) (bid : Z) : ffs_state :=
  match hash_find (ffs_hash st) bid with
  | Some (ObjBlock _) => ffs_block_free (ffs_hash_remove bid st)
  | _ => st
  end.

(** Modelled from the spec: deleting an inode removes it from the index,
    deletes the blocks that depend on it, unlinks it from its parent and its
    children and returns it to its pool. *)
Definition ffs_inode_delete_from_ram (i : ffs_inode) (st : ffs_state) : ffs_state :=
  let st1 := fold_left delete_owned_block (fi_block_list i) st in
  let st2 := fold_left (fun s c => inode_update c (set_fi_parent None) s)
                       (fi_child_list i) st1 in
  let st3 := match fi_parent i with
             | Some p => inode_update p (fun pi => set_fi_child_list (remove_id (fi_id i) (fi_child_list pi)) pi) st2
             | None => st2
             end in
  ffs_inode_free (ffs_hash_remove (fi_id i) st3).

(** ** [ffs_restore.c] *)

Definition ffs_delete_if_trash (object : ffs_object) (st : ffs_state)
  : Z * ffs_state :=
  match object with
  | ObjInode inode =>
      if flag_set (fi_flags inode) FFS_INODE_F_DELETED then
        (1, ffs_inode_delete_from_ram inode st)
      else if flag_set (fi_flags inode) FFS_INODE_F_DUMMY then
        (1, ffs_inode_delete_from_ram inode st)
      else (0, st)
  | ObjBlock block =>
      if flag_set (fb_flags block) FFS_BLOCK_F_DELETED
         || match fb_inode block with None => true | Some _ => false end
      then (1, ffs_block_delete_from_ram block st)
      else (0, st)
  end.

(** One step of the traversal: the object of the saved next pointer is
    handed to [ffs_delete_if_trash].  The loop takes the next pointer before
    it deletes (l.60) and follows it whatever the deletion did (l.63): when
    the deletion of an object has also freed a later one (an inode takes its
    blocks with it), the loop may come to the freed object.  What happens
    then is not decided by this file; the step sets the history variable
    [ffs_sweep_tainted]. *)
Definition ffs_restore_sweep_step (st : ffs_state) (id : Z) : ffs_state :=
  match hash_find (ffs_hash st) id with
  | Some object => snd (ffs_delete_if_trash object st)
  | None => set_sweep_tainted st
  end.

(** The traversal visits the objects of the table in the order of its links.
    The buckets of the C table are flattened into one list; which object is
    the saved next pointer of which depends on the layout of the buckets, so
    every object that a deletion frees before its turn counts as one. *)
Definition ffs_restore_sweep (st : ffs_state) : ffs_state :=
  fold_left ffs_restore_sweep_step (map fo_id (ffs_hash st)) st.

(** On success the new inode is in the index and [*out_inode] points to it;
    the result carries that pointer. *)
Definition ffs_restore_dummy_inode (id : Z) (is_dir : bool) (st : ffs_state)
  : ffs_rc * option Z * ffs_state :=
  match ffs_inode_alloc st with
  | None => (FFS_ENOMEM, None, st)
  | Some (inode, st1) =>
      let flags := if is_dir
                   then Z.lor FFS_INODE_F_DUMMY FFS_INODE_F_DIRECTORY
                   else FFS_INODE_F_DUMMY in
      let inode' :=
        mk_inode id (fi_seq inode) FFS_AREA_ID_NONE (fi_area_offset inode) flags
                 1 (fi_filename_len inode) (fi_parent inode)
                 (fi_child_list inode) (fi_block_list inode) in
      (FFS_OK, Some id, ffs_hash_insert (ObjInode inode') st1)
  end.

(** [inl r] is the return value 0 with [r] written to [*out_should_replace];
    [inr rc] is a nonzero return value, which leaves the out parameter
    alone. *)
Definition ffs_restore_inode_gets_replaced (old_inode : ffs_inode)
           (disk_inode : ffs_disk_inode) : bool + ffs_rc :=
  if flag_set (fi_flags old_inode) FFS_INODE_F_DUMMY then inl true
  else if fi_seq old_inode <? fdi_seq disk_inode then inl true
  else if fi_seq old_inode =? fdi_seq disk_inode then inr FFS_ECORRUPT
  else inl false.

(** The update of [ffs_next_id] that ends a merge; the increment is a 32-bit
    one. *)
Definition ffs_next_id_update (id : Z) (st : ffs_state) : ffs_state :=
  if ffs_next_id st <=? id then set_next_id (u32 (id + 1)) st else st.

(** The exit through the label [err] of [ffs_restore_inode].  [changed]
    says whether the merge has changed the index before (it has replaced the
    inode it found, l.154, or inserted the new one, l.173); then the exit
    sets [ffs_index_tainted].  A new inode that is freed here (l.211-213)
    has been inserted before and is not taken out of the table: it is in the
    pool again and still linked. *)
Definition ffs_restore_inode_err (new_inode changed : bool) (rc : ffs_rc)
           (st : ffs_state) : ffs_rc * ffs_state :=
  let st1 := if changed then set_index_tainted st else st in
  (rc, if new_inode then ffs_inode_free st1 else st1).

(** The part of [ffs_restore_inode] after the [switch]: linking to the parent,
    root detection and the update of [ffs_next_id].  [inode] is the pointer
    the [switch] left in the local of that name. *)
Definition ffs_restore_inode_finish (disk_inode : ffs_disk_inode) (inode : Z)
           (new_inode do_add : bool) (st : ffs_state) : ffs_rc * ffs_state :=
  let linked : ffs_rc * ffs_state :=
    if do_add then
      let r :=
        if negb (fdi_parent_id disk_inode =? FFS_ID_NONE) then
          let '(rc, parent) := ffs_hash_find_inode st (fdi_parent_id disk_inode) in
          let '(rc1, parent1, st1) :=
            match rc with
            | FFS_ENOENT => ffs_restore_dummy_inode (fdi_parent_id disk_inode) true st
            | _ => (rc, option_map fi_id parent, st)
            end in
          match rc1, parent1 with
          | FFS_OK, Some p => ffs_inode_add_child p inode st1
          | FFS_OK, None => (FFS_EUNEXP, st1)
          | _, _ => (rc1, st1)
          end
        else (FFS_OK, st) in
      match r with
      | (FFS_OK, st2) =>
          (FFS_OK, if ffs_inode_is_root disk_inode
                   then set_root_dir (Some inode) st2 else st2)
      | _ => r
      end
    else (FFS_OK, st) in
  match linked with
  | (FFS_OK, st3) => (FFS_OK, ffs_next_id_update inode st3)
  | (rc, st3) => ffs_restore_inode_err new_inode true rc st3
  end.

Definition ffs_restore_inode (disk_inode : ffs_disk_inode)
           (area_idx area_offset : Z) (st : ffs_state) : ffs_rc * ffs_state :=
  match ffs_hash_find_inode st (fdi_id disk_inode) with
  | (FFS_OK, Some inode) =>
      match ffs_restore_inode_gets_replaced inode disk_inode with
      | inr rc => ffs_restore_inode_err false false rc st
      | inl do_add =>
          let st1 :=
            if do_add then
              let st0 := match fi_parent inode with
                         | Some _ => ffs_inode_remove_child (fi_id inode) st
                         | None => st
                         end in
              inode_update (fi_id inode)
                           (ffs_inode_from_disk disk_inode area_idx area_offset) st0
            else st in
          ffs_restore_inode_finish disk_inode (fi_id inode) false do_add st1
      end
  | (FFS_ENOENT, _) =>
      match ffs_inode_alloc st with
      | None => ffs_restore_inode_err false false FFS_ENOMEM st
      | Some (inode, st1) =>
          let inode1 := ffs_inode_from_disk disk_inode area_idx area_offset inode in
          let inode2 := set_fi_refcnt 1 inode1 in
          let st2 := ffs_hash_insert (ObjInode inode2) st1 in
          ffs_restore_inode_finish disk_inode (fi_id inode2) true true st2
      end
  | _ => ffs_restore_inode_err false false FFS_ECORRUPT st
  end.

Definition ffs_restore_block_gets_replaced (old_block : ffs_block)
           (disk_block : ffs_disk_block) : bool + ffs_rc :=
  if flag_set (fb_flags old_block) FFS_BLOCK_F_DUMMY then inl true
  else if fb_seq old_block <? fdb_seq disk_block then inl true
  else if fb_seq old_block =? fdb_seq disk_block then inr FFS_ECORRUPT
  else inl false.

(** The exit through the label [err] of [ffs_restore_block].  A new block
    that is freed here (l.329-331) has been inserted before (l.304) and is
    not taken out of the table: it is in the pool again and still linked, and
    the exit sets [ffs_index_tainted]. *)
Definition ffs_restore_block_err (new_block : bool) (rc : ffs_rc)
           (st : ffs_state) : ffs_rc * ffs_state :=
  (rc, if new_block then ffs_block_free (set_index_tainted st) else st).

Definition ffs_restore_block (disk_block : ffs_disk_block)
           (area_idx area_offset : Z) (st : ffs_state) : ffs_rc * ffs_state :=
  match ffs_hash_find_block st (fdb_id disk_block) with
  | (FFS_OK, Some block) =>
      match ffs_restore_block_gets_replaced block disk_block with
      | inr rc => ffs_restore_block_err false rc st
      | inl do_replace =>
          let st1 :=
            if do_replace then
              block_update (fb_id block)
                           (ffs_block_from_disk disk_block area_idx area_offset) st
            else st in
          (FFS_OK, ffs_next_id_update (fb_id block) st1)
      end
  | (FFS_ENOENT, _) =>
      match ffs_block_alloc st with
      | None => ffs_restore_block_err false FFS_ENOMEM st
      | Some (block, st1) =>
          let block1 := ffs_block_from_disk disk_block area_idx area_offset block in
          let st2 := ffs_hash_insert (ObjBlock block1) st1 in
          let '(rc, found) := ffs_hash_find_inode st2 (fdb_inode_id disk_block) in
          let '(rc1, owner, st3) :=
            match rc with
            | FFS_ENOENT => ffs_restore_dummy_inode (fdb_inode_id disk_block) false st2
            | _ => (rc, option_map fi_id found, st2)
            end in
          (* the out parameter of both calls is [&block->fb_inode] *)
          let st4 := block_update (fb_id block1) (set_fb_inode owner) st3 in
          match rc1, owner with
          | FFS_OK, Some i =>
              let st5 := ffs_inode_insert_block i (fb_id block1) st4 in
              (FFS_OK, ffs_next_id_update (fb_id block1) st5)
          | FFS_OK, None => ffs_restore_block_err true FFS_EUNEXP st4
          | _, _ => ffs_restore_block_err true rc1 st4
          end
      end
  | _ => ffs_restore_block_err false FFS_ECORRUPT st
  end.

Definition ffs_restore_object (disk_object : ffs_disk_object) (st : ffs_state)
  : ffs_rc * ffs_state :=
  match fdo_type disk_object with
  | FFS_OBJECT_TYPE_INODE =>
      ffs_restore_inode (fdo_disk_inode disk_object) (fdo_area_idx disk_object)
                        (fdo_offset disk_object) st
  | FFS_OBJECT_TYPE_BLOCK =>
      ffs_restore_block (fdo_disk_block disk_object) (fdo_area_idx disk_object)
                        (fdo_offset disk_object) st
  | FFS_OBJECT_TYPE_INVALID => (FFS_EINVAL, st)
  end.

(** ** The area table *)

Definition area_at (st : ffs_state) (area_idx : Z) : ffs_area :=
  nth (Z.to_nat area_idx) (ffs_areas st) ffs_area_zero.

Fixpoint list_set {A : Type} (l : list A) (n : nat) (x : A) : list A :=
  match l, n with
  | [], _ => []
  | _ :: l', O => x :: l'
  | y :: l', S n' => y :: list_set l' n' x
  end.

(** A write to [ffs_areas[area_idx]]; the index is one of the table. *)
Definition area_set (area_idx : Z) (a : ffs_area) (st : ffs_state) : ffs_state :=
  set_areas (list_set (ffs_areas st) (Z.to_nat area_idx) a) st.

Definition area_set_cur (area_idx : Z) (cur : Z) (st : ffs_state) : ffs_state :=
  let a := area_at st area_idx in
  area_set area_idx (mk_area (fa_offset a) (fa_length a) cur (fa_gc_seq a) (fa_id a)) st.

Fixpoint resize_areas (l : list ffs_area) (n : nat) : list ffs_area :=
  match n with
  | O => []
  | S n' => match l with
            | [] => ffs_area_zero :: resize_areas [] n'
            | a :: l' => a :: resize_areas l' n'
            end
  end.

Section WithEnv.

Variable E : ffs_env.

(** Modelled from the spec: [ffs_misc_reset] of [ffs_misc.c] puts all
    process-wide state back to its initial value: empty index and area table,
    no scratch area, no root, no id seen, full pools. *)
Definition ffs_misc_reset (st : ffs_state) : ffs_state :=
  mk_state [] [] FFS_AREA_ID_NONE None 0
           (ffs_inode_pool_size E) (ffs_block_pool_size E).

(** Modelled from the spec: [ffs_misc_set_num_areas] of [ffs_misc.c] resizes
    the area table, which fails with [FFS_ENOMEM] beyond the capacity. *)
Definition ffs_misc_set_num_areas (num_areas : Z) (st : ffs_state)
  : ffs_rc * ffs_state :=
  if (Z.to_nat num_areas <=? ffs_area_capacity E)%nat
  then (FFS_OK, set_areas (resize_areas (ffs_areas st) (Z.to_nat num_areas)) st)
  else (FFS_ENOMEM, st).

(** [disk_object] is the value the out parameter holds at the call; the
    result carries the value it holds at the return. *)
Definition ffs_restore_disk_object (disk_object : ffs_disk_object)
           (areas : list ffs_area) (area_idx area_offset : Z)
  : ffs_rc * ffs_disk_object :=
  let '(rc, magic) := ffs_flash_read_magic E areas area_idx area_offset in
  match rc with
  | FFS_OK =>
      let '(rc1, o1) :=
        if magic =? FFS_INODE_MAGIC E then
          let '(rc0, di) := ffs_inode_read_disk E areas area_idx area_offset in
          (rc0, mk_disk_object FFS_OBJECT_TYPE_INODE di (fdo_disk_block disk_object)
                               (fdo_area_idx disk_object) (fdo_offset disk_object))
        else if magic =? FFS_BLOCK_MAGIC E then
          let '(rc0, db) := ffs_block_read_disk E areas area_idx area_offset in
          (rc0, mk_disk_object FFS_OBJECT_TYPE_BLOCK (fdo_disk_inode disk_object) db
                               (fdo_area_idx disk_object) (fdo_offset disk_object))
        else if magic =? 4294967295 then (FFS_EEMPTY, disk_object)
        else (FFS_ECORRUPT, disk_object) in
      match rc1 with
      | FFS_OK =>
          (FFS_OK, mk_disk_object (fdo_type o1) (fdo_disk_inode o1)
                                  (fdo_disk_block o1) area_idx area_offset)
      | _ => (rc1, o1)
      end
  | _ => (rc, disk_object)
  end.

Definition ffs_restore_disk_object_size (disk_object : ffs_disk_object) : Z :=
  match fdo_type disk_object with
  | FFS_OBJECT_TYPE_INODE =>
      sizeof_disk_inode E + fdi_filename_len (fdo_disk_inode disk_object)
  | FFS_OBJECT_TYPE_BLOCK =>
      sizeof_disk_block E + fdb_data_len (fdo_disk_block disk_object)
  | FFS_OBJECT_TYPE_INVALID => 1
  end.

(** The [while (1)] of [ffs_restore_area_contents]; [None] is a loop that has
    not returned within [fuel] iterations.  The return value of
    [ffs_restore_object] is not looked at. *)
Fixpoint ffs_restore_area_contents_loop (fuel : nat) (area_idx : Z)
         (disk_object : ffs_disk_object) (st : ffs_state)
  : option (ffs_rc * ffs_state) :=
  match fuel with
  | O => None
  | S fuel' =>
      let '(rc, disk_object1) :=
        ffs_restore_disk_object disk_object (ffs_areas st) area_idx
                                (fa_cur (area_at st area_idx)) in
      match rc with
      | FFS_OK =>
          let st1 := snd (ffs_restore_object disk_object1 st) in
          let st2 := area_set_cur area_idx
                       (u32 (fa_cur (area_at st1 area_idx)
                             + ffs_restore_disk_object_size disk_object1)) st1 in
          ffs_restore_area_contents_loop fuel' area_idx disk_object1 st2
      | FFS_EEMPTY | FFS_ERANGE => Some (FFS_OK, st)
      | _ => Some (rc, st)
      end
  end.

Definition ffs_restore_area_contents (fuel : nat) (area_idx : Z) (st : ffs_state)
  : option (ffs_rc * ffs_state) :=
  ffs_restore_area_contents_loop fuel area_idx (uninit_disk_object E)
    (area_set_cur area_idx (sizeof_disk_area E) st).

Definition ffs_restore_detect_one_area (disk_area : ffs_disk_area)
           (area_offset : Z) : ffs_rc * ffs_disk_area :=
  match flash_read_area E area_offset with
  | None => (FFS_EFLASH_ERROR, disk_area)
  | Some da =>
      if negb (fda_magic_is_set da) then (FFS_ECORRUPT, da) else (FFS_OK, da)
  end.

Definition ffs_mark_dummy (bad_idx : Z) (object : ffs_object) : ffs_object :=
  if fo_area_idx object =? bad_idx then
    match object with
    | ObjInode i => ObjInode (set_fi_flags (Z.lor (fi_flags i) FFS_INODE_F_DUMMY) i)
    | ObjBlock b => ObjBlock (set_fb_flags (Z.lor (fb_flags b) FFS_BLOCK_F_DUMMY) b)
    end
  else object.

Definition ffs_restore_corrupt_flash (fuel : nat) (st : ffs_state)
  : option (ffs_rc * ffs_state) :=
  let '(rc, (good_idx, bad_idx)) := ffs_area_find_corrupt_scratch E st in
  match rc with
  | FFS_OK =>
      let st1 := set_hash (map (ffs_mark_dummy bad_idx) (ffs_hash st)) st in
      match ffs_restore_area_contents fuel good_idx st1 with
      | None => None
      | Some (FFS_OK, st2) =>
          match ffs_format_area E bad_idx 1 st2 with
          | (FFS_OK, st3) => Some (FFS_OK, set_scratch_area_idx bad_idx st3)
          | (rc2, st3) => Some (rc2, st3)
          end
      | Some (rc1, st2) => Some (rc1, st2)
      end
  | _ => Some (rc, st)
  end.

End WithEnv.

Section Orchestrator.

Variable E : ffs_env.

(** The statements of [ffs_restore_full] after the repair of the scratch
    area, up to [return 0], with the exit through the label [err]. *)
Definition ffs_restore_full_finish (st : ffs_state) : ffs_rc * ffs_state :=
  match ffs_misc_validate_scratch E st with
  | FFS_OK =>
      let st1 := ffs_restore_sweep st in
      match ffs_misc_validate_root E st1 with
      | FFS_OK => (FFS_OK, ffs_misc_set_max_block_data_size E st1)
      | rc => (rc, ffs_misc_reset E st1)
      end
  | rc => (rc, ffs_misc_reset E st)
  end.

(** The [for] loop of [ffs_restore_full] over the descriptors.  A result
    [FFS_OK] is the loop running to its end, a nonzero one is a [goto err]
    (the reset of the label is left to the caller).  The end of the list
    stands for the terminating descriptor of length 0.  The return value of
    [ffs_restore_area_contents] is not looked at. *)
Fixpoint ffs_restore_full_areas (fuel : nat) (area_descs : list ffs_area_desc)
         (disk_area : ffs_disk_area) (st : ffs_state)
  : option (ffs_rc * ffs_state) :=
  match area_descs with
  | [] => Some (FFS_OK, st)
  | desc :: rest =>
      if fad_length desc =? 0 then Some (FFS_OK, st)
      else
        let '(rc, disk_area1) :=
          ffs_restore_detect_one_area E disk_area (fad_offset desc) in
        let next (use_area : bool) : option (ffs_rc * ffs_state) :=
          let use_area1 :=
            if use_area
               && ((fda_id disk_area1 =? FFS_AREA_ID_NONE)
                   && negb (ffs_scratch_area_idx st =? FFS_AREA_ID_NONE))
            then false else use_area in
          if use_area1 then
            let cur_area_idx := ffs_num_areas st in
            match ffs_misc_set_num_areas E (ffs_num_areas st + 1) st with
            | (FFS_OK, st1) =>
                let st2 :=
                  area_set cur_area_idx
                    (mk_area (fad_offset desc) (fad_length desc)
                             (sizeof_disk_area E) (fda_gc_seq disk_area1)
                             (fda_id disk_area1)) st1 in
                if fda_id disk_area1 =? FFS_AREA_ID_NONE then
                  ffs_restore_full_areas fuel rest disk_area1
                    (set_scratch_area_idx (u16 cur_area_idx) st2)
                else
                  match ffs_restore_area_contents E fuel cur_area_idx st2 with
                  | None => None
                  | Some (_, st3) => ffs_restore_full_areas fuel rest disk_area1 st3
                  end
            | (rc1, st1) => Some (rc1, st1)
            end
          else ffs_restore_full_areas fuel rest disk_area1 st in
        match rc with
        | FFS_OK => next true
        | FFS_ECORRUPT => next false
        | _ => Some (rc, st)
        end
  end.

Definition ffs_restore_full (fuel : nat) (area_descs : list ffs_area_desc)
           (st : ffs_state) : option (ffs_rc * ffs_state) :=
  let st0 := ffs_misc_reset E st in
  match ffs_restore_full_areas fuel area_descs (uninit_disk_area E) st0 with
  | None => None
  | Some (FFS_OK, st1) =>
      let repaired :=
        if ffs_scratch_area_idx st1 =? FFS_AREA_ID_NONE
        then ffs_restore_corrupt_flash E fuel st1
        else Some (FFS_OK, st1) in
      match repaired with
      | None => None
      | Some (FFS_OK, st2) => Some (ffs_restore_full_finish st2)
      | Some (rc, st2) => Some (rc, ffs_misc_reset E st2)
      end
  | Some (rc, st1) => Some (rc, ffs_misc_reset E st1)
  end.

End Orchestrator.

(** ** A flash image to run the code on

    A collaborator environment built from a description of the flash: each
    area image has the flash offset and length of the area, its header (or
    [None] where the flash read fails) and the records written after the
    header; the rest of the area is erased.  [RecRepeat n r] is the record
    [r] written [n] times in a row, [RecGarbage m size] is [size] bytes that
    are no record and start with the word [m]. *)

Inductive flash_record : Type :=
| RecInode (di : ffs_disk_inode)
| RecBlock (db : ffs_disk_block)
| RecGarbage (magic : Z) (size : Z)
| RecRepeat (n : Z) (r : flash_record).

Record flash_area_image : Type := mk_image {
  img_offset : Z;
  img_length : Z;
  img_header : option ffs_disk_area;
  img_records : list flash_record
}.

Definition IMG_SIZEOF_DISK_AREA : Z := 24.
Definition IMG_SIZEOF_DISK_INODE : Z := 20.
Definition IMG_SIZEOF_DISK_BLOCK : Z := 20.
Definition IMG_INODE_MAGIC : Z := 2455735232.
Definition IMG_BLOCK_MAGIC : Z := 1404707769.

Fixpoint flash_record_size (r : flash_record) : Z :=
  match r with
  | RecInode di => IMG_SIZEOF_DISK_INODE + fdi_filename_len di
  | RecBlock db => IMG_SIZEOF_DISK_BLOCK + fdb_data_len db
  | RecGarbage _ size => size
  | RecRepeat n r' => n * flash_record_size r'
  end.

(** The record that starts [delta] bytes into the bytes of [r]. *)
Definition flash_record_within (r : flash_record) (delta : Z) : flash_record :=
  match r with
  | RecRepeat _ r' =>
      if delta mod flash_record_size r' =? 0 then r' else RecGarbage 0 1
  | _ => if delta =? 0 then r else RecGarbage 0 1
  end.

Fixpoint img_find (img : list flash_area_image) (offset : Z)
  : option flash_area_image :=
  match img with
  | [] => None
  | a :: img' => if img_offset a =? offset then Some a else img_find img' offset
  end.

(** The record that starts at [offset], the records being laid out from
    [pos] on; [None] is erased flash, a position inside a record reads as
    garbage. *)
Fixpoint img_record_at (rs : list flash_record) (pos offset : Z)
  : option flash_record :=
  match rs with
  | [] => None
  | r :: rs' =>
      if offset <? pos then Some (RecGarbage 0 1)
      else if offset <? pos + flash_record_size r
           then Some (flash_record_within r (offset - pos))
      else img_record_at rs' (pos + flash_record_size r) offset
  end.

Definition img_area_record (img : list flash_area_image) (areas : list ffs_area)
           (area_idx offset : Z) : option flash_record :=
  match img_find img (fa_offset (nth (Z.to_nat area_idx) areas ffs_area_zero)) with
  | Some a => img_record_at (img_records a) IMG_SIZEOF_DISK_AREA offset
  | None => Some (RecGarbage 0 1)
  end.

(** A read of [len] bytes at (area_idx, offset) that would cross the declared
    length of the area is [FFS_ERANGE]. *)
Definition img_in_range (areas : list ffs_area) (area_idx offset len : Z) : bool :=
  offset + len <=? fa_length (nth (Z.to_nat area_idx) areas ffs_area_zero).

Definition img_read_magic (img : list flash_area_image) (areas : list ffs_area)
           (area_idx offset : Z) : ffs_rc * Z :=
  if img_in_range areas area_idx offset 4 then
    match img_area_record img areas area_idx offset with
    | None => (FFS_OK, 4294967295)
    | Some (RecInode _) => (FFS_OK, IMG_INODE_MAGIC)
    | Some (RecBlock _) => (FFS_OK, IMG_BLOCK_MAGIC)
    | Some (RecGarbage m _) => (FFS_OK, m)
    | Some (RecRepeat _ _) => (FFS_OK, 0)
    end
  else (FFS_ERANGE, 0).

Definition disk_inode_zero : ffs_disk_inode := mk_disk_inode 0 0 0 0 0.
Definition disk_block_zero : ffs_disk_block := mk_disk_block 0 0 0 0 0.

Definition img_inode_read_disk (img : list flash_area_image)
           (areas : list ffs_area) (area_idx offset : Z)
  : ffs_rc * ffs_disk_inode :=
  if img_in_range areas area_idx offset IMG_SIZEOF_DISK_INODE then
    match img_area_record img areas area_idx offset with
    | Some (RecInode di) => (FFS_OK, di)
    | _ => (FFS_ECORRUPT, disk_inode_zero)
    end
  else (FFS_ERANGE, disk_inode_zero).

Definition img_block_read_disk (img : list flash_area_image)
           (areas : list ffs_area) (area_idx offset : Z)
  : ffs_rc * ffs_disk_block :=
  if img_in_range areas area_idx offset IMG_SIZEOF_DISK_BLOCK then
    match img_area_record img areas area_idx offset with
    | Some (RecBlock db) => (FFS_OK, db)
    | _ => (FFS_ECORRUPT, disk_block_zero)
    end
  else (FFS_ERANGE, disk_block_zero).

Definition img_read_area (img : list flash_area_image) (offset : Z)
  : option ffs_disk_area :=
  match img_find img offset with
  | Some a => img_header a
  | None => None
  end.

(** The validators of the image environment: a scratch area has been
    recorded; the root pointer resolves to an inode of the index. *)
Definition img_validate_scratch (st : ffs_state) : ffs_rc :=
  if ffs_scratch_area_idx st =? FFS_AREA_ID_NONE then FFS_ECORRUPT else FFS_OK.

Definition img_validate_root (st : ffs_state) : ffs_rc :=
  match ffs_root_dir st with
  | Some r => match ffs_hash_find_inode st r with
              | (FFS_OK, _) => FFS_OK
              | _ => FFS_ECORRUPT
              end
  | None => FFS_ECORRUPT
  end.

(** Formatting an area as scratch: its id becomes [FFS_AREA_ID_NONE] and its
    cursor goes back to the end of the header. *)
Definition img_format_area (area_idx is_scratch : Z) (st : ffs_state)
  : ffs_rc * ffs_state :=
  let a := area_at st area_idx in
  (FFS_OK,
   area_set area_idx
     (mk_area (fa_offset a) (fa_length a) IMG_SIZEOF_DISK_AREA (fa_gc_seq a)
              (if is_scratch =? 0 then fa_id a else FFS_AREA_ID_NONE)) st).

(** The image environment; [pair] is the answer of the area subsystem to
    [ffs_area_find_corrupt_scratch] ([None]: no pair of candidates). *)
Definition img_env (img : list flash_area_image) (inodes blocks areas : nat)
           (pair : option (Z * Z)) : ffs_env :=
  mk_env IMG_SIZEOF_DISK_AREA IMG_SIZEOF_DISK_INODE IMG_SIZEOF_DISK_BLOCK
         IMG_INODE_MAGIC IMG_BLOCK_MAGIC
         (img_read_area img) (img_read_magic img) (img_inode_read_disk img)
         (img_block_read_disk img)
         (mk_disk_object FFS_OBJECT_TYPE_INVALID disk_inode_zero disk_block_zero 0 0)
         (mk_disk_area false 0 0)
         inodes blocks areas
         (fun _ => match pair with
                   | Some p => (FFS_OK, p)
                   | None => (FFS_ECORRUPT, (0, 0))
                   end)
         img_format_area img_validate_scratch img_validate_root
         (fun st => st).

Definition st_empty : ffs_state := mk_state [] [] FFS_AREA_ID_NONE None 0 0%nat 0%nat.

(** Scenario 1 of the spec: a data area with only its header (here with the
    root directory, id 0) and a scratch area. *)
Definition rec_root : flash_record :=
  RecInode (mk_disk_inode 0 0 FFS_ID_NONE FFS_INODE_F_DIRECTORY 0).

Definition hdr_data (id : Z) : option ffs_disk_area := Some (mk_disk_area true 0 id).
Definition hdr_scratch : option ffs_disk_area :=
  Some (mk_disk_area true 0 FFS_AREA_ID_NONE).

Definition descs2 : list ffs_area_desc :=
  [mk_area_desc 0 4096; mk_area_desc 4096 4096; mk_area_desc 0 0].

Definition img_two_areas (records : list flash_record) : list flash_area_image :=
  [mk_image 0 4096 (hdr_data 0) records; mk_image 4096 4096 hdr_scratch []].

(** ** Auxiliary definitions of the statements *)

Definition wit_env : ffs_env := img_env (img_two_areas [rec_root]) 4 4 4 None.
Definition wit_areas : list ffs_area := [mk_area 0 4096 24 0 0].

(** The id and the sequence number of the record a disk object carries, and
    the sequence number and the dummy flag of an object of the index. *)
Definition fdo_id (d : ffs_disk_object) : Z :=
  match fdo_type d with
  | FFS_OBJECT_TYPE_INODE => fdi_id (fdo_disk_inode d)
  | _ => fdb_id (fdo_disk_block d)
  end.

Definition fdo_seq (d : ffs_disk_object) : Z :=
  match fdo_type d with
  | FFS_OBJECT_TYPE_INODE => fdi_seq (fdo_disk_inode d)
  | _ => fdb_seq (fdo_disk_block d)
  end.

Definition fo_seq (o : ffs_object) : Z :=
  match o with ObjInode i => fi_seq i | ObjBlock b => fb_seq b end.

Definition fo_is_dummy (o : ffs_object) : bool :=
  match o with
  | ObjInode i => flag_set (fi_flags i) FFS_INODE_F_DUMMY
  | ObjBlock b => flag_set (fb_flags b) FFS_BLOCK_F_DUMMY
  end.

Definition set_fdb_inode_id (x : Z) (db : ffs_disk_block) : ffs_disk_block :=
  mk_disk_block (fdb_id db) (fdb_seq db) x (fdb_flags db) (fdb_data_len db).

(** An index that holds the directory 0 and, under id 5, an inode, and the
    disk object of an inode record with id 5 and sequence number 1. *)
Definition wit_inode (id seq flags : Z) : ffs_inode :=
  mk_inode id seq 0 24 flags 1 0 None [] [].

Definition wit_st_inode5 : ffs_state :=
  mk_state [ObjInode (wit_inode 5 1 0); ObjInode (wit_inode 0 0 FFS_INODE_F_DIRECTORY)]
           wit_areas FFS_AREA_ID_NONE (Some 0) 6 2%nat 4%nat.

Definition wit_disk_inode5 : ffs_disk_object :=
  mk_disk_object FFS_OBJECT_TYPE_INODE (mk_disk_inode 5 1 0 0 3)
                 disk_block_zero 0 44.

(** An index that holds the file 7 with the blocks 8 and 9, the block 9 being
    a dummy, and a block record with id 9 that names the inode 3. *)
Definition wit_st_blocks : ffs_state :=
  mk_state [ObjBlock (mk_block 9 4 1 64 FFS_BLOCK_F_DUMMY 10 (Some 7));
            ObjBlock (mk_block 8 1 0 84 0 10 (Some 7));
            ObjInode (mk_inode 7 1 0 44 0 1 1 (Some 0) [] [8; 9]);
            ObjInode (mk_inode 0 0 0 24 FFS_INODE_F_DIRECTORY 1 0 None [7] [])]
           wit_areas FFS_AREA_ID_NONE (Some 0) 10 2%nat 2%nat.

Definition wit_disk_block9 : ffs_disk_block := mk_disk_block 9 2 3 0 16.


(** A data area without records and a scratch area: no root directory. *)
Definition wit_env_noroot : ffs_env := img_env (img_two_areas []) 4 4 4 None.

(** Three descriptors, the first of which names flash that cannot be read. *)
Definition cex_descs_unreadable : list ffs_area_desc :=
  [mk_area_desc 8192 4096; mk_area_desc 0 4096; mk_area_desc 4096 4096;
   mk_area_desc 0 0].

(** Three areas, the first of which has no magic in its header. *)
Definition wit_img_nomagic : list flash_area_image :=
  [mk_image 8192 4096 (Some (mk_disk_area false 0 0)) [];
   mk_image 0 4096 (hdr_data 0) [rec_root];
   mk_image 4096 4096 hdr_scratch []].

Definition wit_env_nomagic : ffs_env := img_env wit_img_nomagic 4 4 4 None.

(** The records of an image declare payloads between 0 and [p]. *)
Fixpoint flash_record_payload_ok (p : Z) (r : flash_record) : bool :=
  match r with
  | RecInode di => (0 <=? fdi_filename_len di) && (fdi_filename_len di <=? p)
  | RecBlock db => (0 <=? fdb_data_len db) && (fdb_data_len db <=? p)
  | RecGarbage _ _ => true
  | RecRepeat _ r' => flash_record_payload_ok p r'
  end.

Definition img_payload_ok (p : Z) (img : list flash_area_image) : bool :=
  forallb (fun a => forallb (flash_record_payload_ok p) (img_records a)) img.

(** Scenario 4 of the spec: two inode records with the same id 5 and the same
    sequence number 1, after the root directory. *)
Definition rec_inode5 : flash_record := RecInode (mk_disk_inode 5 1 0 0 3).

Definition cex_env_duplicate : ffs_env :=
  img_env (img_two_areas [rec_root; rec_inode5; rec_inode5]) 4 4 4 None.

(** The final phases of [ffs_restore_full] in the order of the steps 4, 5 and
    6 of section 4.I of the spec: validate scratch and root, set the maximum
    block payload, sweep. *)
Definition ffs_restore_full_finish_spec_order (E : ffs_env) (st : ffs_state)
  : ffs_rc * ffs_state :=
  match ffs_misc_validate_scratch E st with
  | FFS_OK =>
      match ffs_misc_validate_root E st with
      | FFS_OK => (FFS_OK, ffs_restore_sweep (ffs_misc_set_max_block_data_size E st))
      | rc => (rc, ffs_misc_reset E st)
      end
  | rc => (rc, ffs_misc_reset E st)
  end.

(** A root directory record that carries the deleted flag. *)
Definition rec_root_deleted : flash_record :=
  RecInode (mk_disk_inode 0 1 FFS_ID_NONE
                          (Z.lor FFS_INODE_F_DIRECTORY FFS_INODE_F_DELETED) 0).

Definition cex_env_deleted_root : ffs_env :=
  img_env (img_two_areas [rec_root_deleted]) 4 4 4 None.

(** The state before the final phases for that image. *)
Definition cex_st_deleted_root : ffs_state :=
  mk_state [ObjInode (mk_inode 0 1 0 24 5 1 0 None [] [])]
           [mk_area 0 4096 44 0 0; mk_area 4096 4096 24 0 FFS_AREA_ID_NONE]
           1 (Some 0) 1 3%nat 4%nat.

(** An interrupted garbage collection: the areas 0 and 1 carry the same id,
    the area 2 holds the root and the file 7; the area 1, the bad one, holds
    a block 9 of the file 7 that the area 0 does not hold. *)
Definition cex_img_gc : list flash_area_image :=
  [mk_image 0 4096 (hdr_data 1) [RecBlock (mk_disk_block 8 1 7 0 10)];
   mk_image 4096 4096 (hdr_data 1) [RecBlock (mk_disk_block 9 1 7 0 10)];
   mk_image 8192 4096 (hdr_data 0) [rec_root; RecInode (mk_disk_inode 7 1 0 0 1)]].

Definition cex_descs_gc : list ffs_area_desc :=
  [mk_area_desc 0 4096; mk_area_desc 4096 4096; mk_area_desc 8192 4096;
   mk_area_desc 0 0].

Definition cex_env_gc : ffs_env := img_env cex_img_gc 4 4 4 (Some (0, 1)).

(** One iteration of the loop of the area scan, for a read that succeeds:
    the disk object and the state the next iteration starts from. *)
Definition scan_iteration (E : ffs_env) (area_idx : Z)
           (ds : ffs_disk_object * ffs_state)
  : option (ffs_disk_object * ffs_state) :=
  match ffs_restore_disk_object E (fst ds) (ffs_areas (snd ds)) area_idx
                                (fa_cur (area_at (snd ds) area_idx)) with
  | (FFS_OK, obj) =>
      let st1 := snd (ffs_restore_object obj (snd ds)) in
      Some (obj, area_set_cur area_idx
                   (u32 (fa_cur (area_at st1 area_idx)
                         + ffs_restore_disk_object_size E obj)) st1)
  | _ => None
  end.

Fixpoint scan_iterations (E : ffs_env) (area_idx : Z) (k : nat)
         (ds : ffs_disk_object * ffs_state)
  : option (ffs_disk_object * ffs_state) :=
  match k with
  | O => Some ds
  | S k' => match scan_iteration E area_idx ds with
            | Some ds' => scan_iterations E area_idx k' ds'
            | None => None
            end
  end.

(** An area of declared length 4294967295 that is full of block records:
    65536 times the record of the block 1 with 65516 bytes of data, 65536
    bytes each.  The fixed part of the last record ends inside the area, its
    data would end 25 bytes past 2^32. *)
Definition cex_img_full : list flash_area_image :=
  [mk_image 0 4294967295 (hdr_data 0)
            [RecRepeat 65536 (RecBlock (mk_disk_block 1 1 7 0 65516))];
   mk_image 4294967295 4096 hdr_scratch []].

Definition cex_env_full : ffs_env := img_env cex_img_full 4 4 4 None.

Definition cex_descs_full : list ffs_area_desc :=
  [mk_area_desc 0 4294967295; mk_area_desc 4294967295 4096; mk_area_desc 0 0].

(** The number of records of that area. *)
Definition cex_lap : nat := Z.to_nat 65536.

(** The state when the scan of that area starts. *)
Definition cex_st_full : ffs_state :=
  mk_state [] [mk_area 0 4294967295 24 0 0] FFS_AREA_ID_NONE None 0 4%nat 4%nat.

(** The disk object and the state after the first record of that area has
    been read and merged. *)
Definition cex_ds_first : ffs_disk_object * ffs_state :=
  (mk_disk_object FFS_OBJECT_TYPE_BLOCK disk_inode_zero
                  (mk_disk_block 1 1 7 0 65516) 0 24,
   mk_state [ObjInode (mk_inode 7 0 FFS_AREA_ID_NONE 0 FFS_INODE_F_DUMMY 1 0 None []
                                [1]);
             ObjBlock (mk_block 1 1 0 24 0 65516 (Some 7))]
            [mk_area 0 4294967295 65560 0 0] FFS_AREA_ID_NONE None 2 3%nat 3%nat).

(** An image whose last inode record, id 7, names a parent 50 that no record
    defines, restored with an inode pool of three: the root, the dummy owner
    7 of the block 1 and the inode 2 use the pool up, and the dummy parent 50
    cannot be allocated. *)
Definition cex_env_pool : ffs_env :=
  img_env (img_two_areas [rec_root; RecBlock (mk_disk_block 1 1 7 0 10);
                          RecInode (mk_disk_inode 2 1 0 0 1);
                          RecInode (mk_disk_inode 7 1 50 0 1)]) 3 4 4 None.

(** The type tag of an object of the index. *)
Definition fo_type (o : ffs_object) : ffs_object_type :=
  match o with
  | ObjInode _ => FFS_OBJECT_TYPE_INODE
  | ObjBlock _ => FFS_OBJECT_TYPE_BLOCK
  end.

(** The test of [ffs_delete_if_trash], as a predicate on objects. *)
Definition fo_is_trash (o : ffs_object) : bool :=
  match o with
  | ObjInode i => flag_set (fi_flags i) FFS_INODE_F_DELETED
                  || flag_set (fi_flags i) FFS_INODE_F_DUMMY
  | ObjBlock b => flag_set (fb_flags b) FFS_BLOCK_F_DELETED
                  || match fb_inode b with None => true | Some _ => false end
  end.

(** The ids of the index, in the order of the table. *)
Definition ffs_hash_ids (st : ffs_state) : list Z := map fo_id (ffs_hash st).

(** The ids [b] are the ids [a] with new ones in front, and are without
    repetition if [a] is. *)
Definition ids_grow (a b : list Z) : Prop :=
  exists l, b = l ++ a /\ (NoDup a -> NoDup b).

(** Two area tables that differ at most in the cursor of the area [idx]. *)
Definition areas_same_but_cur (idx : Z) (a b : list ffs_area) : Prop :=
  length b = length a
  /\ forall j : nat,
      let x := nth j a ffs_area_zero in
      let y := nth j b ffs_area_zero in
      fa_offset y = fa_offset x /\ fa_length y = fa_length x
      /\ fa_gc_seq y = fa_gc_seq x /\ fa_id y = fa_id x
      /\ (j <> Z.to_nat idx -> fa_cur y = fa_cur x).

(** The index of [st'] holds only objects that the index of [st] holds, up
    to their links: for every object of [st'] there is one in [st] with the
    same id and the same answer of the trash test; and the ids of [st'] are
    without repetition if those of [st] are. *)
Definition index_shrinks (st st' : ffs_state) : Prop :=
  (NoDup (ffs_hash_ids st) -> NoDup (ffs_hash_ids st'))
  /\ forall o', In o' (ffs_hash st') ->
                exists o, In o (ffs_hash st) /\ fo_id o = fo_id o'
                          /\ fo_is_trash o = fo_is_trash o'.

(** An index with trash whose sweep comes to no freed object: the block 9 is
    visited before its owner, the dummy 7, takes it along. *)
Definition wit_st_trash : ffs_state :=
  mk_state [ObjBlock (mk_block 9 1 0 44 0 10 (Some 7));
            ObjInode (mk_inode 7 0 FFS_AREA_ID_NONE 0 FFS_INODE_F_DUMMY 1 0 None []
                               [9]);
            ObjInode (mk_inode 0 0 0 24 FFS_INODE_F_DIRECTORY 1 0 None [] [])]
           [mk_area 0 4096 54 0 0] FFS_AREA_ID_NONE (Some 0) 10 2%nat 3%nat.

(** Scenario 6 of the spec before the sweep: the block 9 of an inode 7 that
    no record defines, the dummy 7, and the root. *)
Definition wit_st_orphan : ffs_state :=
  mk_state [ObjInode (mk_inode 7 0 FFS_AREA_ID_NONE 0 FFS_INODE_F_DUMMY 1 0 None []
                               [9]);
            ObjBlock (mk_block 9 1 0 44 0 10 (Some 7));
            ObjInode (mk_inode 0 0 0 24 FFS_INODE_F_DIRECTORY 1 0 None [] [])]
           wit_areas 1 (Some 0) 10 2%nat 3%nat.

(** The part of the state that describes the areas. *)
Definition ffs_area_state (st : ffs_state) : list ffs_area * Z :=
  (ffs_areas st, ffs_scratch_area_idx st).

(** At most one area of the table is a scratch area (has the id
    [FFS_AREA_ID_NONE]), and [ffs_scratch_area_idx] is its index, or
    [FFS_AREA_ID_NONE] if there is none. *)
Definition scratch_inv (st : ffs_state) : Prop :=
  (forall j : nat,
      (j < length (ffs_areas st))%nat ->
      fa_id (nth j (ffs_areas st) ffs_area_zero) = FFS_AREA_ID_NONE ->
      ffs_scratch_area_idx st = Z.of_nat j)
  /\ (ffs_scratch_area_idx st <> FFS_AREA_ID_NONE ->
      0 <= ffs_scratch_area_idx st < ffs_num_areas st
      /\ fa_id (area_at st (ffs_scratch_area_idx st)) = FFS_AREA_ID_NONE).









(** The state in which the scan of the image of scenario 4 reads the second
    of the two inode records with id 5 and sequence number 1, at offset 67:
    the root and the first of the two records are merged. *)
Definition wit_st_duplicate : ffs_state :=
  mk_state [ObjInode (mk_inode 5 1 0 44 0 1 3 (Some 0) [] []);
            ObjInode (mk_inode 0 0 0 24 FFS_INODE_F_DIRECTORY 1 0 None [5] [])]
           [mk_area 0 4096 67 0 0] FFS_AREA_ID_NONE (Some 0) 6 2%nat 4%nat.

(** * Properties *)

(** ** The object index *)

Lemma hash_find_id (h : list ffs_object) (id : Z) (o : ffs_object) :
  hash_find h id = Some o -> fo_id o = id.
Proof.
  induction h as [|x h IH]; simpl; [discriminate|].
  destruct (fo_id x =? id) eqn:Hx.
  - intros [= <-]. now apply Z.eqb_eq.
  - exact IH.
Qed.

Lemma hash_find_update_same (h : list ffs_object) (id : Z)
      (f : ffs_object -> ffs_object) :
  (forall o, fo_id o = id -> fo_id (f o) = id) ->
  hash_find (hash_update h id f) id = option_map f (hash_find h id).
Proof.
  intros Hf. induction h as [|x h IH]; simpl; [reflexivity|].
  destruct (fo_id x =? id) eqn:Hx; simpl.
  - apply Z.eqb_eq in Hx. rewrite (Hf x Hx), Z.eqb_refl. reflexivity.
  - rewrite Hx. exact IH.
Qed.

Lemma hash_find_update_other (h : list ffs_object) (id id' : Z)
      (f : ffs_object -> ffs_object) :
  (forall o, fo_id o = id -> fo_id (f o) = id) -> id' <> id ->
  hash_find (hash_update h id f) id' = hash_find h id'.
Proof.
  intros Hf Hne. induction h as [|x h IH]; simpl; [reflexivity|].
  destruct (fo_id x =? id) eqn:Hx; simpl.
  - apply Z.eqb_eq in Hx. rewrite (Hf x Hx).
    replace (id =? id') with false by (symmetry; apply Z.eqb_neq; congruence).
    rewrite Hx. replace (id =? id') with false
      by (symmetry; apply Z.eqb_neq; congruence).
    reflexivity.
  - destruct (fo_id x =? id'); [reflexivity | exact IH].
Qed.

(** ** The disk-object reader *)

Section Reader.

Variable E : ffs_env.

Lemma ffs_restore_disk_object_ok_inv (old obj : ffs_disk_object)
      (areas : list ffs_area) (area_idx area_offset : Z) :
  ffs_restore_disk_object E old areas area_idx area_offset = (FFS_OK, obj) ->
  (exists m, ffs_flash_read_magic E areas area_idx area_offset = (FFS_OK, m)) /\
  ((exists di,
       ffs_inode_read_disk E areas area_idx area_offset = (FFS_OK, di) /\
       obj = mk_disk_object FFS_OBJECT_TYPE_INODE di (fdo_disk_block old)
                            area_idx area_offset) \/
   (exists db,
       ffs_block_read_disk E areas area_idx area_offset = (FFS_OK, db) /\
       obj = mk_disk_object FFS_OBJECT_TYPE_BLOCK (fdo_disk_inode old) db
                            area_idx area_offset)).
Proof.
  unfold ffs_restore_disk_object.
  destruct (ffs_flash_read_magic E areas area_idx area_offset) as [rc m].
  destruct rc; try discriminate.
  destruct (m =? FFS_INODE_MAGIC E).
  - destruct (ffs_inode_read_disk E areas area_idx area_offset) as [rc0 di].
    destruct rc0; try discriminate. simpl. intros [= <-].
    split; [now exists m | left; now exists di].
  - destruct (m =? FFS_BLOCK_MAGIC E).
    + destruct (ffs_block_read_disk E areas area_idx area_offset) as [rc0 db].
      destruct rc0; try discriminate. simpl. intros [= <-].
      split; [now exists m | right; now exists db].
    + destruct (m =? 4294967295); discriminate.
Qed.

(** C10.  Every disk object that [ffs_restore_disk_object] returns with
    success carries the inode tag or the block tag; so [ffs_restore_object]
    dispatches it to [ffs_restore_inode] or [ffs_restore_block], and
    [ffs_restore_disk_object_size] is the size of the inode or the block
    record: the default branches (the [FFS_EINVAL] result, the size 1) are
    not taken for it. *)
Theorem ffs_restore_disk_object_type (old obj : ffs_disk_object)
        (areas : list ffs_area) (area_idx area_offset : Z) :
  ffs_restore_disk_object E old areas area_idx area_offset = (FFS_OK, obj) ->
  (fdo_type obj = FFS_OBJECT_TYPE_INODE /\
   (forall st, ffs_restore_object obj st =
               ffs_restore_inode (fdo_disk_inode obj) (fdo_area_idx obj)
                                 (fdo_offset obj) st) /\
   ffs_restore_disk_object_size E obj =
   sizeof_disk_inode E + fdi_filename_len (fdo_disk_inode obj))
  \/
  (fdo_type obj = FFS_OBJECT_TYPE_BLOCK /\
   (forall st, ffs_restore_object obj st =
               ffs_restore_block (fdo_disk_block obj) (fdo_area_idx obj)
                                 (fdo_offset obj) st) /\
   ffs_restore_disk_object_size E obj =
   sizeof_disk_block E + fdb_data_len (fdo_disk_block obj)).
Proof.
  intros H. apply ffs_restore_disk_object_ok_inv in H.
  destruct H as [_ [[di [_ ->]] | [db [_ ->]]]].
  - left. repeat split.
  - right. repeat split.
Qed.

End Reader.

Lemma ffs_restore_disk_object_type_witness :
  ffs_restore_disk_object wit_env (uninit_disk_object wit_env) wit_areas 0 24
  = (FFS_OK, mk_disk_object FFS_OBJECT_TYPE_INODE
               (mk_disk_inode 0 0 FFS_ID_NONE FFS_INODE_F_DIRECTORY 0)
               disk_block_zero 0 24)
  /\ ffs_restore_disk_object_size wit_env
       (mk_disk_object FFS_OBJECT_TYPE_INODE
          (mk_disk_inode 0 0 FFS_ID_NONE FFS_INODE_F_DIRECTORY 0)
          disk_block_zero 0 24) = 20.
Proof.
  split; [reflexivity|].
  destruct (ffs_restore_disk_object_type wit_env (uninit_disk_object wit_env)
              (mk_disk_object FFS_OBJECT_TYPE_INODE
                 (mk_disk_inode 0 0 FFS_ID_NONE FFS_INODE_F_DIRECTORY 0)
                 disk_block_zero 0 24) wit_areas 0 24 eq_refl)
    as [[_ [_ H]] | [H _]].
  - exact H.
  - discriminate H.
Defined.

(** ** Merging a record *)

(** C5.  When the index holds a non-dummy object under the id of an inode or
    block record and with the sequence number of the record, the merge of the
    record returns [FFS_ECORRUPT] and leaves the state, so also the existing
    object, as it was. *)
Theorem ffs_restore_object_duplicate_seq (d : ffs_disk_object)
        (st : ffs_state) (o : ffs_object) :
  fdo_type d <> FFS_OBJECT_TYPE_INVALID ->
  hash_find (ffs_hash st) (fdo_id d) = Some o ->
  fo_is_dummy o = false ->
  fo_seq o = fdo_seq d ->
  ffs_restore_object d st = (FFS_ECORRUPT, st)
  /\ hash_find (ffs_hash (snd (ffs_restore_object d st))) (fdo_id d) = Some o.
Proof.
  intros Hty Hfind Hdummy Hseq.
  assert (Hrc : ffs_restore_object d st = (FFS_ECORRUPT, st)).
  { unfold ffs_restore_object, fdo_id, fdo_seq in *.
    destruct (fdo_type d); [| |congruence].
    - unfold ffs_restore_inode, ffs_hash_find_inode. rewrite Hfind.
      destruct o as [i|b]; [|reflexivity].
      unfold ffs_restore_inode_gets_replaced. simpl in Hdummy, Hseq.
      rewrite Hdummy, Hseq, Z.ltb_irrefl, Z.eqb_refl. reflexivity.
    - unfold ffs_restore_block, ffs_hash_find_block. rewrite Hfind.
      destruct o as [i|b]; [reflexivity|].
      unfold ffs_restore_block_gets_replaced. simpl in Hdummy, Hseq.
      rewrite Hdummy, Hseq, Z.ltb_irrefl, Z.eqb_refl. reflexivity. }
  split; [exact Hrc | rewrite Hrc; exact Hfind].
Qed.

Lemma ffs_restore_object_duplicate_seq_witness :
  ffs_restore_object wit_disk_inode5 wit_st_inode5 = (FFS_ECORRUPT, wit_st_inode5)
  /\ hash_find (ffs_hash (snd (ffs_restore_object wit_disk_inode5 wit_st_inode5)))
               (fdo_id wit_disk_inode5) = Some (ObjInode (wit_inode 5 1 0)).
Proof.
  apply (ffs_restore_object_duplicate_seq wit_disk_inode5 wit_st_inode5
           (ObjInode (wit_inode 5 1 0))).
  - discriminate.
  - reflexivity.
  - reflexivity.
  - reflexivity.
Defined.

Lemma ffs_next_id_update_hash (id : Z) (st : ffs_state) :
  ffs_hash (ffs_next_id_update id st) = ffs_hash st.
Proof. unfold ffs_next_id_update. now destruct (ffs_next_id st <=? id). Qed.

Lemma on_block_from_disk_id (db : ffs_disk_block) (area_idx area_offset : Z)
      (o : ffs_object) :
  fo_id o = fdb_id db ->
  fo_id (on_block (ffs_block_from_disk db area_idx area_offset) o) = fdb_id db.
Proof. destruct o; simpl; auto. Qed.

(** C9.  When [ffs_restore_block] finds a block under the id of the record
    and replaces it (the block is a dummy or has a lower sequence number), the
    merge succeeds, the block keeps its owning-inode pointer, every other
    object of the index is unchanged, in particular every inode with its
    block list, and the result is the same for every value of the
    [fdb_inode_id] field of the record. *)
Theorem ffs_restore_block_replace_keeps_owner (db : ffs_disk_block)
        (area_idx area_offset : Z) (st : ffs_state) (old : ffs_block) :
  hash_find (ffs_hash st) (fdb_id db) = Some (ObjBlock old) ->
  flag_set (fb_flags old) FFS_BLOCK_F_DUMMY = true \/ fb_seq old < fdb_seq db ->
  let r := ffs_restore_block db area_idx area_offset st in
  fst r = FFS_OK
  /\ (exists b, hash_find (ffs_hash (snd r)) (fdb_id db) = Some (ObjBlock b)
                /\ fb_inode b = fb_inode old /\ fb_seq b = fdb_seq db)
  /\ (forall id, id <> fdb_id db ->
                 hash_find (ffs_hash (snd r)) id = hash_find (ffs_hash st) id)
  /\ (forall id i, hash_find (ffs_hash st) id = Some (ObjInode i) ->
                   hash_find (ffs_hash (snd r)) id = Some (ObjInode i))
  /\ (forall x, ffs_restore_block (set_fdb_inode_id x db) area_idx area_offset st = r).
Proof.
  intros Hfind Hrep.
  assert (Hid : fb_id old = fdb_id db) by exact (hash_find_id _ _ _ Hfind).
  assert (Hg : forall x, ffs_restore_block_gets_replaced old (set_fdb_inode_id x db)
                         = inl true).
  { intros x. unfold ffs_restore_block_gets_replaced. simpl.
    destruct (flag_set (fb_flags old) FFS_BLOCK_F_DUMMY) eqn:Hd; [reflexivity|].
    destruct Hrep as [Hrep|Hrep]; [discriminate|].
    apply Z.ltb_lt in Hrep. now rewrite Hrep. }
  assert (Hg0 : ffs_restore_block_gets_replaced old db = inl true).
  { specialize (Hg (fdb_inode_id db)). now destruct db. }
  assert (Hr : ffs_restore_block db area_idx area_offset st =
               (FFS_OK, ffs_next_id_update (fb_id old)
                          (block_update (fb_id old)
                             (ffs_block_from_disk db area_idx area_offset) st))).
  { unfold ffs_restore_block, ffs_hash_find_block. rewrite Hfind, Hg0. reflexivity. }
  cbv zeta. rewrite Hr. simpl fst. simpl snd.
  rewrite ffs_next_id_update_hash. unfold block_update. simpl ffs_hash.
  rewrite Hid. repeat split.
  - exists (ffs_block_from_disk db area_idx area_offset old).
    rewrite hash_find_update_same
      by (intros o; apply on_block_from_disk_id).
    rewrite Hfind. simpl. auto.
  - intros id Hne. apply hash_find_update_other; [|exact Hne].
    intros o; apply on_block_from_disk_id.
  - intros id i Hi. rewrite <- Hi. apply hash_find_update_other.
    + intros o; apply on_block_from_disk_id.
    + intros ->. congruence.
  - intros x. unfold ffs_restore_block, ffs_hash_find_block. simpl fdb_id.
    rewrite Hfind, Hg, Hid. reflexivity.
Qed.

Lemma ffs_restore_block_replace_keeps_owner_witness :
  let r := ffs_restore_block wit_disk_block9 1 128 wit_st_blocks in
  fst r = FFS_OK
  /\ (exists b, hash_find (ffs_hash (snd r)) 9 = Some (ObjBlock b)
                /\ fb_inode b = Some 7 /\ fb_seq b = 2)
  /\ (forall id, id <> 9 ->
                 hash_find (ffs_hash (snd r)) id = hash_find (ffs_hash wit_st_blocks) id)
  /\ (forall id i, hash_find (ffs_hash wit_st_blocks) id = Some (ObjInode i) ->
                   hash_find (ffs_hash (snd r)) id = Some (ObjInode i))
  /\ (forall x, ffs_restore_block (set_fdb_inode_id x wit_disk_block9) 1 128
                                  wit_st_blocks = r).
Proof.
  apply (ffs_restore_block_replace_keeps_owner wit_disk_block9 1 128 wit_st_blocks
           (mk_block 9 4 1 64 FFS_BLOCK_F_DUMMY 10 (Some 7))).
  - reflexivity.
  - left. reflexivity.
Defined.

(** ** [ffs_next_id] *)

Lemma inode_update_next_id (id : Z) (f : ffs_inode -> ffs_inode) (st : ffs_state) :
  ffs_next_id (inode_update id f st) = ffs_next_id st.
Proof. reflexivity. Qed.

Lemma ffs_inode_remove_child_next_id (c : Z) (st : ffs_state) :
  ffs_next_id (ffs_inode_remove_child c st) = ffs_next_id st.
Proof.
  unfold ffs_inode_remove_child.
  destruct (hash_find (ffs_hash st) c) as [[i|b]|]; try reflexivity.
  now destruct (fi_parent i).
Qed.

Lemma ffs_restore_dummy_inode_next_id (id : Z) (is_dir : bool) (st : ffs_state) :
  ffs_next_id (snd (ffs_restore_dummy_inode id is_dir st)) = ffs_next_id st.
Proof.
  unfold ffs_restore_dummy_inode, ffs_inode_alloc.
  now destruct (ffs_inode_pool st).
Qed.

Lemma ffs_next_id_update_value (id : Z) (st : ffs_state) :
  0 <= id < UINT32_MAX ->
  ffs_next_id (ffs_next_id_update id st) = Z.max (ffs_next_id st) (id + 1).
Proof.
  intros Hid. unfold ffs_next_id_update, UINT32_MAX in *.
  destruct (ffs_next_id st <=? id) eqn:Hle.
  - apply Z.leb_le in Hle. simpl. unfold u32.
    rewrite Z.mod_small by lia. lia.
  - apply Z.leb_gt in Hle. lia.
Qed.

Lemma ffs_restore_inode_finish_ok (di : ffs_disk_inode) (inode : Z)
      (new_inode do_add : bool) (st st' : ffs_state) :
  ffs_restore_inode_finish di inode new_inode do_add st = (FFS_OK, st') ->
  exists st3, ffs_next_id st3 = ffs_next_id st /\ st' = ffs_next_id_update inode st3.
Proof.
  unfold ffs_restore_inode_finish, ffs_restore_inode_err.
  destruct do_add.
  2:{ intros [= <-]. now exists st. }
  destruct (negb (fdi_parent_id di =? FFS_ID_NONE)).
  2:{ intros [= <-]. eexists; split; [|reflexivity]. now destruct (ffs_inode_is_root di). }
  pose proof (ffs_restore_dummy_inode_next_id (fdi_parent_id di) true st) as Hd.
  destruct (ffs_hash_find_inode st (fdi_parent_id di)) as [rc parent].
  destruct (ffs_restore_dummy_inode (fdi_parent_id di) true st) as [[rcd pd] std].
  simpl in Hd.
  destruct rc, parent as [p|]; simpl;
    try (intros [= <-]; eexists; split; [|reflexivity];
         destruct (ffs_inode_is_root di); simpl; assumption || reflexivity);
    try discriminate.
  all: destruct rcd, pd as [p0|]; simpl; try discriminate;
    intros [= <-]; eexists; (split; [|reflexivity]);
    destruct (ffs_inode_is_root di); simpl; exact Hd.
Qed.

Lemma ffs_restore_inode_ok (di : ffs_disk_inode) (area_idx area_offset : Z)
      (st st' : ffs_state) :
  ffs_restore_inode di area_idx area_offset st = (FFS_OK, st') ->
  exists st3, ffs_next_id st3 = ffs_next_id st
              /\ st' = ffs_next_id_update (fdi_id di) st3.
Proof.
  unfold ffs_restore_inode, ffs_hash_find_inode, ffs_restore_inode_err.
  destruct (hash_find (ffs_hash st) (fdi_id di)) as [[i|b]|] eqn:Hfind;
    try discriminate.
  - pose proof (hash_find_id _ _ _ Hfind) as Hid. simpl in Hid. rewrite Hid.
    assert (Hg : (exists do_add, ffs_restore_inode_gets_replaced i di = inl do_add)
                 \/ ffs_restore_inode_gets_replaced i di = inr FFS_ECORRUPT).
    { unfold ffs_restore_inode_gets_replaced.
      destruct (flag_set (fi_flags i) FFS_INODE_F_DUMMY); [left; now eexists|].
      destruct (fi_seq i <? fdi_seq di); [left; now eexists|].
      destruct (fi_seq i =? fdi_seq di); [now right | left; now eexists]. }
    destruct Hg as [[do_add ->] | ->]; [|discriminate].
    intros H. apply ffs_restore_inode_finish_ok in H.
    destruct H as [st3 [Hn ->]]. exists st3. split; [|reflexivity].
    rewrite Hn. destruct do_add; [|reflexivity].
    rewrite inode_update_next_id.
    destruct (fi_parent i); [apply ffs_inode_remove_child_next_id | reflexivity].
  - unfold ffs_inode_alloc. destruct (ffs_inode_pool st); [discriminate|].
    simpl fi_id. intros H. apply ffs_restore_inode_finish_ok in H.
    destruct H as [st3 [Hn ->]]. exists st3. split; [exact Hn | reflexivity].
Qed.


Lemma ffs_restore_block_ok (db : ffs_disk_block) (area_idx area_offset : Z)
      (st st' : ffs_state) :
  ffs_restore_block db area_idx area_offset st = (FFS_OK, st') ->
  exists st3, ffs_next_id st3 = ffs_next_id st
              /\ st' = ffs_next_id_update (fdb_id db) st3.
Proof.
  unfold ffs_restore_block, ffs_hash_find_block, ffs_restore_block_err.
  destruct (hash_find (ffs_hash st) (fdb_id db)) as [[i|b]|] eqn:Hfind;
    try discriminate.
  - pose proof (hash_find_id _ _ _ Hfind) as Hid. simpl in Hid. rewrite Hid.
    unfold ffs_restore_block_gets_replaced.
    destruct (flag_set (fb_flags b) FFS_BLOCK_F_DUMMY);
      [|destruct (fb_seq b <? fdb_seq db);
        [|destruct (fb_seq b =? fdb_seq db); [discriminate|]]];
      intros [= <-]; eexists; (split; [|reflexivity]); reflexivity.
  - unfold ffs_block_alloc. destruct (ffs_block_pool st); [discriminate|].
    simpl fb_id.
    match goal with
    | |- context [ffs_hash_find_inode ?s ?x] =>
        pose proof (ffs_restore_dummy_inode_next_id x false s) as Hd;
        destruct (ffs_hash_find_inode s x) as [rc found];
        destruct (ffs_restore_dummy_inode x false s) as [[rcd pd] std]
    end.
    simpl in Hd.
    destruct rc, found as [f|]; simpl; try discriminate;
      try (intros [= <-]; eexists; (split; [|reflexivity]); reflexivity).
    all: destruct rcd, pd as [p0|]; simpl; try discriminate;
      intros [= <-]; eexists; (split; [|reflexivity]); exact Hd.
Qed.



(** The invariant of the spec that [ffs_next_id] is above every id of the
    index is lost with a merge error that the scan drops (see C1): the merge
    of the inode record 7 replaces the dummy 7, then fails with [FFS_ENOMEM]
    before it updates [ffs_next_id]; [ffs_restore_full] returns 0 with the
    inode 7 in the index and [ffs_next_id] 3.  [ffs_index_tainted] records
    the failed merge. *)
Lemma ffs_restore_full_next_id_below_object :
  exists st i,
    ffs_restore_full cex_env_pool 10 descs2 st_empty = Some (FFS_OK, st)
    /\ hash_find (ffs_hash st) 7 = Some (ObjInode i)
    /\ fo_is_dummy (ObjInode i) = false
    /\ ffs_next_id st = 3
    /\ ffs_index_tainted st = true.
Proof.
  eexists. eexists. split; [vm_compute; reflexivity|].
  split; [reflexivity|]. split; [reflexivity|]. split; reflexivity.
Qed.

(** ** The orchestrator *)

Section RestoreFull.

Variable E : ffs_env.

Lemma ffs_restore_full_finish_err (st : ffs_state) (rc : ffs_rc) (st' : ffs_state) :
  ffs_restore_full_finish E st = (rc, st') -> rc <> FFS_OK ->
  exists s, st' = ffs_misc_reset E s.
Proof.
  unfold ffs_restore_full_finish. intros H Hrc.
  destruct (ffs_misc_validate_scratch E st);
    try (injection H as <- <-; eexists; reflexivity).
  destruct (ffs_misc_validate_root E (ffs_restore_sweep st));
    injection H as <- <-; try congruence; eexists; reflexivity.
Qed.

(** C3.  Whenever [ffs_restore_full] returns a nonzero code, the state it
    leaves is the one [ffs_misc_reset] produces: the index and the area table
    are empty, there is no scratch area and no root, and [ffs_next_id] is back
    to its initial value. *)
Theorem ffs_restore_full_error_resets (fuel : nat) (area_descs : list ffs_area_desc)
        (st st' : ffs_state) (rc : ffs_rc) :
  ffs_restore_full E fuel area_descs st = Some (rc, st') ->
  rc <> FFS_OK ->
  (exists s, st' = ffs_misc_reset E s)
  /\ ffs_hash st' = [] /\ ffs_areas st' = []
  /\ ffs_scratch_area_idx st' = FFS_AREA_ID_NONE
  /\ ffs_root_dir st' = None /\ ffs_next_id st' = 0.
Proof.
  intros H Hrc.
  assert (Hex : exists s, st' = ffs_misc_reset E s).
  { unfold ffs_restore_full in H.
    destruct (ffs_restore_full_areas E fuel area_descs (uninit_disk_area E)
                (ffs_misc_reset E st)) as [[rc1 st1]|]; [|discriminate].
    destruct rc1; try (injection H as <- <-; eexists; reflexivity).
    destruct (if ffs_scratch_area_idx st1 =? FFS_AREA_ID_NONE
              then ffs_restore_corrupt_flash E fuel st1
              else Some (FFS_OK, st1)) as [[rc2 st2]|]; [|discriminate].
    destruct rc2; try (injection H as <- <-; eexists; reflexivity).
    injection H as H. eapply ffs_restore_full_finish_err; eauto. }
  split; [exact Hex|]. destruct Hex as [s ->]. repeat split.
Qed.

End RestoreFull.

Lemma ffs_restore_full_error_resets_witness :
  ffs_restore_full wit_env_noroot 10 descs2 st_empty
  = Some (FFS_ECORRUPT, ffs_misc_reset wit_env_noroot st_empty)
  /\ ffs_hash (ffs_misc_reset wit_env_noroot st_empty) = [].
Proof.
  split; [reflexivity|].
  apply (ffs_restore_full_error_resets wit_env_noroot 10 descs2 st_empty
           (ffs_misc_reset wit_env_noroot st_empty) FFS_ECORRUPT).
  - reflexivity.
  - discriminate.
Defined.

Section AreaEnumeration.

Variable E : ffs_env.

(** C7 (as amended).  In the enumeration of the areas, a header without the
    magic ([FFS_ECORRUPT]) makes the loop skip the area and go on with the
    remaining descriptors on the same state, whereas a header that cannot be
    read ([FFS_EFLASH_ERROR]) ends the loop at once with that code, whatever
    the remaining descriptors are, and [ffs_restore_full] returns it. *)
Theorem ffs_restore_full_areas_bad_header (fuel : nat) (desc : ffs_area_desc)
        (rest : list ffs_area_desc) (disk_area : ffs_disk_area) (st : ffs_state) :
  fad_length desc <> 0 ->
  (forall da, flash_read_area E (fad_offset desc) = Some da ->
              fda_magic_is_set da = false ->
              ffs_restore_full_areas E fuel (desc :: rest) disk_area st
              = ffs_restore_full_areas E fuel rest da st)
  /\ (flash_read_area E (fad_offset desc) = None ->
      ffs_restore_full_areas E fuel (desc :: rest) disk_area st
      = Some (FFS_EFLASH_ERROR, st)
      /\ ffs_restore_full E fuel (desc :: rest) st
         = Some (FFS_EFLASH_ERROR, ffs_misc_reset E st)).
Proof.
  intros Hlen. apply Z.eqb_neq in Hlen. split.
  - intros da Hread Hmagic. simpl. rewrite Hlen.
    unfold ffs_restore_detect_one_area. rewrite Hread, Hmagic. reflexivity.
  - intros Hread.
    assert (Hl : forall d s, ffs_restore_full_areas E fuel (desc :: rest) d s
                             = Some (FFS_EFLASH_ERROR, s)).
    { intros d s. simpl. rewrite Hlen.
      unfold ffs_restore_detect_one_area. rewrite Hread. reflexivity. }
    split; [apply Hl|]. unfold ffs_restore_full. rewrite Hl. reflexivity.
Qed.

End AreaEnumeration.

Lemma ffs_restore_full_areas_bad_header_witness :
  ffs_restore_full_areas wit_env_nomagic 10 cex_descs_unreadable
                         (uninit_disk_area wit_env_nomagic) st_empty
  = ffs_restore_full_areas wit_env_nomagic 10 descs2
                           (mk_disk_area false 0 0) st_empty
  /\ exists st, ffs_restore_full wit_env_nomagic 10 cex_descs_unreadable st_empty
                = Some (FFS_OK, st).
Proof.
  split.
  - apply (ffs_restore_full_areas_bad_header wit_env_nomagic 10
             (mk_area_desc 8192 4096) descs2 (uninit_disk_area wit_env_nomagic)
             st_empty); [discriminate | reflexivity | reflexivity].
  - eexists. vm_compute. reflexivity.
Defined.

(** C7 fails as stated: with a first descriptor whose header cannot be read,
    [ffs_restore_full] does not go on with the remaining descriptors (which
    on their own restore with success) but returns [FFS_EFLASH_ERROR]. *)
Lemma ffs_restore_full_unreadable_header_aborts :
  ffs_restore_full wit_env 10 cex_descs_unreadable st_empty
  = Some (FFS_EFLASH_ERROR, ffs_misc_reset wit_env st_empty)
  /\ (exists st, ffs_restore_full wit_env 10 descs2 st_empty = Some (FFS_OK, st))
  /\ ffs_restore_detect_one_area wit_env (uninit_disk_area wit_env) 8192
     = (FFS_EFLASH_ERROR, uninit_disk_area wit_env).
Proof.
  split; [reflexivity|]. split; [|reflexivity].
  eexists. vm_compute. reflexivity.
Qed.

(** ** The area table is not touched by a merge *)

Lemma ffs_inode_remove_child_areas (c : Z) (st : ffs_state) :
  ffs_areas (ffs_inode_remove_child c st) = ffs_areas st.
Proof.
  unfold ffs_inode_remove_child.
  destruct (hash_find (ffs_hash st) c) as [[i|b]|]; try reflexivity.
  now destruct (fi_parent i).
Qed.

Lemma ffs_restore_dummy_inode_areas (id : Z) (is_dir : bool) (st : ffs_state) :
  ffs_areas (snd (ffs_restore_dummy_inode id is_dir st)) = ffs_areas st.
Proof.
  unfold ffs_restore_dummy_inode, ffs_inode_alloc.
  now destruct (ffs_inode_pool st).
Qed.

Lemma ffs_next_id_update_areas (id : Z) (st : ffs_state) :
  ffs_areas (ffs_next_id_update id st) = ffs_areas st.
Proof. unfold ffs_next_id_update. now destruct (ffs_next_id st <=? id). Qed.

Lemma ffs_restore_inode_finish_areas (di : ffs_disk_inode) (inode : Z)
      (new_inode do_add : bool) (st : ffs_state) :
  ffs_areas (snd (ffs_restore_inode_finish di inode new_inode do_add st))
  = ffs_areas st.
Proof.
  unfold ffs_restore_inode_finish, ffs_restore_inode_err.
  destruct do_add; [|simpl; apply ffs_next_id_update_areas].
  destruct (negb (fdi_parent_id di =? FFS_ID_NONE)).
  2:{ simpl. rewrite ffs_next_id_update_areas.
      now destruct (ffs_inode_is_root di). }
  pose proof (ffs_restore_dummy_inode_areas (fdi_parent_id di) true st) as Hd.
  destruct (ffs_hash_find_inode st (fdi_parent_id di)) as [rc parent].
  destruct (ffs_restore_dummy_inode (fdi_parent_id di) true st) as [[rcd pd] std].
  simpl in Hd.
  destruct rc, parent as [p|]; simpl;
    try rewrite ffs_next_id_update_areas;
    try (destruct (ffs_inode_is_root di); reflexivity);
    try (destruct new_inode; reflexivity).
  all: destruct rcd, pd as [p0|]; simpl;
    try rewrite ffs_next_id_update_areas;
    try (destruct (ffs_inode_is_root di); simpl; exact Hd);
    try (destruct new_inode; simpl; exact Hd).
Qed.

Lemma ffs_restore_inode_areas (di : ffs_disk_inode) (area_idx area_offset : Z)
      (st : ffs_state) :
  ffs_areas (snd (ffs_restore_inode di area_idx area_offset st)) = ffs_areas st.
Proof.
  unfold ffs_restore_inode, ffs_hash_find_inode, ffs_restore_inode_err.
  destruct (hash_find (ffs_hash st) (fdi_id di)) as [[i|b]|]; try reflexivity.
  - destruct (ffs_restore_inode_gets_replaced i di) as [do_add|rc];
      [|reflexivity].
    rewrite ffs_restore_inode_finish_areas.
    destruct do_add; [|reflexivity]. simpl.
    destruct (fi_parent i); [apply ffs_inode_remove_child_areas | reflexivity].
  - unfold ffs_inode_alloc. destruct (ffs_inode_pool st); [reflexivity|].
    now rewrite ffs_restore_inode_finish_areas.
Qed.

Lemma ffs_restore_block_areas (db : ffs_disk_block) (area_idx area_offset : Z)
      (st : ffs_state) :
  ffs_areas (snd (ffs_restore_block db area_idx area_offset st)) = ffs_areas st.
Proof.
  unfold ffs_restore_block, ffs_hash_find_block, ffs_restore_block_err.
  destruct (hash_find (ffs_hash st) (fdb_id db)) as [[i|b]|]; try reflexivity.
  - destruct (ffs_restore_block_gets_replaced b db) as [do_replace|rc];
      [|reflexivity].
    simpl. rewrite ffs_next_id_update_areas. now destruct do_replace.
  - unfold ffs_block_alloc. destruct (ffs_block_pool st); [reflexivity|].
    simpl fb_id.
    match goal with
    | |- context [ffs_hash_find_inode ?s ?x] =>
        pose proof (ffs_restore_dummy_inode_areas x false s) as Hd;
        destruct (ffs_hash_find_inode s x) as [rc found];
        destruct (ffs_restore_dummy_inode x false s) as [[rcd pd] std]
    end.
    simpl in Hd.
    destruct rc, found as [f|]; simpl;
      try rewrite ffs_next_id_update_areas; try reflexivity.
    all: destruct rcd, pd as [p0|]; simpl;
      try rewrite ffs_next_id_update_areas; exact Hd.
Qed.

Lemma ffs_restore_object_areas (d : ffs_disk_object) (st : ffs_state) :
  ffs_areas (snd (ffs_restore_object d st)) = ffs_areas st.
Proof.
  unfold ffs_restore_object. destruct (fdo_type d).
  - apply ffs_restore_inode_areas.
  - apply ffs_restore_block_areas.
  - reflexivity.
Qed.

(** ** The history variable of the merges *)

Lemma ffs_next_id_update_tainted (id : Z) (st : ffs_state) :
  ffs_index_tainted (ffs_next_id_update id st) = ffs_index_tainted st.
Proof. unfold ffs_next_id_update. now destruct (ffs_next_id st <=? id). Qed.

Lemma ffs_inode_remove_child_tainted (c : Z) (st : ffs_state) :
  ffs_index_tainted (ffs_inode_remove_child c st) = ffs_index_tainted st.
Proof.
  unfold ffs_inode_remove_child.
  destruct (hash_find (ffs_hash st) c) as [[i|b]|]; try reflexivity.
  now destruct (fi_parent i).
Qed.

Lemma ffs_restore_dummy_inode_tainted (id : Z) (is_dir : bool) (st : ffs_state) :
  ffs_index_tainted (snd (ffs_restore_dummy_inode id is_dir st))
  = ffs_index_tainted st.
Proof.
  unfold ffs_restore_dummy_inode, ffs_inode_alloc.
  now destruct (ffs_inode_pool st).
Qed.

Lemma ffs_restore_dummy_inode_err (id : Z) (is_dir : bool) (st : ffs_state) :
  fst (fst (ffs_restore_dummy_inode id is_dir st)) <> FFS_OK ->
  snd (ffs_restore_dummy_inode id is_dir st) = st.
Proof.
  unfold ffs_restore_dummy_inode, ffs_inode_alloc.
  destruct (ffs_inode_pool st); simpl; congruence.
Qed.

(** A merge that returns 0 leaves [ffs_index_tainted] as it is; a merge that
    fails has set it or has not changed the state. *)
Lemma ffs_restore_inode_finish_tainted (di : ffs_disk_inode) (inode : Z)
      (new_inode do_add : bool) (st : ffs_state) :
  let r := ffs_restore_inode_finish di inode new_inode do_add st in
  (fst r = FFS_OK -> ffs_index_tainted (snd r) = ffs_index_tainted st)
  /\ (fst r <> FFS_OK -> ffs_index_tainted (snd r) = true).
Proof.
  cbv zeta. unfold ffs_restore_inode_finish, ffs_restore_inode_err.
  destruct do_add;
    [|simpl; rewrite ffs_next_id_update_tainted; split; congruence].
  destruct (negb (fdi_parent_id di =? FFS_ID_NONE)).
  2:{ simpl. rewrite ffs_next_id_update_tainted.
      split; [|congruence]. now destruct (ffs_inode_is_root di). }
  pose proof (ffs_restore_dummy_inode_tainted (fdi_parent_id di) true st) as Hd.
  destruct (ffs_hash_find_inode st (fdi_parent_id di)) as [rc parent].
  destruct (ffs_restore_dummy_inode (fdi_parent_id di) true st) as [[rcd pd] std].
  simpl in Hd.
  destruct rc, parent as [p|]; simpl;
    try rewrite ffs_next_id_update_tainted;
    try (split; [intros _; destruct (ffs_inode_is_root di); reflexivity
                | congruence]);
    try (split; [discriminate | intros _; destruct new_inode; reflexivity]).
  all: destruct rcd, pd as [p0|]; simpl;
    try rewrite ffs_next_id_update_tainted;
    try (split; [intros _; destruct (ffs_inode_is_root di); simpl; exact Hd
                | congruence]);
    try (split; [discriminate | intros _; destruct new_inode; reflexivity]).
Qed.

Lemma ffs_restore_inode_tainted (di : ffs_disk_inode) (area_idx area_offset : Z)
      (st : ffs_state) :
  let r := ffs_restore_inode di area_idx area_offset st in
  (fst r = FFS_OK -> ffs_index_tainted (snd r) = ffs_index_tainted st)
  /\ (fst r <> FFS_OK -> ffs_index_tainted (snd r) = true \/ snd r = st).
Proof.
  cbv zeta. unfold ffs_restore_inode, ffs_hash_find_inode, ffs_restore_inode_err.
  destruct (hash_find (ffs_hash st) (fdi_id di)) as [[i|b]|];
    try (simpl; split; [discriminate | auto]).
  - destruct (ffs_restore_inode_gets_replaced i di) as [do_add|rc];
      [|simpl; split; [reflexivity | auto]].
    match goal with
    | |- context [ffs_restore_inode_finish ?a ?b ?c ?d ?s] =>
        destruct (ffs_restore_inode_finish_tainted a b c d s) as [H1 H2];
        assert (Hs : ffs_index_tainted s = ffs_index_tainted st)
    end.
    { destruct do_add; [|reflexivity]. simpl.
      destruct (fi_parent i); [apply ffs_inode_remove_child_tainted | reflexivity]. }
    split; [intros H; rewrite (H1 H); exact Hs | intros H; left; exact (H2 H)].
  - unfold ffs_inode_alloc. destruct (ffs_inode_pool st);
      [simpl; split; [discriminate | auto]|].
    match goal with
    | |- context [ffs_restore_inode_finish ?a ?b ?c ?d ?s] =>
        destruct (ffs_restore_inode_finish_tainted a b c d s) as [H1 H2]
    end.
    split; [intros H; rewrite (H1 H); reflexivity | intros H; left; exact (H2 H)].
Qed.

Lemma ffs_restore_block_tainted (db : ffs_disk_block) (area_idx area_offset : Z)
      (st : ffs_state) :
  let r := ffs_restore_block db area_idx area_offset st in
  (fst r = FFS_OK -> ffs_index_tainted (snd r) = ffs_index_tainted st)
  /\ (fst r <> FFS_OK -> ffs_index_tainted (snd r) = true \/ snd r = st).
Proof.
  cbv zeta. unfold ffs_restore_block, ffs_hash_find_block, ffs_restore_block_err.
  destruct (hash_find (ffs_hash st) (fdb_id db)) as [[i|b]|];
    try (simpl; split; [discriminate | auto]).
  - destruct (ffs_restore_block_gets_replaced b db) as [do_replace|rc];
      [|simpl; split; [reflexivity | auto]].
    simpl. rewrite ffs_next_id_update_tainted.
    split; [|congruence]. now destruct do_replace.
  - unfold ffs_block_alloc. destruct (ffs_block_pool st);
      [simpl; split; [discriminate | auto]|].
    simpl fb_id.
    match goal with
    | |- context [ffs_hash_find_inode ?s ?x] =>
        pose proof (ffs_restore_dummy_inode_tainted x false s) as Hd;
        destruct (ffs_hash_find_inode s x) as [rc found];
        destruct (ffs_restore_dummy_inode x false s) as [[rcd pd] std]
    end.
    simpl in Hd.
    destruct rc, found as [f|]; simpl;
      try rewrite ffs_next_id_update_tainted;
      try (split; [reflexivity | congruence]);
      try (split; [discriminate | auto]).
    all: destruct rcd, pd as [p0|]; simpl;
      try rewrite ffs_next_id_update_tainted;
      try (split; [intros _; exact Hd | congruence]);
      try (split; [discriminate | auto]).
Qed.

Lemma ffs_restore_object_tainted (d : ffs_disk_object) (st : ffs_state) :
  let r := ffs_restore_object d st in
  (fst r = FFS_OK -> ffs_index_tainted (snd r) = ffs_index_tainted st)
  /\ (fst r <> FFS_OK -> ffs_index_tainted (snd r) = true \/ snd r = st).
Proof.
  cbv zeta. unfold ffs_restore_object. destruct (fdo_type d).
  - apply ffs_restore_inode_tainted.
  - apply ffs_restore_block_tainted.
  - simpl. split; [discriminate | auto].
Qed.

Lemma ffs_rc_ok_dec (rc : ffs_rc) : rc = FFS_OK \/ rc <> FFS_OK.
Proof. destruct rc; auto; right; discriminate. Qed.

(** [ffs_index_tainted] is never cleared by a merge. *)
Lemma ffs_restore_object_clear (d : ffs_disk_object) (st : ffs_state) :
  ffs_index_tainted (snd (ffs_restore_object d st)) = false ->
  ffs_index_tainted st = false.
Proof.
  intros H. destruct (ffs_restore_object_tainted d st) as [H1 H2].
  destruct (ffs_rc_ok_dec (fst (ffs_restore_object d st))) as [Hok|Hne].
  - now rewrite <- (H1 Hok).
  - destruct (H2 Hne) as [Ht|Hs]; [congruence | now rewrite Hs in H].
Qed.
(** ** The area scan *)

Lemma nth_list_set {A : Type} (l : list A) (n : nat) (x d : A) :
  (n < length l)%nat -> nth n (list_set l n x) d = x.
Proof.
  revert n. induction l as [|y l IH]; intros [|n] H; simpl in *; try lia.
  - reflexivity.
  - apply IH. lia.
Qed.

Lemma area_at_set_cur (idx cur : Z) (st : ffs_state) :
  fa_length (area_at st idx) <> 0 ->
  fa_length (area_at (area_set_cur idx cur st) idx) = fa_length (area_at st idx)
  /\ fa_cur (area_at (area_set_cur idx cur st) idx) = cur.
Proof.
  intros HL. unfold area_set_cur, area_set, area_at in *. simpl.
  destruct (Nat.lt_ge_cases (Z.to_nat idx) (length (ffs_areas st))) as [Hlt|Hge].
  - rewrite nth_list_set by exact Hlt. simpl. auto.
  - rewrite nth_overflow in HL by exact Hge. simpl in HL. congruence.
Qed.

Lemma area_at_set_cur_cases (idx cur : Z) (st : ffs_state) :
  fa_length (area_at (area_set_cur idx cur st) idx) = fa_length (area_at st idx)
  /\ (fa_cur (area_at (area_set_cur idx cur st) idx) = cur
      \/ fa_cur (area_at (area_set_cur idx cur st) idx) = 0).
Proof.
  unfold area_set_cur, area_set, area_at in *. simpl.
  destruct (Nat.lt_ge_cases (Z.to_nat idx) (length (ffs_areas st))) as [Hlt|Hge].
  - rewrite nth_list_set by exact Hlt. simpl. auto.
  - assert (Hlen : forall (l : list ffs_area) n x, length (list_set l n x) = length l).
    { induction l as [|y l IH]; intros [|n] x; simpl; auto. }
    rewrite !nth_overflow by (rewrite ?Hlen; exact Hge). simpl. auto.
Qed.

Section AreaScan.

Variable E : ffs_env.

(** The largest variable part (file name, data) a record can declare. *)
Variable max_payload : Z.

(** The record decoders read the fixed part of a record through the flash
    read wrapper, for which a read that would cross the declared length of
    the area is not a success; the length fields they decode are unsigned. *)
Hypothesis inode_read_in_range :
  forall areas idx off di,
    ffs_inode_read_disk E areas idx off = (FFS_OK, di) ->
    off + sizeof_disk_inode E <= fa_length (nth (Z.to_nat idx) areas ffs_area_zero)
    /\ 0 <= fdi_filename_len di <= max_payload.

Hypothesis block_read_in_range :
  forall areas idx off db,
    ffs_block_read_disk E areas idx off = (FFS_OK, db) ->
    off + sizeof_disk_block E <= fa_length (nth (Z.to_nat idx) areas ffs_area_zero)
    /\ 0 <= fdb_data_len db <= max_payload.

Hypothesis sizeof_disk_area_nonneg : 0 <= sizeof_disk_area E.
Hypothesis sizeof_disk_inode_pos : 0 < sizeof_disk_inode E.
Hypothesis sizeof_disk_block_pos : 0 < sizeof_disk_block E.

Lemma ffs_restore_disk_object_ok_size (d obj : ffs_disk_object) (st : ffs_state)
      (idx : Z) :
  ffs_restore_disk_object E d (ffs_areas st) idx (fa_cur (area_at st idx))
  = (FFS_OK, obj) ->
  Z.min (sizeof_disk_inode E) (sizeof_disk_block E)
  <= ffs_restore_disk_object_size E obj
  /\ fa_cur (area_at st idx) + ffs_restore_disk_object_size E obj
     <= fa_length (area_at st idx) + max_payload
  /\ fa_cur (area_at st idx) < fa_length (area_at st idx).
Proof.
  intros H. apply ffs_restore_disk_object_ok_inv in H.
  destruct H as [_ [[di [Hr ->]] | [db [Hr ->]]]].
  - apply inode_read_in_range in Hr. unfold ffs_restore_disk_object_size, area_at in *.
    simpl. lia.
  - apply block_read_in_range in Hr. unfold ffs_restore_disk_object_size, area_at in *.
    simpl. lia.
Qed.

Lemma ffs_restore_area_contents_loop_step (n : nat) (idx : Z)
      (d obj : ffs_disk_object) (st : ffs_state) :
  ffs_restore_disk_object E d (ffs_areas st) idx (fa_cur (area_at st idx))
  = (FFS_OK, obj) ->
  ffs_restore_area_contents_loop E (S n) idx d st
  = ffs_restore_area_contents_loop E n idx obj
      (area_set_cur idx
         (u32 (fa_cur (area_at st idx) + ffs_restore_disk_object_size E obj))
         (snd (ffs_restore_object obj st))).
Proof.
  intros H. cbn [ffs_restore_area_contents_loop]. rewrite H.
  assert (Ha : area_at (snd (ffs_restore_object obj st)) idx = area_at st idx)
    by (unfold area_at; now rewrite ffs_restore_object_areas).
  rewrite Ha. reflexivity.
Qed.

Lemma ffs_restore_area_contents_loop_stop (n : nat) (idx : Z)
      (d d1 : ffs_disk_object) (st : ffs_state) (rc : ffs_rc) :
  ffs_restore_disk_object E d (ffs_areas st) idx (fa_cur (area_at st idx))
  = (rc, d1) ->
  rc <> FFS_OK ->
  exists rc', ffs_restore_area_contents_loop E (S n) idx d st = Some (rc', st).
Proof.
  intros H Hrc. cbn [ffs_restore_area_contents_loop]. rewrite H. destruct rc; try congruence; eexists; reflexivity.
Qed.

Lemma ffs_restore_area_contents_loop_returns (n : nat) :
  forall (idx : Z) (d : ffs_disk_object) (st : ffs_state),
    0 <= fa_cur (area_at st idx) ->
    fa_length (area_at st idx) + max_payload < 2 ^ 32 ->
    fa_length (area_at st idx) - fa_cur (area_at st idx) <= Z.of_nat n ->
    exists r, ffs_restore_area_contents_loop E (S n) idx d st = Some r.
Proof.
  induction n as [|n IH]; intros idx d st Hcur Hmax Hfuel.
  - destruct (ffs_restore_disk_object E d (ffs_areas st) idx (fa_cur (area_at st idx)))
      as [rc d1] eqn:Hread.
    destruct (ffs_rc_eqb rc FFS_OK) eqn:Hrc.
    + destruct rc; try discriminate.
      apply ffs_restore_disk_object_ok_size in Hread. lia.
    + destruct (ffs_restore_area_contents_loop_stop 0 idx d d1 st rc Hread)
        as [rc' Hs]; [intros ->; discriminate Hrc | eexists; exact Hs].
  - destruct (ffs_restore_disk_object E d (ffs_areas st) idx (fa_cur (area_at st idx)))
      as [rc d1] eqn:Hread.
    destruct (ffs_rc_eqb rc FFS_OK) eqn:Hrc.
    + destruct rc; try discriminate.
      rewrite (ffs_restore_area_contents_loop_step (S n) idx d d1 st Hread).
      pose proof (ffs_restore_disk_object_ok_size _ _ _ _ Hread) as [Hsz [Hend Hlt]].
      set (st1 := snd (ffs_restore_object d1 st)).
      assert (Ha : area_at st1 idx = area_at st idx).
      { unfold area_at, st1. now rewrite ffs_restore_object_areas. }
      assert (Hu : u32 (fa_cur (area_at st idx) + ffs_restore_disk_object_size E d1)
                   = fa_cur (area_at st idx) + ffs_restore_disk_object_size E d1).
      { unfold u32. apply Z.mod_small. lia. }
      rewrite Hu.
      destruct (area_at_set_cur idx
                  (fa_cur (area_at st idx) + ffs_restore_disk_object_size E d1) st1)
        as [HL Hc]; [rewrite Ha; lia|].
      rewrite Ha in HL.
      apply IH; rewrite ?HL, ?Hc; lia.
    + destruct (ffs_restore_area_contents_loop_stop (S n) idx d d1 st rc Hread)
        as [rc' Hs]; [intros ->; discriminate Hrc | eexists; exact Hs].
Qed.

(** C8 (as amended).  For an area whose declared length plus the largest
    record payload is below 2^32, the area scan returns within the declared
    length plus one iterations; in each iteration whose read succeeds the
    cursor is below the declared length and the iteration advances it by the
    on-disk size of the record, which is at least the size of the fixed part
    of a record, a positive constant. *)
Theorem ffs_restore_area_contents_terminates (area_idx : Z) (st : ffs_state) :
  fa_length (area_at st area_idx) + max_payload < 2 ^ 32 ->
  (exists rc st',
      ffs_restore_area_contents E (S (Z.to_nat (fa_length (area_at st area_idx))))
                                area_idx st = Some (rc, st'))
  /\ (forall (n : nat) (d obj : ffs_disk_object) (s : ffs_state),
         fa_length (area_at s area_idx) + max_payload < 2 ^ 32 ->
         0 <= fa_cur (area_at s area_idx) ->
         ffs_restore_disk_object E d (ffs_areas s) area_idx
                                 (fa_cur (area_at s area_idx)) = (FFS_OK, obj) ->
         exists s',
           ffs_restore_area_contents_loop E (S n) area_idx d s
           = ffs_restore_area_contents_loop E n area_idx obj s'
           /\ fa_cur (area_at s' area_idx)
              = fa_cur (area_at s area_idx) + ffs_restore_disk_object_size E obj
           /\ 0 < Z.min (sizeof_disk_inode E) (sizeof_disk_block E)
                <= ffs_restore_disk_object_size E obj
           /\ fa_cur (area_at s area_idx) < fa_length (area_at s area_idx)
           /\ fa_length (area_at s' area_idx) = fa_length (area_at s area_idx)).
Proof.
  intros Hmax. split.
  - unfold ffs_restore_area_contents.
    destruct (area_at_set_cur_cases area_idx (sizeof_disk_area E) st) as [HL Hc].
    destruct (ffs_restore_area_contents_loop_returns
                (Z.to_nat (fa_length (area_at st area_idx))) area_idx
                (uninit_disk_object E)
                (area_set_cur area_idx (sizeof_disk_area E) st)) as [[rc st'] Hr].
    + destruct Hc as [-> | ->]; lia.
    + rewrite HL. exact Hmax.
    + rewrite HL. destruct Hc as [-> | ->]; lia.
    + now exists rc, st'.
  - intros n d obj s Hm Hcur Hread.
    pose proof (ffs_restore_disk_object_ok_size _ _ _ _ Hread) as [Hsz [Hend Hlt]].
    eexists. split; [apply ffs_restore_area_contents_loop_step; exact Hread|].
    set (s1 := snd (ffs_restore_object obj s)).
    assert (Ha : area_at s1 area_idx = area_at s area_idx).
    { unfold area_at, s1. now rewrite ffs_restore_object_areas. }
    assert (Hu : u32 (fa_cur (area_at s area_idx) + ffs_restore_disk_object_size E obj)
                 = fa_cur (area_at s area_idx) + ffs_restore_disk_object_size E obj).
    { unfold u32. apply Z.mod_small. lia. }
    rewrite Hu.
    destruct (area_at_set_cur area_idx
                (fa_cur (area_at s area_idx) + ffs_restore_disk_object_size E obj) s1)
      as [HL Hc]; [rewrite Ha; lia|].
    rewrite Ha in HL. rewrite HL, Hc. repeat split; lia.
Qed.

End AreaScan.

(** The image environment reads through a wrapper that checks the range and
    decodes the payload lengths that the image declares. *)
Lemma flash_record_within_payload (p : Z) (r : flash_record) (delta : Z) :
  flash_record_payload_ok p r = true ->
  flash_record_payload_ok p (flash_record_within r delta) = true.
Proof.
  intros H. destruct r; simpl in *.
  1-3: destruct (delta =? 0); simpl; auto.
  destruct (delta mod flash_record_size r =? 0); auto.
Qed.

Lemma img_record_at_payload (p : Z) (rs : list flash_record) (pos offset : Z)
      (r : flash_record) :
  forallb (flash_record_payload_ok p) rs = true ->
  img_record_at rs pos offset = Some r ->
  flash_record_payload_ok p r = true.
Proof.
  revert pos. induction rs as [|x rs IH]; intros pos Hok; simpl; [discriminate|].
  simpl in Hok. apply andb_true_iff in Hok. destruct Hok as [Hx Hrs].
  destruct (offset <? pos); [intros [= <-]; reflexivity|].
  destruct (offset <? pos + flash_record_size x).
  - intros [= <-]. now apply flash_record_within_payload.
  - now apply IH.
Qed.

Lemma img_find_In (img : list flash_area_image) (offset : Z) (a : flash_area_image) :
  img_find img offset = Some a -> In a img.
Proof.
  induction img as [|x img IH]; simpl; [discriminate|].
  destruct (img_offset x =? offset); [intros [= <-]; auto | auto].
Qed.

Lemma img_area_record_payload (p : Z) (img : list flash_area_image)
      (areas : list ffs_area) (idx off : Z) (r : flash_record) :
  img_payload_ok p img = true ->
  img_area_record img areas idx off = Some r ->
  flash_record_payload_ok p r = true.
Proof.
  intros Hok. unfold img_area_record.
  destruct (img_find img _) as [a|] eqn:Hf; [|intros [= <-]; reflexivity].
  intros Hr. apply img_find_In in Hf. unfold img_payload_ok in Hok.
  rewrite forallb_forall in Hok. specialize (Hok a Hf).
  exact (img_record_at_payload p _ _ _ _ Hok Hr).
Qed.

Lemma img_inode_read_in_range (p : Z) (img : list flash_area_image)
      (areas : list ffs_area) (idx off : Z) (di : ffs_disk_inode) :
  img_payload_ok p img = true ->
  img_inode_read_disk img areas idx off = (FFS_OK, di) ->
  off + IMG_SIZEOF_DISK_INODE <= fa_length (nth (Z.to_nat idx) areas ffs_area_zero)
  /\ 0 <= fdi_filename_len di <= p.
Proof.
  intros Hok. unfold img_inode_read_disk, img_in_range.
  destruct (off + IMG_SIZEOF_DISK_INODE <=? _) eqn:Hr; [|discriminate].
  destruct (img_area_record img areas idx off) as [[di'|db|m sz|k r]|] eqn:Ha;
    try discriminate.
  intros [= <-]. apply Z.leb_le in Hr. split; [exact Hr|].
  apply (img_area_record_payload p) in Ha; [|exact Hok].
  simpl in Ha. apply andb_true_iff in Ha. destruct Ha as [H1 H2].
  apply Z.leb_le in H1, H2. lia.
Qed.

Lemma img_block_read_in_range (p : Z) (img : list flash_area_image)
      (areas : list ffs_area) (idx off : Z) (db : ffs_disk_block) :
  img_payload_ok p img = true ->
  img_block_read_disk img areas idx off = (FFS_OK, db) ->
  off + IMG_SIZEOF_DISK_BLOCK <= fa_length (nth (Z.to_nat idx) areas ffs_area_zero)
  /\ 0 <= fdb_data_len db <= p.
Proof.
  intros Hok. unfold img_block_read_disk, img_in_range.
  destruct (off + IMG_SIZEOF_DISK_BLOCK <=? _) eqn:Hr; [|discriminate].
  destruct (img_area_record img areas idx off) as [[di|db'|m sz|k r]|] eqn:Ha;
    try discriminate.
  intros [= <-]. apply Z.leb_le in Hr. split; [exact Hr|].
  apply (img_area_record_payload p) in Ha; [|exact Hok].
  simpl in Ha. apply andb_true_iff in Ha. destruct Ha as [H1 H2].
  apply Z.leb_le in H1, H2. lia.
Qed.

Lemma ffs_restore_area_contents_terminates_witness :
  exists rc st',
    ffs_restore_area_contents wit_env 4097 0 wit_st_inode5 = Some (rc, st').
Proof.
  apply (ffs_restore_area_contents_terminates wit_env 0
           (fun areas idx off di =>
              img_inode_read_in_range 0 (img_two_areas [rec_root]) areas idx off di
                                      eq_refl)
           (fun areas idx off db =>
              img_block_read_in_range 0 (img_two_areas [rec_root]) areas idx off db
                                      eq_refl)
           ltac:(vm_compute; discriminate) eq_refl eq_refl 0 wit_st_inode5).
  reflexivity.
Defined.

(** ** Merge errors in the area scan *)

(** C1 fails as stated.  On the image of scenario 4 (two inode
    records with id 5 and sequence number 1) the merge of the second record
    returns [FFS_ECORRUPT], but the area scan, which does not look at the
    return value of [ffs_restore_object], goes on and returns 0, and
    [ffs_restore_full], which does not look at the return value of the scan,
    returns 0 with the first of the two records in the index.  (The state the
    second merge runs on is the state the scan ends in with the cursor still
    at 67, the offset of the second record: the failed merge changes
    nothing.) *)
Lemma ffs_restore_full_duplicate_seq_unreported :
  let E := cex_env_duplicate in
  exists st_scan st_full,
    ffs_restore_object
      (mk_disk_object FFS_OBJECT_TYPE_INODE (mk_disk_inode 5 1 0 0 3)
                      disk_block_zero 0 67)
      (area_set_cur 0 67 st_scan) = (FFS_ECORRUPT, area_set_cur 0 67 st_scan)
    /\ ffs_restore_area_contents E 10 0
         (area_set 0 (mk_area 0 4096 24 0 0)
            (snd (ffs_misc_set_num_areas E 1 (ffs_misc_reset E st_empty))))
       = Some (FFS_OK, st_scan)
    /\ fa_cur (area_at st_scan 0) = 90
    /\ ffs_restore_full E 10 descs2 st_empty = Some (FFS_OK, st_full)
    /\ hash_find (ffs_hash st_full) 5
       = Some (ObjInode (mk_inode 5 1 0 44 0 1 3 (Some 0) [] [])).
Proof.
  cbv zeta. eexists. eexists.
  split; [|split; [vm_compute; reflexivity|]].
  - vm_compute. reflexivity.
  - split; [reflexivity|]. split; [vm_compute; reflexivity|]. reflexivity.
Qed.

(** ** The sweep *)

(** C2 does not hold of the code.  [ffs_delete_if_trash] tests the dummy flag
    of an inode but not the one of a block: a block whose dummy flag is set
    and whose owner is present stays in the index.  The image of an
    interrupted garbage collection whose bad area holds a block that the good
    area does not hold restores with success and leaves that block, dummy
    flag set, in the index. *)
Lemma ffs_restore_sweep_keeps_dummy_block :
  let b := mk_block 9 4 1 64 FFS_BLOCK_F_DUMMY 10 (Some 7) in
  ffs_delete_if_trash (ObjBlock b) wit_st_blocks = (0, wit_st_blocks)
  /\ hash_find (ffs_hash (ffs_restore_sweep wit_st_blocks)) 9 = Some (ObjBlock b)
  /\ fo_is_dummy (ObjBlock b) = true
  /\ exists st b',
      ffs_restore_full cex_env_gc 10 cex_descs_gc st_empty = Some (FFS_OK, st)
      /\ hash_find (ffs_hash st) 9 = Some (ObjBlock b')
      /\ flag_set (fb_flags b') FFS_BLOCK_F_DUMMY = true.
Proof.
  cbv zeta. split; [reflexivity|]. split; [reflexivity|]. split; [reflexivity|].
  eexists. eexists. split; [vm_compute; reflexivity|].
  split; reflexivity.
Qed.

(** ** The final phases *)

Section FinalPhases.

Variable E : ffs_env.

(** C4 (as amended).  When [ffs_restore_full] returns 0, its final phases
    have run in this order: the scratch area was validated on the state the
    areas (and the repair) left, then the sweep ran, then the root was
    validated on the swept state, and last the maximum block payload was set
    on the swept state. *)
Theorem ffs_restore_full_final_order (fuel : nat) (area_descs : list ffs_area_desc)
        (st st' : ffs_state) :
  ffs_restore_full E fuel area_descs st = Some (FFS_OK, st') ->
  exists st2,
    ffs_misc_validate_scratch E st2 = FFS_OK
    /\ ffs_misc_validate_root E (ffs_restore_sweep st2) = FFS_OK
    /\ st' = ffs_misc_set_max_block_data_size E (ffs_restore_sweep st2)
    /\ ffs_restore_full_finish E st2 = (FFS_OK, st').
Proof.
  unfold ffs_restore_full.
  destruct (ffs_restore_full_areas E fuel area_descs (uninit_disk_area E)
              (ffs_misc_reset E st)) as [[rc1 st1]|]; [|discriminate].
  destruct rc1; try discriminate.
  destruct (if ffs_scratch_area_idx st1 =? FFS_AREA_ID_NONE
            then ffs_restore_corrupt_flash E fuel st1
            else Some (FFS_OK, st1)) as [[rc2 st2]|]; [|discriminate].
  destruct rc2; try discriminate.
  intros [= H]. exists st2. unfold ffs_restore_full_finish in *.
  destruct (ffs_misc_validate_scratch E st2); try discriminate.
  destruct (ffs_misc_validate_root E (ffs_restore_sweep st2)); try discriminate.
  injection H as <-. repeat split.
Qed.

End FinalPhases.

Lemma ffs_restore_full_final_order_witness :
  exists st2,
    ffs_misc_validate_scratch wit_env st2 = FFS_OK
    /\ ffs_misc_validate_root wit_env (ffs_restore_sweep st2) = FFS_OK
    /\ mk_state [ObjInode (mk_inode 0 0 0 24 4 1 0 None [] [])]
                [mk_area 0 4096 44 0 0; mk_area 4096 4096 24 0 FFS_AREA_ID_NONE]
                1 (Some 0) 1 3%nat 4%nat
       = ffs_misc_set_max_block_data_size wit_env (ffs_restore_sweep st2)
    /\ ffs_restore_full_finish wit_env st2
       = (FFS_OK, mk_state [ObjInode (mk_inode 0 0 0 24 4 1 0 None [] [])]
                    [mk_area 0 4096 44 0 0; mk_area 4096 4096 24 0 FFS_AREA_ID_NONE]
                    1 (Some 0) 1 3%nat 4%nat).
Proof.
  apply (ffs_restore_full_final_order wit_env 10 descs2 st_empty).
  vm_compute. reflexivity.
Defined.

(** C4 fails as stated: on the image whose root directory record carries the
    deleted flag, the final phases in the order of the spec (validate scratch
    and root, set the maximum, sweep) succeed, whereas the code, which sweeps
    before it validates the root, returns [FFS_ECORRUPT]. *)
Lemma ffs_restore_full_sweeps_before_root_validation :
  let E := cex_env_deleted_root in
  fst (ffs_restore_full_finish_spec_order E cex_st_deleted_root) = FFS_OK
  /\ ffs_restore_full_finish E cex_st_deleted_root
     = (FFS_ECORRUPT, ffs_misc_reset E cex_st_deleted_root)
  /\ ffs_misc_validate_root E cex_st_deleted_root = FFS_OK
  /\ ffs_misc_validate_root E (ffs_restore_sweep cex_st_deleted_root) = FFS_ECORRUPT
  /\ ffs_restore_full E 10 descs2 st_empty
     = Some (FFS_ECORRUPT, ffs_misc_reset E st_empty)
  /\ ffs_restore_full_finish E cex_st_deleted_root
     <> ffs_restore_full_finish_spec_order E cex_st_deleted_root.
Proof.
  cbv zeta. repeat split; try reflexivity.
  vm_compute. discriminate.
Qed.

(** ** A scan that does not return *)

Section ScanIterations.

Variable E : ffs_env.
Variable area_idx : Z.

Lemma ffs_restore_area_contents_loop_iterations (k : nat) :
  forall (ds ds' : ffs_disk_object * ffs_state) (n : nat),
    scan_iterations E area_idx k ds = Some ds' ->
    ffs_restore_area_contents_loop E (k + n) area_idx (fst ds) (snd ds)
    = ffs_restore_area_contents_loop E n area_idx (fst ds') (snd ds').
Proof.
  induction k as [|k IH]; intros ds ds' n; simpl scan_iterations.
  - intros [= <-]. reflexivity.
  - unfold scan_iteration.
    destruct (ffs_restore_disk_object E (fst ds) (ffs_areas (snd ds)) area_idx
                (fa_cur (area_at (snd ds) area_idx))) as [rc obj] eqn:Hread.
    destruct rc; try discriminate.
    intros H. apply (IH _ _ n) in H. simpl fst in H. simpl snd in H.
    rewrite <- H. change (S k + n)%nat with (S (k + n)).
    cbn [ffs_restore_area_contents_loop]. rewrite Hread. reflexivity.
Qed.

Lemma scan_iterations_prefix (k : nat) :
  forall (ds ds' : ffs_disk_object * ffs_state) (j : nat),
    scan_iterations E area_idx k ds = Some ds' -> (j <= k)%nat ->
    exists ds'', scan_iterations E area_idx j ds = Some ds''.
Proof.
  induction k as [|k IH]; intros ds ds' j H Hj.
  - assert (j = O) by lia. subst j. now exists ds.
  - destruct j as [|j]; [now exists ds|].
    simpl in *. destruct (scan_iteration E area_idx ds) as [ds1|]; [|discriminate].
    apply (IH ds1 ds' j H). lia.
Qed.

Lemma ffs_restore_area_contents_loop_short (k j : nat)
      (ds ds' : ffs_disk_object * ffs_state) :
  scan_iterations E area_idx k ds = Some ds' -> (j <= k)%nat ->
  ffs_restore_area_contents_loop E j area_idx (fst ds) (snd ds) = None.
Proof.
  intros H Hj. destruct (scan_iterations_prefix k ds ds' j H Hj) as [ds'' Hp].
  pose proof (ffs_restore_area_contents_loop_iterations j ds ds'' 0 Hp) as Hl.
  rewrite Nat.add_0_r in Hl. exact Hl.
Qed.

Lemma ffs_restore_area_contents_loop_cycle (k : nat)
      (ds : ffs_disk_object * ffs_state) :
  (0 < k)%nat ->
  scan_iterations E area_idx k ds = Some ds ->
  forall n, ffs_restore_area_contents_loop E n area_idx (fst ds) (snd ds) = None.
Proof.
  intros Hk Hc n. induction n as [n IH] using (well_founded_induction lt_wf).
  destruct (Nat.le_gt_cases n k) as [Hle|Hgt].
  - exact (ffs_restore_area_contents_loop_short k n ds ds Hc Hle).
  - replace n with (k + (n - k))%nat by lia.
    rewrite (ffs_restore_area_contents_loop_iterations k ds ds _ Hc).
    apply IH. lia.
Qed.

End ScanIterations.

Lemma cex_first_iteration :
  scan_iterations cex_env_full 0 1 (uninit_disk_object cex_env_full, cex_st_full)
  = Some cex_ds_first.
Proof. vm_compute. reflexivity. Qed.

Lemma cex_lap_cycle :
  scan_iterations cex_env_full 0 cex_lap cex_ds_first = Some cex_ds_first.
Proof. vm_compute. reflexivity. Qed.

Lemma cex_scan_never_returns (fuel : nat) :
  ffs_restore_area_contents_loop cex_env_full fuel 0
                                 (uninit_disk_object cex_env_full) cex_st_full = None.
Proof.
  destruct fuel as [|fuel]; [reflexivity|].
  change (S fuel) with (1 + fuel)%nat.
  rewrite (ffs_restore_area_contents_loop_iterations cex_env_full 0 1 _ _ _
             cex_first_iteration).
  apply (ffs_restore_area_contents_loop_cycle cex_env_full 0 cex_lap);
    [unfold cex_lap; lia | exact cex_lap_cycle].
Qed.

(** C8 fails as stated: the area of declared length 4294967295 that is full
    of block records of 65536 bytes (a payload of 65516 bytes each) is
    scanned for ever.  The iteration that reads the last record, at offset
    4294901784, succeeds and leaves the cursor at 24, the offset of the
    first record, so the scan, and with it [ffs_restore_full], returns for no
    amount of fuel. *)
Lemma ffs_restore_area_contents_does_not_return :
  fa_length (area_at cex_st_full 0) = 4294967295
  /\ img_payload_ok 65535 cex_img_full = true
  /\ (exists obj s',
         scan_iteration cex_env_full 0
           (fst cex_ds_first, area_set_cur 0 4294901784 (snd cex_ds_first))
         = Some (obj, s')
         /\ ffs_restore_disk_object_size cex_env_full obj = 65536
         /\ fa_cur (area_at s' 0) = 24)
  /\ (forall fuel, ffs_restore_area_contents cex_env_full fuel 0 cex_st_full = None)
  /\ (forall fuel,
         ffs_restore_full cex_env_full fuel cex_descs_full st_empty = None).
Proof.
  split; [reflexivity|]. split; [reflexivity|].
  split; [eexists; eexists; split; [vm_compute; reflexivity|]; split; reflexivity|].
  assert (Hscan : forall fuel,
             ffs_restore_area_contents cex_env_full fuel 0 cex_st_full = None)
    by exact cex_scan_never_returns.
  split; [exact Hscan|].
  intros fuel. unfold ffs_restore_full.
  assert (H : ffs_restore_full_areas cex_env_full fuel cex_descs_full
                (uninit_disk_area cex_env_full) (ffs_misc_reset cex_env_full st_empty)
              = match ffs_restore_area_contents cex_env_full fuel 0 cex_st_full with
                | None => None
                | Some (_, st3) =>
                    ffs_restore_full_areas cex_env_full fuel
                      [mk_area_desc 4294967295 4096; mk_area_desc 0 0]
                      (mk_disk_area true 0 0) st3
                end) by reflexivity.
  rewrite H, Hscan. reflexivity.
Qed.

(** * Further properties of [ffs_restore.c] *)

(** ** Reading a disk object *)

Section ReaderDispatch.

Variable E : ffs_env.

(** X1.  When the magic word is read with success and is neither of the two
    record magics, [ffs_restore_disk_object] returns [FFS_EEMPTY] for the
    erased word 0xffffffff and [FFS_ECORRUPT] for every other word, and leaves
    the out parameter as it was; a failing read of the magic word is returned
    as it is.  On success the object is stamped with the area and the offset
    it was read from. *)
Theorem ffs_restore_disk_object_dispatch (old : ffs_disk_object)
        (areas : list ffs_area) (area_idx area_offset : Z) :
  (forall m, ffs_flash_read_magic E areas area_idx area_offset = (FFS_OK, m) ->
             m <> FFS_INODE_MAGIC E -> m <> FFS_BLOCK_MAGIC E ->
             ffs_restore_disk_object E old areas area_idx area_offset
             = (if m =? 4294967295 then FFS_EEMPTY else FFS_ECORRUPT, old))
  /\ (forall rc m, ffs_flash_read_magic E areas area_idx area_offset = (rc, m) ->
                   rc <> FFS_OK ->
                   ffs_restore_disk_object E old areas area_idx area_offset = (rc, old))
  /\ (forall obj, ffs_restore_disk_object E old areas area_idx area_offset
                  = (FFS_OK, obj) ->
                  fdo_area_idx obj = area_idx /\ fdo_offset obj = area_offset).
Proof.
  split; [|split].
  - intros m Hm Hi Hb. unfold ffs_restore_disk_object. rewrite Hm.
    apply Z.eqb_neq in Hi, Hb. rewrite Hi, Hb.
    now destruct (m =? 4294967295).
  - intros rc m Hm Hrc. unfold ffs_restore_disk_object. rewrite Hm.
    destruct rc; congruence.
  - intros obj H. apply ffs_restore_disk_object_ok_inv in H.
    destruct H as [_ [[di [_ ->]] | [db [_ ->]]]]; split; reflexivity.
Qed.

End ReaderDispatch.

(** ** Merging a record: the cases of the decision *)

(** X2.  A record that is older than the object the index holds under its id
    (an object of the type of the record, not a dummy, with a higher sequence
    number) is ignored: the merge returns 0 and changes nothing but
    [ffs_next_id]. *)
Theorem ffs_restore_object_stale (d : ffs_disk_object) (st : ffs_state)
        (o : ffs_object) :
  hash_find (ffs_hash st) (fdo_id d) = Some o ->
  fo_type o = fdo_type d ->
  fo_is_dummy o = false ->
  fdo_seq d < fo_seq o ->
  ffs_restore_object d st = (FFS_OK, ffs_next_id_update (fdo_id d) st).
Proof.
  intros Hfind Hty Hdummy Hseq.
  pose proof (hash_find_id _ _ _ Hfind) as Hid.
  unfold ffs_restore_object, fdo_id, fdo_seq in *.
  destruct o as [i|b]; simpl in Hty, Hdummy, Hseq, Hid; rewrite <- Hty in *.
  - unfold ffs_restore_inode, ffs_hash_find_inode. rewrite Hfind.
    unfold ffs_restore_inode_gets_replaced. rewrite Hdummy.
    replace (fi_seq i <? fdi_seq (fdo_disk_inode d)) with false
      by (symmetry; apply Z.ltb_ge; lia).
    replace (fi_seq i =? fdi_seq (fdo_disk_inode d)) with false
      by (symmetry; apply Z.eqb_neq; lia).
    unfold ffs_restore_inode_finish. rewrite Hid. reflexivity.
  - unfold ffs_restore_block, ffs_hash_find_block. rewrite Hfind.
    unfold ffs_restore_block_gets_replaced. rewrite Hdummy.
    replace (fb_seq b <? fdb_seq (fdo_disk_block d)) with false
      by (symmetry; apply Z.ltb_ge; lia).
    replace (fb_seq b =? fdb_seq (fdo_disk_block d)) with false
      by (symmetry; apply Z.eqb_neq; lia).
    rewrite Hid. reflexivity.
Qed.

Lemma ffs_restore_object_stale_witness :
  ffs_restore_object
    (mk_disk_object FFS_OBJECT_TYPE_INODE (mk_disk_inode 5 0 0 0 3)
                    disk_block_zero 0 44) wit_st_inode5
  = (FFS_OK, wit_st_inode5).
Proof.
  apply (ffs_restore_object_stale
           (mk_disk_object FFS_OBJECT_TYPE_INODE (mk_disk_inode 5 0 0 0 3)
                           disk_block_zero 0 44)
           wit_st_inode5 (ObjInode (wit_inode 5 1 0)));
    [reflexivity | reflexivity | reflexivity | reflexivity].
Defined.

Lemma ffs_restore_disk_object_dispatch_witness :
  ffs_restore_disk_object wit_env (uninit_disk_object wit_env) wit_areas 0 44
  = (FFS_EEMPTY, uninit_disk_object wit_env).
Proof.
  apply (proj1 (ffs_restore_disk_object_dispatch wit_env (uninit_disk_object wit_env)
                  wit_areas 0 44) 4294967295);
    [reflexivity | discriminate | discriminate].
Defined.

Lemma flag_set_lor (flags mask : Z) :
  mask <> 0 -> flag_set (Z.lor flags mask) mask = true.
Proof.
  intros Hm. unfold flag_set. apply negb_true_iff, Z.eqb_neq.
  rewrite Z.land_lor_distr_l, Z.land_diag. intros H.
  apply Z.lor_eq_0_iff in H. tauto.
Qed.

(** X3.  [ffs_restore_corrupt_flash] marks the objects of the bad area as
    dummies and leaves the others alone: an object whose area index is the
    bad one keeps its id and sequence number, has its dummy flag set, and is
    from then on replaced by every record, whatever the sequence numbers; an
    object of another area is unchanged. *)
Theorem ffs_mark_dummy_replaced (bad_idx : Z) (o : ffs_object) :
  (fo_area_idx o <> bad_idx -> ffs_mark_dummy bad_idx o = o)
  /\ (fo_area_idx o = bad_idx ->
      fo_is_dummy (ffs_mark_dummy bad_idx o) = true
      /\ fo_id (ffs_mark_dummy bad_idx o) = fo_id o
      /\ fo_seq (ffs_mark_dummy bad_idx o) = fo_seq o
      /\ match ffs_mark_dummy bad_idx o with
         | ObjInode i => forall di, ffs_restore_inode_gets_replaced i di = inl true
         | ObjBlock b => forall db, ffs_restore_block_gets_replaced b db = inl true
         end).
Proof.
  unfold ffs_mark_dummy. split.
  - intros H. apply Z.eqb_neq in H. now rewrite H.
  - intros H. apply Z.eqb_eq in H. rewrite H.
    destruct o as [i|b]; simpl; repeat split.
    + apply flag_set_lor. discriminate.
    + intros di. unfold ffs_restore_inode_gets_replaced. simpl.
      rewrite flag_set_lor by discriminate. reflexivity.
    + apply flag_set_lor. discriminate.
    + intros db. unfold ffs_restore_block_gets_replaced. simpl.
      rewrite flag_set_lor by discriminate. reflexivity.
Qed.

(** X4.  A record whose id is not in the index and for which the pool of its
    type is exhausted is not merged: [ffs_restore_object] returns
    [FFS_ENOMEM] and leaves the state as it was. *)
Theorem ffs_restore_object_enomem (d : ffs_disk_object) (st : ffs_state) :
  hash_find (ffs_hash st) (fdo_id d) = None ->
  match fdo_type d with
  | FFS_OBJECT_TYPE_INODE => ffs_inode_pool st = O
  | FFS_OBJECT_TYPE_BLOCK => ffs_block_pool st = O
  | FFS_OBJECT_TYPE_INVALID => False
  end ->
  ffs_restore_object d st = (FFS_ENOMEM, st).
Proof.
  intros Hfind Hpool. unfold ffs_restore_object, fdo_id in *.
  destruct (fdo_type d); [| |contradiction].
  - unfold ffs_restore_inode, ffs_hash_find_inode, ffs_inode_alloc.
    rewrite Hfind, Hpool. reflexivity.
  - unfold ffs_restore_block, ffs_hash_find_block, ffs_block_alloc.
    rewrite Hfind, Hpool. reflexivity.
Qed.

Lemma ffs_restore_object_enomem_witness :
  ffs_restore_object wit_disk_inode5 st_empty = (FFS_ENOMEM, st_empty).
Proof.
  apply (ffs_restore_object_enomem wit_disk_inode5 st_empty);
    [reflexivity | reflexivity].
Defined.

(** ** The ids of the index *)

Lemma ids_grow_refl (a : list Z) : ids_grow a a.
Proof. exists []. split; [reflexivity | auto]. Qed.

Lemma ids_grow_trans (a b c : list Z) : ids_grow a b -> ids_grow b c -> ids_grow a c.
Proof.
  intros [l1 [-> H1]] [l2 [-> H2]]. exists (l2 ++ l1).
  split; [now rewrite app_assoc | auto].
Qed.

Lemma ids_grow_eq (a b : list Z) : b = a -> ids_grow a b.
Proof. intros ->. apply ids_grow_refl. Qed.

Lemma hash_find_None_ids (h : list ffs_object) (id : Z) :
  hash_find h id = None -> ~ In id (map fo_id h).
Proof.
  induction h as [|o h IH]; simpl; [tauto|].
  destruct (fo_id o =? id) eqn:Ho; [discriminate|].
  apply Z.eqb_neq in Ho. intros H [Hin|Hin]; [congruence | now apply IH].
Qed.

Lemma ids_grow_cons (a : list Z) (x : Z) : ~ In x a -> ids_grow a (x :: a).
Proof.
  intros H. exists [x]. split; [reflexivity|]. intros Ha. now constructor.
Qed.

Lemma hash_update_ids (h : list ffs_object) (id : Z) (f : ffs_object -> ffs_object) :
  (forall o, fo_id o = id -> fo_id (f o) = id) ->
  map fo_id (hash_update h id f) = map fo_id h.
Proof.
  intros Hf. induction h as [|o h IH]; simpl; [reflexivity|].
  destruct (fo_id o =? id) eqn:Ho; simpl.
  - apply Z.eqb_eq in Ho. now rewrite (Hf o Ho), Ho.
  - now rewrite IH.
Qed.

Lemma inode_update_ids (id : Z) (f : ffs_inode -> ffs_inode) (st : ffs_state) :
  (forall i, fi_id i = id -> fi_id (f i) = id) ->
  ffs_hash_ids (inode_update id f st) = ffs_hash_ids st.
Proof.
  intros Hf. unfold ffs_hash_ids, inode_update. simpl.
  apply hash_update_ids. intros [i|b]; simpl; auto.
Qed.

Lemma block_update_ids (id : Z) (f : ffs_block -> ffs_block) (st : ffs_state) :
  (forall b, fb_id b = id -> fb_id (f b) = id) ->
  ffs_hash_ids (block_update id f st) = ffs_hash_ids st.
Proof.
  intros Hf. unfold ffs_hash_ids, block_update. simpl.
  apply hash_update_ids. intros [i|b]; simpl; auto.
Qed.

Lemma ffs_inode_remove_child_ids (c : Z) (st : ffs_state) :
  ffs_hash_ids (ffs_inode_remove_child c st) = ffs_hash_ids st.
Proof.
  unfold ffs_inode_remove_child.
  destruct (hash_find (ffs_hash st) c) as [[i|b]|]; try reflexivity.
  destruct (fi_parent i); [|reflexivity].
  rewrite !inode_update_ids; auto.
Qed.

Lemma ffs_inode_add_child_ids (p c : Z) (st : ffs_state) :
  ffs_hash_ids (snd (ffs_inode_add_child p c st)) = ffs_hash_ids st.
Proof. unfold ffs_inode_add_child. simpl. rewrite !inode_update_ids; auto. Qed.

Lemma ffs_next_id_update_ids (id : Z) (st : ffs_state) :
  ffs_hash_ids (ffs_next_id_update id st) = ffs_hash_ids st.
Proof. unfold ffs_hash_ids. now rewrite ffs_next_id_update_hash. Qed.

Lemma ffs_restore_dummy_inode_ids (id : Z) (is_dir : bool) (st : ffs_state) :
  hash_find (ffs_hash st) id = None ->
  ids_grow (ffs_hash_ids st) (ffs_hash_ids (snd (ffs_restore_dummy_inode id is_dir st))).
Proof.
  intros Hf. unfold ffs_restore_dummy_inode, ffs_inode_alloc.
  destruct (ffs_inode_pool st); [apply ids_grow_refl|].
  simpl. apply ids_grow_cons. now apply hash_find_None_ids.
Qed.

Lemma ffs_restore_inode_finish_ids (di : ffs_disk_inode) (inode : Z)
      (new_inode do_add : bool) (st : ffs_state) :
  ids_grow (ffs_hash_ids st)
           (ffs_hash_ids (snd (ffs_restore_inode_finish di inode new_inode do_add st))).
Proof.
  unfold ffs_restore_inode_finish, ffs_restore_inode_err.
  destruct do_add;
    [|simpl; rewrite ffs_next_id_update_ids; apply ids_grow_refl].
  destruct (negb (fdi_parent_id di =? FFS_ID_NONE)).
  2:{ simpl. rewrite ffs_next_id_update_ids.
      destruct (ffs_inode_is_root di); apply ids_grow_refl. }
  unfold ffs_hash_find_inode.
  destruct (hash_find (ffs_hash st) (fdi_parent_id di)) as [[p|b]|] eqn:Hfind; simpl.
  - rewrite ffs_next_id_update_ids.
    destruct (ffs_inode_is_root di); simpl;
      apply ids_grow_eq;
      exact (ffs_inode_add_child_ids (fi_id p) inode st).
  - destruct new_inode; apply ids_grow_refl.
  - pose proof (ffs_restore_dummy_inode_ids (fdi_parent_id di) true st Hfind) as Hd.
    destruct (ffs_restore_dummy_inode (fdi_parent_id di) true st) as [[rcd pd] std].
    simpl in Hd.
    destruct rcd, pd as [p0|]; simpl;
      try rewrite ffs_next_id_update_ids;
      try (destruct new_inode; exact Hd).
    destruct (ffs_inode_is_root di); simpl;
      (eapply ids_grow_trans; [exact Hd|]); apply ids_grow_eq;
      exact (ffs_inode_add_child_ids p0 inode std).
Qed.

Lemma ffs_restore_inode_ids (di : ffs_disk_inode) (area_idx area_offset : Z)
      (st : ffs_state) :
  ids_grow (ffs_hash_ids st)
           (ffs_hash_ids (snd (ffs_restore_inode di area_idx area_offset st))).
Proof.
  unfold ffs_restore_inode, ffs_hash_find_inode, ffs_restore_inode_err.
  destruct (hash_find (ffs_hash st) (fdi_id di)) as [[i|b]|] eqn:Hfind;
    try apply ids_grow_refl.
  - pose proof (hash_find_id _ _ _ Hfind) as Hid. simpl in Hid.
    destruct (ffs_restore_inode_gets_replaced i di) as [do_add|rc];
      [|apply ids_grow_refl].
    eapply ids_grow_trans; [|apply ffs_restore_inode_finish_ids].
    apply ids_grow_eq. destruct do_add; [|reflexivity].
    rewrite inode_update_ids by (intros; simpl; congruence).
    destruct (fi_parent i); [apply ffs_inode_remove_child_ids | reflexivity].
  - unfold ffs_inode_alloc. destruct (ffs_inode_pool st); [apply ids_grow_refl|].
    eapply ids_grow_trans; [|apply ffs_restore_inode_finish_ids].
    simpl. apply ids_grow_cons. now apply hash_find_None_ids.
Qed.

Lemma ffs_block_free_ids (st : ffs_state) :
  ffs_hash_ids (ffs_block_free st) = ffs_hash_ids st.
Proof. reflexivity. Qed.

Lemma set_index_tainted_ids (st : ffs_state) :
  ffs_hash_ids (set_index_tainted st) = ffs_hash_ids st.
Proof. reflexivity. Qed.

Lemma ffs_restore_block_ids (db : ffs_disk_block) (area_idx area_offset : Z)
      (st : ffs_state) :
  ids_grow (ffs_hash_ids st)
           (ffs_hash_ids (snd (ffs_restore_block db area_idx area_offset st))).
Proof.
  unfold ffs_restore_block, ffs_hash_find_block, ffs_restore_block_err.
  destruct (hash_find (ffs_hash st) (fdb_id db)) as [[i|b]|] eqn:Hfind;
    try apply ids_grow_refl.
  - pose proof (hash_find_id _ _ _ Hfind) as Hid. simpl in Hid.
    destruct (ffs_restore_block_gets_replaced b db) as [do_replace|rc];
      [|apply ids_grow_refl].
    simpl. rewrite ffs_next_id_update_ids. apply ids_grow_eq.
    destruct do_replace; [|reflexivity].
    apply block_update_ids. intros; simpl; congruence.
  - unfold ffs_block_alloc. destruct (ffs_block_pool st); [apply ids_grow_refl|].
    simpl fb_id.
    set (st2 := ffs_hash_insert _ _).
    assert (H2 : ids_grow (ffs_hash_ids st) (ffs_hash_ids st2)).
    { unfold st2. simpl. apply ids_grow_cons. now apply hash_find_None_ids. }
    unfold ffs_hash_find_inode.
    destruct (hash_find (ffs_hash st2) (fdb_inode_id db)) as [[p|b]|] eqn:Hf2;
      cbn -[ffs_hash_ids block_update inode_update ffs_inode_insert_block
            ffs_next_id_update ffs_restore_dummy_inode].
    + rewrite ffs_next_id_update_ids.
      unfold ffs_inode_insert_block.
      rewrite inode_update_ids by auto.
      rewrite block_update_ids by auto. exact H2.
    + rewrite ffs_block_free_ids, set_index_tainted_ids, block_update_ids by auto.
      exact H2.
    + pose proof (ffs_restore_dummy_inode_ids (fdb_inode_id db) false st2 Hf2) as Hd.
      destruct (ffs_restore_dummy_inode (fdb_inode_id db) false st2) as [[rcd pd] std].
      simpl in Hd.
      destruct rcd, pd as [p0|];
        cbn -[ffs_hash_ids block_update inode_update ffs_inode_insert_block
              ffs_next_id_update];
        try rewrite ffs_next_id_update_ids;
        try (unfold ffs_inode_insert_block; rewrite inode_update_ids by auto);
        rewrite ?ffs_block_free_ids, ?set_index_tainted_ids, block_update_ids by auto;
        (eapply ids_grow_trans; [exact H2 | exact Hd]).
Qed.

Lemma ffs_restore_object_ids_grow (d : ffs_disk_object) (st : ffs_state) :
  ids_grow (ffs_hash_ids st) (ffs_hash_ids (snd (ffs_restore_object d st))).
Proof.
  unfold ffs_restore_object. destruct (fdo_type d).
  - apply ffs_restore_inode_ids.
  - apply ffs_restore_block_ids.
  - apply ids_grow_refl.
Qed.

(** X5.  As long as no merge has failed after it changed the index
    ([ffs_index_tainted] is clear after the merge, and so it was before), a merge
    never removes an object from the index and keeps the ids of the index
    unique: after [ffs_restore_object] the ids of the index are the ids
    before, with the new ones (the record's, a synthesized dummy's) in front,
    and they are without repetition if they were. *)
Theorem ffs_restore_object_ids (d : ffs_disk_object) (st : ffs_state) :
  ffs_index_tainted (snd (ffs_restore_object d st)) = false ->
  ffs_index_tainted st = false
  /\ ids_grow (ffs_hash_ids st) (ffs_hash_ids (snd (ffs_restore_object d st))).
Proof.
  intros Hclear. split; [exact (ffs_restore_object_clear d st Hclear)|].
  unfold ffs_restore_object. destruct (fdo_type d).
  - apply ffs_restore_inode_ids.
  - apply ffs_restore_block_ids.
  - apply ids_grow_refl.
Qed.

Lemma ffs_restore_object_ids_witness :
  ffs_index_tainted wit_st_inode5 = false
  /\ ids_grow (ffs_hash_ids wit_st_inode5)
              (ffs_hash_ids
                 (snd (ffs_restore_object
                         (mk_disk_object FFS_OBJECT_TYPE_BLOCK disk_inode_zero
                                         (mk_disk_block 3 1 9 0 16) 0 64)
                         wit_st_inode5))).
Proof.
  apply (ffs_restore_object_ids
           (mk_disk_object FFS_OBJECT_TYPE_BLOCK disk_inode_zero
                           (mk_disk_block 3 1 9 0 16) 0 64) wit_st_inode5).
  reflexivity.
Defined.

(** ** The area scan: result and frame *)

Lemma list_set_length {A : Type} (l : list A) (n : nat) (x : A) :
  length (list_set l n x) = length l.
Proof.
  revert n. induction l as [|y l IH]; intros [|n]; simpl; auto.
Qed.

Lemma nth_list_set_other {A : Type} (l : list A) (n m : nat) (x d : A) :
  n <> m -> nth m (list_set l n x) d = nth m l d.
Proof.
  revert n m. induction l as [|y l IH]; intros [|n] [|m] H; simpl; auto.
  congruence.
Qed.

Lemma areas_same_but_cur_refl (idx : Z) (a : list ffs_area) :
  areas_same_but_cur idx a a.
Proof. split; [reflexivity | intros j; cbv zeta; auto]. Qed.

Lemma areas_same_but_cur_trans (idx : Z) (a b c : list ffs_area) :
  areas_same_but_cur idx a b -> areas_same_but_cur idx b c ->
  areas_same_but_cur idx a c.
Proof.
  intros [Hl1 H1] [Hl2 H2]. split; [congruence|].
  intros j. cbv zeta. specialize (H1 j). specialize (H2 j). cbv zeta in *.
  destruct H1 as (A1 & B1 & C1 & D1 & E1), H2 as (A2 & B2 & C2 & D2 & E2).
  repeat split; try congruence. intros Hj. rewrite E2, E1; auto.
Qed.

Lemma area_set_cur_same_but_cur (idx cur : Z) (st : ffs_state) :
  areas_same_but_cur idx (ffs_areas st) (ffs_areas (area_set_cur idx cur st)).
Proof.
  unfold area_set_cur, area_set, area_at. simpl. split; [apply list_set_length|].
  intros j. cbv zeta.
  destruct (Nat.eq_dec j (Z.to_nat idx)) as [->|Hne].
  - destruct (Nat.lt_ge_cases (Z.to_nat idx) (length (ffs_areas st))) as [Hlt|Hge].
    + rewrite nth_list_set by exact Hlt. simpl. tauto.
    + rewrite !nth_overflow by (rewrite ?list_set_length; exact Hge). tauto.
  - rewrite nth_list_set_other by congruence. tauto.
Qed.

Section ScanResult.

Variable E : ffs_env.

Lemma ffs_restore_area_contents_loop_result (fuel : nat) :
  forall (idx : Z) (d : ffs_disk_object) (st st' : ffs_state) (rc : ffs_rc),
    ffs_restore_area_contents_loop E fuel idx d st = Some (rc, st') ->
    (exists d0 rc0 d1,
        ffs_restore_disk_object E d0 (ffs_areas st') idx (fa_cur (area_at st' idx))
        = (rc0, d1)
        /\ rc0 <> FFS_OK
        /\ rc = match rc0 with FFS_EEMPTY | FFS_ERANGE => FFS_OK | _ => rc0 end)
    /\ areas_same_but_cur idx (ffs_areas st) (ffs_areas st')
    /\ ids_grow (ffs_hash_ids st) (ffs_hash_ids st').
Proof.
  induction fuel as [|fuel IH]; intros idx d st st' rc; [discriminate|].
  cbn [ffs_restore_area_contents_loop].
  destruct (ffs_restore_disk_object E d (ffs_areas st) idx (fa_cur (area_at st idx)))
    as [rc0 d1] eqn:Hread.
  destruct rc0;
    try (intros [= <- <-]; split;
         [exists d; eexists; exists d1; split; [exact Hread|];
          split; [discriminate | reflexivity]
         | split; [apply areas_same_but_cur_refl | apply ids_grow_refl]]).
  intros H. apply IH in H. destruct H as (Hstop & Ha & Hi).
  split; [exact Hstop|]. split.
  - eapply areas_same_but_cur_trans; [|exact Ha].
    eapply areas_same_but_cur_trans; [|apply area_set_cur_same_but_cur].
    rewrite ffs_restore_object_areas. apply areas_same_but_cur_refl.
  - eapply ids_grow_trans; [|exact Hi].
    apply (ffs_restore_object_ids_grow d1 st).
Qed.

(** X6.  When the area scan returns, the read at the cursor it leaves has
    failed, and the scan returns 0 if that read reported erased flash or the
    end of the area and the code of the read otherwise; so the scan never
    returns [FFS_EEMPTY] or [FFS_ERANGE], nor the code of a merge. *)
Theorem ffs_restore_area_contents_result (fuel : nat) (idx : Z)
        (st st' : ffs_state) (rc : ffs_rc) :
  ffs_restore_area_contents E fuel idx st = Some (rc, st') ->
  (exists d0 rc0 d1,
      ffs_restore_disk_object E d0 (ffs_areas st') idx (fa_cur (area_at st' idx))
      = (rc0, d1)
      /\ rc0 <> FFS_OK
      /\ rc = match rc0 with FFS_EEMPTY | FFS_ERANGE => FFS_OK | _ => rc0 end)
  /\ rc <> FFS_EEMPTY /\ rc <> FFS_ERANGE.
Proof.
  unfold ffs_restore_area_contents. intros H.
  apply ffs_restore_area_contents_loop_result in H.
  destruct H as [Hstop _]. split; [exact Hstop|].
  destruct Hstop as (d0 & rc0 & d1 & _ & Hne & ->).
  destruct rc0; split; congruence.
Qed.


End ScanResult.

Lemma ffs_restore_area_contents_result_witness :
  exists st',
    ffs_restore_area_contents wit_env 10 0 wit_st_inode5 = Some (FFS_OK, st')
    /\ FFS_OK <> FFS_EEMPTY /\ FFS_OK <> FFS_ERANGE.
Proof.
  eexists. split; [vm_compute; reflexivity|].
  refine (proj2 (ffs_restore_area_contents_result wit_env 10 0 wit_st_inode5 _
                   FFS_OK _)).
  vm_compute. reflexivity.
Defined.


(** ** The sweep *)

Lemma hash_find_In (h : list ffs_object) (id : Z) (o : ffs_object) :
  hash_find h id = Some o -> In o h.
Proof.
  induction h as [|x h IH]; simpl; [discriminate|].
  destruct (fo_id x =? id); [intros [= <-]; auto | auto].
Qed.

Lemma hash_find_NoDup (h : list ffs_object) (o : ffs_object) :
  NoDup (map fo_id h) -> In o h -> hash_find h (fo_id o) = Some o.
Proof.
  induction h as [|x h IH]; simpl; [tauto|].
  intros Hnd [->|Hin]; [now rewrite Z.eqb_refl|].
  inversion Hnd as [|? ? Hx Hnd']; subst.
  destruct (fo_id x =? fo_id o) eqn:Hxo; [|auto].
  apply Z.eqb_eq in Hxo. exfalso. apply Hx. rewrite Hxo. now apply in_map.
Qed.

Lemma hash_remove_In (h : list ffs_object) (id : Z) (o : ffs_object) :
  In o (hash_remove h id) -> In o h.
Proof.
  induction h as [|x h IH]; simpl; [tauto|].
  destruct (fo_id x =? id); simpl; tauto.
Qed.

Lemma hash_remove_NoDup (h : list ffs_object) (id : Z) :
  NoDup (map fo_id h) ->
  NoDup (map fo_id (hash_remove h id)) /\ ~ In id (map fo_id (hash_remove h id)).
Proof.
  induction h as [|x h IH]; simpl; intros Hnd; [split; [constructor | tauto]|].
  inversion Hnd as [|? ? Hx Hnd']; subst.
  destruct (fo_id x =? id) eqn:Hxi.
  - apply Z.eqb_eq in Hxi. subst id. auto.
  - apply Z.eqb_neq in Hxi. destruct (IH Hnd') as [H1 H2]. simpl. split.
    + constructor; [|exact H1]. intros Hin. apply Hx.
      apply in_map_iff in Hin. destruct Hin as [o [Ho Hin]].
      apply in_map_iff. exists o. split; [exact Ho | eapply hash_remove_In; eauto].
    + intros [H|H]; [congruence | tauto].
Qed.

Lemma hash_update_In (h : list ffs_object) (id : Z) (f : ffs_object -> ffs_object)
      (o' : ffs_object) :
  In o' (hash_update h id f) -> In o' h \/ exists o, In o h /\ o' = f o.
Proof.
  induction h as [|x h IH]; simpl; [tauto|].
  destruct (fo_id x =? id); simpl.
  - intros [<-|H]; [right; exists x; auto | auto].
  - intros [<-|H]; [auto|]. destruct (IH H) as [H1|[o [H1 H2]]]; [auto|].
    right. exists o. auto.
Qed.

Lemma index_shrinks_refl (st : ffs_state) : index_shrinks st st.
Proof. split; [auto|]. intros o' H. exists o'. auto. Qed.

Lemma index_shrinks_trans (a b c : ffs_state) :
  index_shrinks a b -> index_shrinks b c -> index_shrinks a c.
Proof.
  intros [N1 H1] [N2 H2]. split; [auto|].
  intros o' Ho'. destruct (H2 o' Ho') as (o1 & Hin1 & Hid1 & Ht1).
  destruct (H1 o1 Hin1) as (o & Hin & Hid & Ht).
  exists o. repeat split; congruence.
Qed.

Lemma index_shrinks_same_hash (st st' : ffs_state) :
  ffs_hash st' = ffs_hash st -> index_shrinks st st'.
Proof.
  intros H. unfold index_shrinks, ffs_hash_ids. rewrite H.
  split; [auto|]. intros o' Ho. exists o'. auto.
Qed.

Lemma index_shrinks_remove (id : Z) (st : ffs_state) :
  index_shrinks st (ffs_hash_remove id st).
Proof.
  split.
  - intros H. apply (hash_remove_NoDup _ id H).
  - intros o' Ho. exists o'. split; [eapply hash_remove_In; exact Ho | auto].
Qed.

Lemma index_shrinks_inode_update (id : Z) (f : ffs_inode -> ffs_inode)
      (st : ffs_state) :
  (forall i, fi_id (f i) = fi_id i /\ fi_flags (f i) = fi_flags i) ->
  index_shrinks st (inode_update id f st).
Proof.
  intros Hf. split.
  - intros H. rewrite inode_update_ids; [exact H|].
    intros i Hi. destruct (Hf i). congruence.
  - intros o' Ho. unfold inode_update in Ho. simpl in Ho.
    apply hash_update_In in Ho. destruct Ho as [Ho|[o [Ho ->]]].
    + exists o'. auto.
    + exists o. split; [exact Ho|]. destruct o as [i|b]; simpl; [|auto].
      destruct (Hf i) as [-> ->]. auto.
Qed.

Lemma index_shrinks_fold {A : Type} (f : ffs_state -> A -> ffs_state) (l : list A) :
  (forall s a, index_shrinks s (f s a)) ->
  forall st, index_shrinks st (fold_left f l st).
Proof.
  intros Hf. induction l as [|a l IH]; intros st; simpl.
  - apply index_shrinks_refl.
  - eapply index_shrinks_trans; [apply Hf | apply IH].
Qed.

Lemma delete_owned_block_shrinks (st : ffs_state) (bid : Z) :
  index_shrinks st (delete_owned_block st bid).
Proof.
  unfold delete_owned_block.
  destruct (hash_find (ffs_hash st) bid) as [[i|b]|]; try apply index_shrinks_refl.
  eapply index_shrinks_trans; [apply index_shrinks_remove|].
  now apply index_shrinks_same_hash.
Qed.

Lemma ffs_block_delete_from_ram_shrinks (b : ffs_block) (st : ffs_state) :
  index_shrinks st (ffs_block_delete_from_ram b st)
  /\ (NoDup (ffs_hash_ids st) ->
      ~ In (fb_id b) (ffs_hash_ids (ffs_block_delete_from_ram b st))).
Proof.
  unfold ffs_block_delete_from_ram.
  set (st1 := match fb_inode b with Some i => _ | None => st end).
  assert (H1 : index_shrinks st st1).
  { unfold st1. destruct (fb_inode b); [|apply index_shrinks_refl].
    apply index_shrinks_inode_update. intros i. auto. }
  split.
  - eapply index_shrinks_trans; [exact H1|].
    eapply index_shrinks_trans; [apply index_shrinks_remove|].
    now apply index_shrinks_same_hash.
  - intros Hnd. apply (proj1 H1) in Hnd.
    exact (proj2 (hash_remove_NoDup _ (fb_id b) Hnd)).
Qed.

Lemma ffs_inode_delete_from_ram_shrinks (i : ffs_inode) (st : ffs_state) :
  index_shrinks st (ffs_inode_delete_from_ram i st)
  /\ (NoDup (ffs_hash_ids st) ->
      ~ In (fi_id i) (ffs_hash_ids (ffs_inode_delete_from_ram i st))).
Proof.
  unfold ffs_inode_delete_from_ram.
  set (st1 := fold_left delete_owned_block (fi_block_list i) st).
  set (st2 := fold_left _ (fi_child_list i) st1).
  set (st3 := match fi_parent i with Some p => _ | None => st2 end).
  assert (H1 : index_shrinks st st1).
  { apply index_shrinks_fold. apply delete_owned_block_shrinks. }
  assert (H2 : index_shrinks st1 st2).
  { apply index_shrinks_fold. intros s c.
    apply index_shrinks_inode_update. intros x. auto. }
  assert (H3 : index_shrinks st2 st3).
  { unfold st3. destruct (fi_parent i); [|apply index_shrinks_refl].
    apply index_shrinks_inode_update. intros x. auto. }
  assert (H : index_shrinks st st3).
  { eapply index_shrinks_trans; [exact H1|].
    eapply index_shrinks_trans; [exact H2 | exact H3]. }
  split.
  - eapply index_shrinks_trans; [exact H|].
    eapply index_shrinks_trans; [apply index_shrinks_remove|].
    now apply index_shrinks_same_hash.
  - intros Hnd. apply (proj1 H) in Hnd.
    exact (proj2 (hash_remove_NoDup _ (fi_id i) Hnd)).
Qed.

Lemma ffs_delete_if_trash_spec (o : ffs_object) (st : ffs_state) :
  (fo_is_trash o = false -> ffs_delete_if_trash o st = (0, st))
  /\ (fo_is_trash o = true ->
      fst (ffs_delete_if_trash o st) = 1
      /\ (NoDup (ffs_hash_ids st) ->
          ~ In (fo_id o) (ffs_hash_ids (snd (ffs_delete_if_trash o st)))))
  /\ index_shrinks st (snd (ffs_delete_if_trash o st)).
Proof.
  destruct o as [i|b]; simpl.
  - pose proof (ffs_inode_delete_from_ram_shrinks i st) as [Hs Hn].
    destruct (flag_set (fi_flags i) FFS_INODE_F_DELETED);
      [|destruct (flag_set (fi_flags i) FFS_INODE_F_DUMMY)]; simpl;
      (split; [intros H; try discriminate H; reflexivity|]);
      (split; [intros H; first [discriminate H | split; [reflexivity | exact Hn]]|]);
      first [exact Hs | apply index_shrinks_refl].
  - pose proof (ffs_block_delete_from_ram_shrinks b st) as [Hs Hn].
    destruct (flag_set (fb_flags b) FFS_BLOCK_F_DELETED
              || match fb_inode b with None => true | Some _ => false end); simpl;
      (split; [intros H; try discriminate H; reflexivity|]);
      (split; [intros H; first [discriminate H | split; [reflexivity | exact Hn]]|]);
      first [exact Hs | apply index_shrinks_refl].
Qed.

Lemma ffs_restore_sweep_step_spec (st : ffs_state) (id : Z) :
  NoDup (ffs_hash_ids st) ->
  index_shrinks st (ffs_restore_sweep_step st id)
  /\ forall o', In o' (ffs_hash (ffs_restore_sweep_step st id)) ->
                fo_id o' = id -> fo_is_trash o' = false.
Proof.
  intros Hnd. unfold ffs_restore_sweep_step.
  destruct (hash_find (ffs_hash st) id) as [o|] eqn:Hfind.
  - destruct (ffs_delete_if_trash_spec o st) as (Hclean & Htrash & Hshr).
    split; [exact Hshr|]. intros o' Hin Hid.
    pose proof (hash_find_id _ _ _ Hfind) as Ho.
    destruct (fo_is_trash o) eqn:Ht.
    + exfalso. destruct (Htrash eq_refl) as [_ Hno]. apply (Hno Hnd).
      replace (fo_id o) with (fo_id o') by congruence.
      unfold ffs_hash_ids. now apply in_map.
    + rewrite (Hclean eq_refl) in Hin. simpl in Hin.
      pose proof (hash_find_NoDup _ _ Hnd Hin) as Hf.
      rewrite Hid, Hfind in Hf. now injection Hf as <-.
  - split; [now apply index_shrinks_same_hash|]. intros o' Hin Hid. exfalso.
    apply (hash_find_None_ids _ _ Hfind). rewrite <- Hid.
    unfold ffs_hash_ids. now apply in_map.
Qed.

Lemma ffs_restore_sweep_fold (l : list Z) :
  forall (st : ffs_state) (seen : list Z),
    NoDup (ffs_hash_ids st) ->
    (forall o, In o (ffs_hash st) -> In (fo_id o) seen -> fo_is_trash o = false) ->
    let st' := fold_left ffs_restore_sweep_step l st in
    index_shrinks st st'
    /\ forall o, In o (ffs_hash st') -> In (fo_id o) (seen ++ l) ->
                 fo_is_trash o = false.
Proof.
  induction l as [|x l IH]; intros st seen Hnd Hseen; cbv zeta; simpl.
  - split; [apply index_shrinks_refl|]. intros o Ho Hin.
    rewrite app_nil_r in Hin. auto.
  - destruct (ffs_restore_sweep_step_spec st x Hnd) as [Hshr Hx].
    destruct (IH (ffs_restore_sweep_step st x) (seen ++ [x])) as [Hshr' Hall].
    + exact (proj1 Hshr Hnd).
    + intros o Ho Hin. apply in_app_or in Hin. destruct Hin as [Hin|[Hxo|[]]].
      * destruct (proj2 Hshr o Ho) as (o0 & Hin0 & Hid0 & Ht0).
        rewrite <- Ht0. apply Hseen; [exact Hin0 | congruence].
      * apply Hx; [exact Ho | congruence].
    + split; [eapply index_shrinks_trans; eauto|].
      intros o Ho Hin. apply Hall; [exact Ho|].
      now rewrite <- app_assoc.
Qed.

(** X8.  On an index whose ids are without repetition and in which no merge
    has left a freed object ([ffs_index_tainted] is clear), a sweep that
    never goes to a saved next pointer whose object it has freed
    ([ffs_sweep_tainted] is clear after the sweep) leaves no object that
    [ffs_delete_if_trash] deletes: no inode with the deleted or the dummy
    flag, no block with the deleted flag or without an owner.  The sweep adds
    nothing: every object it leaves was in the index, under the same id, and
    the ids stay without repetition. *)
Theorem ffs_restore_sweep_no_trash (st : ffs_state) :
  NoDup (ffs_hash_ids st) ->
  ffs_index_tainted st = false ->
  ffs_sweep_tainted (ffs_restore_sweep st) = false ->
  (forall o, In o (ffs_hash (ffs_restore_sweep st)) -> fo_is_trash o = false)
  /\ NoDup (ffs_hash_ids (ffs_restore_sweep st))
  /\ (forall o, In o (ffs_hash (ffs_restore_sweep st)) ->
                In (fo_id o) (ffs_hash_ids st)).
Proof.
  intros Hnd _ _. unfold ffs_restore_sweep.
  destruct (ffs_restore_sweep_fold (map fo_id (ffs_hash st)) st [] Hnd)
    as [Hshr Hall]; [intros o _ []|].
  cbv zeta in *. split; [|split].
  - intros o Ho. apply Hall; [exact Ho|]. simpl.
    destruct (proj2 Hshr o Ho) as (o0 & Hin0 & Hid0 & _).
    rewrite <- Hid0. now apply in_map.
  - exact (proj1 Hshr Hnd).
  - intros o Ho. destruct (proj2 Hshr o Ho) as (o0 & Hin0 & Hid0 & _).
    rewrite <- Hid0. unfold ffs_hash_ids. now apply in_map.
Qed.

(** X9.  On an index without an object that [ffs_delete_if_trash] deletes,
    the sweep changes nothing. *)
Theorem ffs_restore_sweep_clean (st : ffs_state) :
  (forall o, In o (ffs_hash st) -> fo_is_trash o = false) ->
  ffs_restore_sweep st = st.
Proof.
  intros Hclean. unfold ffs_restore_sweep.
  assert (H : forall l, incl l (ffs_hash_ids st) ->
                        fold_left ffs_restore_sweep_step l st = st).
  { induction l as [|x l IH]; intros Hl; simpl; [reflexivity|].
    replace (ffs_restore_sweep_step st x) with st.
    - apply IH. intros y Hy. apply Hl. now right.
    - unfold ffs_restore_sweep_step.
      destruct (hash_find (ffs_hash st) x) as [o|] eqn:Hfind.
      + apply hash_find_In in Hfind.
        now rewrite (proj1 (ffs_delete_if_trash_spec o st) (Hclean o Hfind)).
      + exfalso. apply (hash_find_None_ids _ _ Hfind). apply Hl. now left. }
  apply H. apply incl_refl.
Qed.

Lemma ffs_restore_sweep_no_trash_witness :
  (forall o, In o (ffs_hash (ffs_restore_sweep wit_st_trash)) -> fo_is_trash o = false)
  /\ NoDup (ffs_hash_ids (ffs_restore_sweep wit_st_trash))
  /\ (forall o, In o (ffs_hash (ffs_restore_sweep wit_st_trash)) ->
                In (fo_id o) (ffs_hash_ids wit_st_trash)).
Proof.
  apply (ffs_restore_sweep_no_trash wit_st_trash).
  - repeat constructor; cbv; intuition discriminate.
  - reflexivity.
  - reflexivity.
Defined.

Lemma ffs_restore_sweep_clean_witness :
  ffs_restore_sweep wit_st_inode5 = wit_st_inode5.
Proof.
  apply (ffs_restore_sweep_clean wit_st_inode5).
  intros o [<-|[<-|[]]]; reflexivity.
Defined.

(** The sweep of scenario 6 of the spec with the dummy 7 in front of its
    block 9: the deletion of the dummy takes the block along, and the
    traversal, which has saved the pointer to the block before, goes on to
    it. *)
Lemma ffs_restore_sweep_freed_next :
  hash_find (ffs_hash wit_st_orphan) 9
  = Some (ObjBlock (mk_block 9 1 0 44 0 10 (Some 7)))
  /\ hash_find (ffs_hash (ffs_restore_sweep_step wit_st_orphan 7)) 9 = None
  /\ ffs_sweep_tainted (ffs_restore_sweep wit_st_orphan) = true.
Proof. split; [reflexivity|]. split; reflexivity. Qed.

(** ** The enumeration of the areas *)

Section Enumeration.

Variable E : ffs_env.

(** X10.  The descriptor array ends at the first descriptor of length 0:
    what follows it is not looked at, by the loop over the areas and so by
    [ffs_restore_full]. *)
Theorem ffs_restore_full_terminator (fuel : nat) (descs tail : list ffs_area_desc)
        (term : ffs_area_desc) (st : ffs_state) :
  fad_length term = 0 ->
  (forall disk_area s,
      ffs_restore_full_areas E fuel (descs ++ term :: tail) disk_area s
      = ffs_restore_full_areas E fuel descs disk_area s)
  /\ ffs_restore_full E fuel (descs ++ term :: tail) st
     = ffs_restore_full E fuel descs st.
Proof.
  intros Hterm.
  assert (Hl : forall disk_area s,
             ffs_restore_full_areas E fuel (descs ++ term :: tail) disk_area s
             = ffs_restore_full_areas E fuel descs disk_area s).
  { induction descs as [|d descs IH]; intros disk_area s.
    - simpl. now rewrite Hterm.
    - cbn [app ffs_restore_full_areas].
      destruct (fad_length d =? 0); [reflexivity|].
      destruct (ffs_restore_detect_one_area E disk_area (fad_offset d)) as [rc da].
      destruct rc; try reflexivity;
        repeat match goal with
               | |- context [if ?c then _ else _] => destruct c
               | |- context [match ffs_misc_set_num_areas E ?n ?x with _ => _ end] =>
                   destruct (ffs_misc_set_num_areas E n x) as [[] ?]
               | |- context [match ffs_restore_area_contents E ?f ?i ?x with _ => _ end] =>
                   destruct (ffs_restore_area_contents E f i x) as [[? ?]|]
               end; try reflexivity; apply IH. }
  split; [exact Hl|]. unfold ffs_restore_full. now rewrite Hl.
Qed.

End Enumeration.

Lemma ffs_restore_full_terminator_witness :
  ffs_restore_full wit_env 10
    ([mk_area_desc 0 4096; mk_area_desc 4096 4096]
       ++ mk_area_desc 0 0 :: [mk_area_desc 8192 4096]) st_empty
  = ffs_restore_full wit_env 10 [mk_area_desc 0 4096; mk_area_desc 4096 4096] st_empty.
Proof.
  apply (ffs_restore_full_terminator wit_env 10
           [mk_area_desc 0 4096; mk_area_desc 4096 4096] [mk_area_desc 8192 4096]
           (mk_area_desc 0 0) st_empty).
  reflexivity.
Defined.

(** ** The scratch index is not touched by a merge *)

Lemma ffs_inode_remove_child_area_state (c : Z) (st : ffs_state) :
  ffs_area_state (ffs_inode_remove_child c st) = ffs_area_state st.
Proof.
  unfold ffs_inode_remove_child.
  destruct (hash_find (ffs_hash st) c) as [[i|b]|]; try reflexivity.
  now destruct (fi_parent i).
Qed.

Lemma ffs_restore_dummy_inode_area_state (id : Z) (is_dir : bool) (st : ffs_state) :
  ffs_area_state (snd (ffs_restore_dummy_inode id is_dir st)) = ffs_area_state st.
Proof.
  unfold ffs_restore_dummy_inode, ffs_inode_alloc.
  now destruct (ffs_inode_pool st).
Qed.

Lemma ffs_next_id_update_area_state (id : Z) (st : ffs_state) :
  ffs_area_state (ffs_next_id_update id st) = ffs_area_state st.
Proof. unfold ffs_next_id_update. now destruct (ffs_next_id st <=? id). Qed.

Lemma ffs_restore_inode_finish_area_state (di : ffs_disk_inode) (inode : Z)
      (new_inode do_add : bool) (st : ffs_state) :
  ffs_area_state (snd (ffs_restore_inode_finish di inode new_inode do_add st))
  = ffs_area_state st.
Proof.
  unfold ffs_restore_inode_finish, ffs_restore_inode_err.
  destruct do_add; [|simpl; apply ffs_next_id_update_area_state].
  destruct (negb (fdi_parent_id di =? FFS_ID_NONE)).
  2:{ simpl. rewrite ffs_next_id_update_area_state.
      now destruct (ffs_inode_is_root di). }
  pose proof (ffs_restore_dummy_inode_area_state (fdi_parent_id di) true st) as Hd.
  destruct (ffs_hash_find_inode st (fdi_parent_id di)) as [rc parent].
  destruct (ffs_restore_dummy_inode (fdi_parent_id di) true st) as [[rcd pd] std].
  simpl in Hd.
  destruct rc, parent as [p|]; simpl;
    try rewrite ffs_next_id_update_area_state;
    try (destruct (ffs_inode_is_root di); reflexivity);
    try (destruct new_inode; reflexivity).
  all: destruct rcd, pd as [p0|]; simpl;
    try rewrite ffs_next_id_update_area_state;
    try (destruct (ffs_inode_is_root di); simpl; exact Hd);
    try (destruct new_inode; simpl; exact Hd).
Qed.

Lemma ffs_restore_inode_area_state (di : ffs_disk_inode) (area_idx area_offset : Z)
      (st : ffs_state) :
  ffs_area_state (snd (ffs_restore_inode di area_idx area_offset st)) = ffs_area_state st.
Proof.
  unfold ffs_restore_inode, ffs_hash_find_inode, ffs_restore_inode_err.
  destruct (hash_find (ffs_hash st) (fdi_id di)) as [[i|b]|]; try reflexivity.
  - destruct (ffs_restore_inode_gets_replaced i di) as [do_add|rc];
      [|reflexivity].
    rewrite ffs_restore_inode_finish_area_state.
    destruct do_add; [|reflexivity]. simpl.
    destruct (fi_parent i); [apply ffs_inode_remove_child_area_state | reflexivity].
  - unfold ffs_inode_alloc. destruct (ffs_inode_pool st); [reflexivity|].
    now rewrite ffs_restore_inode_finish_area_state.
Qed.

Lemma ffs_restore_block_area_state (db : ffs_disk_block) (area_idx area_offset : Z)
      (st : ffs_state) :
  ffs_area_state (snd (ffs_restore_block db area_idx area_offset st)) = ffs_area_state st.
Proof.
  unfold ffs_restore_block, ffs_hash_find_block, ffs_restore_block_err.
  destruct (hash_find (ffs_hash st) (fdb_id db)) as [[i|b]|]; try reflexivity.
  - destruct (ffs_restore_block_gets_replaced b db) as [do_replace|rc];
      [|reflexivity].
    simpl. rewrite ffs_next_id_update_area_state. now destruct do_replace.
  - unfold ffs_block_alloc. destruct (ffs_block_pool st); [reflexivity|].
    simpl fb_id.
    match goal with
    | |- context [ffs_hash_find_inode ?s ?x] =>
        pose proof (ffs_restore_dummy_inode_area_state x false s) as Hd;
        destruct (ffs_hash_find_inode s x) as [rc found];
        destruct (ffs_restore_dummy_inode x false s) as [[rcd pd] std]
    end.
    simpl in Hd.
    destruct rc, found as [f|]; simpl;
      try rewrite ffs_next_id_update_area_state; try reflexivity.
    all: destruct rcd, pd as [p0|]; simpl;
      try rewrite ffs_next_id_update_area_state; exact Hd.
Qed.

Lemma ffs_restore_object_area_state (d : ffs_disk_object) (st : ffs_state) :
  ffs_area_state (snd (ffs_restore_object d st)) = ffs_area_state st.
Proof.
  unfold ffs_restore_object. destruct (fdo_type d).
  - apply ffs_restore_inode_area_state.
  - apply ffs_restore_block_area_state.
  - reflexivity.
Qed.

(** ** The scratch area *)

Lemma resize_areas_grow (l : list ffs_area) :
  resize_areas l (S (length l)) = l ++ [ffs_area_zero].
Proof.
  induction l as [|a l IH]; [reflexivity|].
  change (resize_areas (a :: l) (S (length (a :: l))))
    with (a :: resize_areas l (S (length l))).
  now rewrite IH.
Qed.

Lemma list_set_last {A : Type} (l : list A) (z x : A) :
  list_set (l ++ [z]) (length l) x = l ++ [x].
Proof. induction l as [|a l IH]; simpl; [reflexivity | now rewrite IH]. Qed.

Lemma scratch_inv_transfer (idx : Z) (st st' : ffs_state) :
  areas_same_but_cur idx (ffs_areas st) (ffs_areas st') ->
  ffs_scratch_area_idx st' = ffs_scratch_area_idx st ->
  scratch_inv st -> scratch_inv st'.
Proof.
  intros [Hlen Hsame] Hs [H1 H2]. unfold scratch_inv, ffs_num_areas, area_at in *.
  rewrite Hs, Hlen. split.
  - intros j Hj Hid. apply H1; [exact Hj|].
    destruct (Hsame j) as (_ & _ & _ & Hfid & _). congruence.
  - intros Hne. destruct (H2 Hne) as [Hr Hid]. split; [exact Hr|].
    destruct (Hsame (Z.to_nat (ffs_scratch_area_idx st))) as (_ & _ & _ & Hfid & _).
    congruence.
Qed.

Section ScratchArea.

Variable E : ffs_env.

Lemma ffs_restore_area_contents_loop_scratch (fuel : nat) :
  forall (idx : Z) (d : ffs_disk_object) (st st' : ffs_state) (rc : ffs_rc),
    ffs_restore_area_contents_loop E fuel idx d st = Some (rc, st') ->
    ffs_scratch_area_idx st' = ffs_scratch_area_idx st.
Proof.
  induction fuel as [|fuel IH]; intros idx d st st' rc; [discriminate|].
  cbn [ffs_restore_area_contents_loop].
  destruct (ffs_restore_disk_object E d (ffs_areas st) idx (fa_cur (area_at st idx)))
    as [rc0 d1].
  destruct rc0; try (intros [= <- <-]; reflexivity).
  intros H. apply IH in H. rewrite H. simpl.
  exact (f_equal snd (ffs_restore_object_area_state d1 st)).
Qed.

Lemma ffs_restore_area_contents_scratch_inv (fuel : nat) (idx : Z)
      (st st' : ffs_state) (rc : ffs_rc) :
  ffs_restore_area_contents E fuel idx st = Some (rc, st') ->
  scratch_inv st -> scratch_inv st'.
Proof.
  intros H. apply (scratch_inv_transfer idx).
  - unfold ffs_restore_area_contents in H.
    apply ffs_restore_area_contents_loop_result in H.
    eapply areas_same_but_cur_trans;
      [apply area_set_cur_same_but_cur | exact (proj1 (proj2 H))].
  - unfold ffs_restore_area_contents in H.
    now apply ffs_restore_area_contents_loop_scratch in H.
Qed.

Lemma scratch_inv_append (st : ffs_state) (a : ffs_area) :
  ffs_num_areas st < 65535 ->
  scratch_inv st ->
  (fa_id a = FFS_AREA_ID_NONE -> ffs_scratch_area_idx st = FFS_AREA_ID_NONE) ->
  scratch_inv
    (let st2 := set_areas (ffs_areas st ++ [a]) st in
     if fa_id a =? FFS_AREA_ID_NONE
     then set_scratch_area_idx (u16 (ffs_num_areas st)) st2 else st2).
Proof.
  intros Hlen [H1 H2] Hnone. cbv zeta.
  assert (Hu : u16 (ffs_num_areas st) = Z.of_nat (length (ffs_areas st))).
  { unfold u16, ffs_num_areas in *. change (2 ^ 16) with 65536.
    apply Z.mod_small. lia. }
  unfold ffs_num_areas in Hlen.
  unfold FFS_AREA_ID_NONE in *.
  destruct (fa_id a =? 65535) eqn:Ha.
  - apply Z.eqb_eq in Ha. specialize (Hnone Ha). rewrite Hu.
    unfold scratch_inv, ffs_num_areas, area_at. simpl.
    rewrite length_app. simpl. split.
    + intros j Hj Hid.
      destruct (Nat.eq_dec j (length (ffs_areas st))) as [->|Hne]; [reflexivity|].
      rewrite app_nth1 in Hid by lia.
      assert (Hjl : (j < length (ffs_areas st))%nat) by lia.
      specialize (H1 j Hjl Hid). lia.
    + intros _. split; [lia|].
      rewrite Nat2Z.id, app_nth2, Nat.sub_diag by lia. exact Ha.
  - apply Z.eqb_neq in Ha.
    unfold scratch_inv, ffs_num_areas, area_at. simpl.
    rewrite length_app. simpl. split.
    + intros j Hj Hid.
      destruct (Nat.eq_dec j (length (ffs_areas st))) as [->|Hne].
      * rewrite app_nth2, Nat.sub_diag in Hid by lia. simpl in Hid.
        exfalso. exact (Ha Hid).
      * rewrite app_nth1 in Hid by lia. apply H1; [lia | exact Hid].
    + intros Hne. destruct (H2 Hne) as [Hr Hid].
      unfold ffs_num_areas, area_at in *. split; [lia|].
      rewrite app_nth1 by lia. exact Hid.
Qed.

Lemma ffs_misc_set_num_areas_append (st : ffs_state) (a : ffs_area) :
  (ffs_misc_set_num_areas E (ffs_num_areas st + 1) st = (FFS_ENOMEM, st)
   /\ (ffs_area_capacity E < S (length (ffs_areas st)))%nat)
  \/ (exists st1,
         ffs_misc_set_num_areas E (ffs_num_areas st + 1) st = (FFS_OK, st1)
         /\ area_set (ffs_num_areas st) a st1 = set_areas (ffs_areas st ++ [a]) st
         /\ (S (length (ffs_areas st)) <= ffs_area_capacity E)%nat).
Proof.
  unfold ffs_misc_set_num_areas, ffs_num_areas.
  replace (Z.to_nat (Z.of_nat (length (ffs_areas st)) + 1))
    with (S (length (ffs_areas st))) by lia.
  destruct (S (length (ffs_areas st)) <=? ffs_area_capacity E)%nat eqn:Hc.
  - right. eexists. split; [reflexivity|]. apply Nat.leb_le in Hc.
    split; [|exact Hc]. unfold area_set. cbn [ffs_areas set_areas].
    now rewrite resize_areas_grow, Nat2Z.id, list_set_last.
  - left. apply Nat.leb_gt in Hc. auto.
Qed.

(** X11.  The enumeration of the areas records at most one scratch area.
    With an area table of at most 65535 entries: if before the loop at most
    one area of the table has the id [FFS_AREA_ID_NONE] and
    [ffs_scratch_area_idx] names it, then the same holds of every state the
    loop returns; in particular of the states reached from the reset state,
    where the table is empty. *)
Theorem ffs_restore_full_areas_one_scratch (fuel : nat) (descs : list ffs_area_desc) :
  Z.of_nat (ffs_area_capacity E) <= 65535 ->
  (forall disk_area st rc st',
      scratch_inv st ->
      ffs_restore_full_areas E fuel descs disk_area st = Some (rc, st') ->
      scratch_inv st')
  /\ (forall st rc st',
         ffs_restore_full_areas E fuel descs (uninit_disk_area E) (ffs_misc_reset E st)
         = Some (rc, st') ->
         scratch_inv st').
Proof.
  intros Hcap.
  assert (Hl : forall disk_area st rc st',
             scratch_inv st ->
             ffs_restore_full_areas E fuel descs disk_area st = Some (rc, st') ->
             scratch_inv st').
  { induction descs as [|d descs' IH]; intros disk_area st rc st' Hinv.
    - intros [= <- <-]. exact Hinv.
    - cbn [ffs_restore_full_areas].
      destruct (fad_length d =? 0); [intros [= <- <-]; exact Hinv|].
      destruct (ffs_restore_detect_one_area E disk_area (fad_offset d)) as [rc0 da].
      destruct rc0; try (intros [= <- <-]; exact Hinv);
        [|cbn [andb]; apply IH; exact Hinv].
      cbn [andb].
      destruct ((fda_id da =? FFS_AREA_ID_NONE)
                && negb (ffs_scratch_area_idx st =? FFS_AREA_ID_NONE)) eqn:Huse;
        [apply IH; exact Hinv|].
      set (a := mk_area (fad_offset d) (fad_length d) (sizeof_disk_area E)
                        (fda_gc_seq da) (fda_id da)).
      destruct (ffs_misc_set_num_areas_append st a)
        as [[-> _] | (st1 & -> & Hset & Hroom)];
        [intros [= <- <-]; exact Hinv|].
      fold a. rewrite Hset.
      assert (Happ : scratch_inv
                       (let st2 := set_areas (ffs_areas st ++ [a]) st in
                        if fa_id a =? FFS_AREA_ID_NONE
                        then set_scratch_area_idx (u16 (ffs_num_areas st)) st2
                        else st2)).
      { apply scratch_inv_append; [unfold ffs_num_areas; lia | exact Hinv |].
        intros Ha. simpl in Ha. apply Z.eqb_eq in Ha. rewrite Ha in Huse.
        simpl in Huse. apply negb_false_iff, Z.eqb_eq in Huse. exact Huse. }
      cbv zeta in Happ. simpl fa_id in Happ.
      destruct (fda_id da =? FFS_AREA_ID_NONE).
      + apply IH. exact Happ.
      + destruct (ffs_restore_area_contents E fuel (ffs_num_areas st)
                    (set_areas (ffs_areas st ++ [a]) st)) as [[rc1 st3]|] eqn:Hscan;
          [|discriminate].
        apply IH. eapply ffs_restore_area_contents_scratch_inv; eauto. }
  split; [exact Hl|]. intros st rc st'. apply Hl.
  split; simpl; [intros j Hj; lia | intros H; now elim H].
Qed.

End ScratchArea.

Lemma ffs_restore_full_areas_one_scratch_witness :
  exists st',
    ffs_restore_full_areas wit_env 10 descs2 (uninit_disk_area wit_env)
                           (ffs_misc_reset wit_env st_empty) = Some (FFS_OK, st')
    /\ ffs_scratch_area_idx st' = 1
    /\ scratch_inv st'.
Proof.
  eexists. split; [vm_compute; reflexivity|]. split; [reflexivity|].
  refine (proj2 (ffs_restore_full_areas_one_scratch wit_env 10 descs2 _)
                st_empty FFS_OK _ _).
  - vm_compute. discriminate.
  - vm_compute. reflexivity.
Defined.

(** ** Merging a new block *)

Lemma hash_update_head (o : ffs_object) (h : list ffs_object) (id : Z)
      (f : ffs_object -> ffs_object) :
  fo_id o = id -> hash_update (o :: h) id f = f o :: h.
Proof. intros H. simpl. apply Z.eqb_eq in H. now rewrite H. Qed.

Lemma hash_update_tail (o : ffs_object) (h : list ffs_object) (id : Z)
      (f : ffs_object -> ffs_object) :
  fo_id o <> id -> hash_update (o :: h) id f = o :: hash_update h id f.
Proof. intros H. simpl. apply Z.eqb_neq in H. now rewrite H. Qed.

Lemma hash_find_head (o : ffs_object) (h : list ffs_object) (id : Z) :
  fo_id o = id -> hash_find (o :: h) id = Some o.
Proof. intros H. simpl. apply Z.eqb_eq in H. now rewrite H. Qed.

Lemma hash_find_tail (o : ffs_object) (h : list ffs_object) (id : Z) :
  fo_id o <> id -> hash_find (o :: h) id = hash_find h id.
Proof. intros H. simpl. apply Z.eqb_neq in H. now rewrite H. Qed.

Lemma ffs_restore_block_new_state (db : ffs_disk_block) (area_idx area_offset : Z)
      (st : ffs_state) (n : nat) :
  hash_find (ffs_hash st) (fdb_id db) = None ->
  ffs_block_pool st = S n ->
  fdb_inode_id db <> fdb_id db ->
  let b' := mk_block (fdb_id db) (fdb_seq db) area_idx area_offset (fdb_flags db)
                     (fdb_data_len db) (Some (fdb_inode_id db)) in
  let link := on_inode (fun i => set_fi_block_list (fi_block_list i ++ [fdb_id db]) i) in
  (forall i, hash_find (ffs_hash st) (fdb_inode_id db) = Some (ObjInode i) ->
             ffs_restore_block db area_idx area_offset st
             = (FFS_OK,
                ffs_next_id_update (fdb_id db)
                  (set_hash (ObjBlock b' :: hash_update (ffs_hash st) (fdb_inode_id db) link)
                            (set_block_pool n st))))
  /\ (forall m, hash_find (ffs_hash st) (fdb_inode_id db) = None ->
                ffs_inode_pool st = S m ->
                ffs_restore_block db area_idx area_offset st
                = (FFS_OK,
                   ffs_next_id_update (fdb_id db)
                     (set_hash
                        (ObjInode (mk_inode (fdb_inode_id db) 0 FFS_AREA_ID_NONE 0
                                            FFS_INODE_F_DUMMY 1 0 None [] [fdb_id db])
                         :: ObjBlock b' :: ffs_hash st)
                        (set_inode_pool m (set_block_pool n st))))).
Proof.
  intros Hfind Hpool Hne. cbv zeta. split.
  - intros i Hi. pose proof (hash_find_id _ _ _ Hi) as Hid. simpl in Hid.
    unfold ffs_restore_block, ffs_hash_find_block, ffs_block_alloc.
    rewrite Hfind, Hpool. cbn [fb_id ffs_block_from_disk].
    unfold ffs_hash_find_inode, ffs_hash_insert. cbn [ffs_hash set_hash].
    rewrite hash_find_tail by (simpl; congruence). cbn [ffs_hash set_block_pool].
    rewrite Hi. cbn [option_map]. rewrite Hid.
    unfold ffs_inode_insert_block, inode_update, block_update.
    cbn [ffs_hash set_hash set_block_pool].
    rewrite hash_update_head by reflexivity.
    rewrite hash_update_tail by (simpl; congruence).
    reflexivity.
  - intros m Hi Hip.
    unfold ffs_restore_block, ffs_hash_find_block, ffs_block_alloc.
    rewrite Hfind, Hpool. cbn [fb_id ffs_block_from_disk].
    unfold ffs_hash_find_inode, ffs_hash_insert. cbn [ffs_hash set_hash].
    rewrite hash_find_tail by (simpl; congruence). cbn [ffs_hash set_block_pool].
    rewrite Hi.
    unfold ffs_restore_dummy_inode, ffs_inode_alloc.
    cbn [ffs_inode_pool set_hash set_block_pool]. rewrite Hip.
    unfold ffs_inode_insert_block, inode_update, block_update, ffs_hash_insert.
    cbn [ffs_hash set_hash set_block_pool set_inode_pool].
    rewrite (hash_update_tail _ _ (fdb_id db)) by (simpl; congruence).
    rewrite hash_update_head by reflexivity.
    rewrite hash_update_head by reflexivity.
    reflexivity.
Qed.

(** X12.  In a run in which no merge has failed after it changed the index
    ([ffs_index_tainted] is clear, so that the pools hold no object that the
    table still links), the merge of a block record whose id is new (with a
    free block, and an owner id other than its own) succeeds and inserts the
    block with the fields of the record and the place it was read from; the
    block points to the inode the record names, and that inode has the block
    at the end of its block list.  If the index holds no object under the
    owner id, the owner is a new dummy inode (dummy flag only, so no
    directory, area index [FFS_AREA_ID_NONE], reference count 1) whose only
    block is this one.  Every other object of the index is as it was, and
    [ffs_index_tainted] stays clear. *)
Theorem ffs_restore_block_new (db : ffs_disk_block) (area_idx area_offset : Z)
        (st : ffs_state) (n : nat) :
  ffs_index_tainted st = false ->
  hash_find (ffs_hash st) (fdb_id db) = None ->
  ffs_block_pool st = S n ->
  fdb_inode_id db <> fdb_id db ->
  let r := ffs_restore_block db area_idx area_offset st in
  let b' := mk_block (fdb_id db) (fdb_seq db) area_idx area_offset (fdb_flags db)
                     (fdb_data_len db) (Some (fdb_inode_id db)) in
  (forall i, hash_find (ffs_hash st) (fdb_inode_id db) = Some (ObjInode i) ->
             fst r = FFS_OK
             /\ ffs_index_tainted (snd r) = false
             /\ hash_find (ffs_hash (snd r)) (fdb_id db) = Some (ObjBlock b')
             /\ hash_find (ffs_hash (snd r)) (fdb_inode_id db)
                = Some (ObjInode (set_fi_block_list (fi_block_list i ++ [fdb_id db]) i))
             /\ (forall x, x <> fdb_id db -> x <> fdb_inode_id db ->
                           hash_find (ffs_hash (snd r)) x = hash_find (ffs_hash st) x))
  /\ (forall m, hash_find (ffs_hash st) (fdb_inode_id db) = None ->
                ffs_inode_pool st = S m ->
                fst r = FFS_OK
                /\ ffs_index_tainted (snd r) = false
                /\ hash_find (ffs_hash (snd r)) (fdb_id db) = Some (ObjBlock b')
                /\ hash_find (ffs_hash (snd r)) (fdb_inode_id db)
                   = Some (ObjInode (mk_inode (fdb_inode_id db) 0 FFS_AREA_ID_NONE 0
                                              FFS_INODE_F_DUMMY 1 0 None []
                                              [fdb_id db]))
                /\ (forall x, x <> fdb_id db -> x <> fdb_inode_id db ->
                              hash_find (ffs_hash (snd r)) x = hash_find (ffs_hash st) x)).
Proof.
  intros Hclear Hfind Hpool Hne. cbv zeta.
  destruct (ffs_restore_block_new_state db area_idx area_offset st n Hfind Hpool Hne)
    as [Ha Hb]. cbv zeta in Ha, Hb.
  assert (Hlink : forall o, fo_id o = fdb_inode_id db ->
                            fo_id (on_inode (fun i => set_fi_block_list
                                                        (fi_block_list i ++ [fdb_id db]) i) o)
                            = fdb_inode_id db).
  { intros [i|b]; simpl; auto. }
  split.
  - intros i Hi. rewrite (Ha i Hi). cbn [fst snd].
    rewrite ffs_next_id_update_hash, ffs_next_id_update_tainted.
    cbn [ffs_hash set_hash].
    split; [reflexivity|]. split; [exact Hclear|].
    split; [now apply hash_find_head|]. split.
    + rewrite hash_find_tail by (simpl; congruence).
      rewrite hash_find_update_same by exact Hlink. now rewrite Hi.
    + intros x Hx1 Hx2. rewrite hash_find_tail by (simpl; congruence).
      now apply hash_find_update_other.
  - intros m Hi Hip. rewrite (Hb m Hi Hip). cbn [fst snd].
    rewrite ffs_next_id_update_hash, ffs_next_id_update_tainted.
    cbn [ffs_hash set_hash].
    split; [reflexivity|]. split; [exact Hclear|]. split; [|split].
    + rewrite hash_find_tail by (simpl; congruence). now apply hash_find_head.
    + now apply hash_find_head.
    + intros x Hx1 Hx2. now rewrite !hash_find_tail by (simpl; congruence).
Qed.

Lemma ffs_restore_block_new_witness :
  let r := ffs_restore_block (mk_disk_block 3 1 9 0 16) 0 64 wit_st_inode5 in
  fst r = FFS_OK
  /\ ffs_index_tainted (snd r) = false
  /\ hash_find (ffs_hash (snd r)) 3
     = Some (ObjBlock (mk_block 3 1 0 64 0 16 (Some 9)))
  /\ hash_find (ffs_hash (snd r)) 9
     = Some (ObjInode (mk_inode 9 0 FFS_AREA_ID_NONE 0 FFS_INODE_F_DUMMY 1 0 None []
                                [3]))
  /\ (forall x, x <> 3 -> x <> 9 ->
                hash_find (ffs_hash (snd r)) x = hash_find (ffs_hash wit_st_inode5) x).
Proof.
  apply (proj2 (ffs_restore_block_new (mk_disk_block 3 1 9 0 16) 0 64 wit_st_inode5
                  3%nat eq_refl eq_refl eq_refl ltac:(discriminate)) 1%nat);
    reflexivity.
Defined.

(** ** Merging a new inode *)

Lemma ffs_inode_is_root_parent (di : ffs_disk_inode) :
  fdi_parent_id di <> FFS_ID_NONE -> ffs_inode_is_root di = false.
Proof.
  intros H. unfold ffs_inode_is_root. apply Z.eqb_neq in H. now rewrite H.
Qed.

Lemma ffs_restore_inode_new_state (di : ffs_disk_inode) (area_idx area_offset : Z)
      (st : ffs_state) (n : nat) :
  hash_find (ffs_hash st) (fdi_id di) = None ->
  ffs_inode_pool st = S n ->
  let new p := mk_inode (fdi_id di) (fdi_seq di) area_idx area_offset (fdi_flags di)
                        1 (fdi_filename_len di) p [] [] in
  let link := on_inode (fun i => set_fi_child_list (fi_child_list i ++ [fdi_id di]) i) in
  (fdi_parent_id di = FFS_ID_NONE ->
   ffs_restore_inode di area_idx area_offset st
   = (FFS_OK,
      ffs_next_id_update (fdi_id di)
        (let st2 := set_hash (ObjInode (new None) :: ffs_hash st) (set_inode_pool n st) in
         if ffs_inode_is_root di then set_root_dir (Some (fdi_id di)) st2 else st2)))
  /\ (forall p, fdi_parent_id di <> FFS_ID_NONE -> fdi_parent_id di <> fdi_id di ->
                hash_find (ffs_hash st) (fdi_parent_id di) = Some (ObjInode p) ->
                ffs_restore_inode di area_idx area_offset st
                = (FFS_OK,
                   ffs_next_id_update (fdi_id di)
                     (set_hash (ObjInode (new (Some (fdi_parent_id di)))
                                :: hash_update (ffs_hash st) (fdi_parent_id di) link)
                               (set_inode_pool n st))))
  /\ (forall m, fdi_parent_id di <> FFS_ID_NONE -> fdi_parent_id di <> fdi_id di ->
                hash_find (ffs_hash st) (fdi_parent_id di) = None ->
                n = S m ->
                ffs_restore_inode di area_idx area_offset st
                = (FFS_OK,
                   ffs_next_id_update (fdi_id di)
                     (set_hash
                        (ObjInode (mk_inode (fdi_parent_id di) 0 FFS_AREA_ID_NONE 0
                                            (Z.lor FFS_INODE_F_DUMMY FFS_INODE_F_DIRECTORY)
                                            1 0 None [fdi_id di] [])
                         :: ObjInode (new (Some (fdi_parent_id di))) :: ffs_hash st)
                        (set_inode_pool m st)))).
Proof.
  intros Hfind Hpool. cbv zeta.
  assert (Hstart : ffs_restore_inode di area_idx area_offset st
                   = ffs_restore_inode_finish di (fdi_id di) true true
                       (ffs_hash_insert
                          (ObjInode (mk_inode (fdi_id di) (fdi_seq di) area_idx area_offset
                                              (fdi_flags di) 1 (fdi_filename_len di)
                                              None [] []))
                          (set_inode_pool n st))).
  { unfold ffs_restore_inode, ffs_hash_find_inode, ffs_inode_alloc.
    rewrite Hfind, Hpool. reflexivity. }
  rewrite Hstart. unfold ffs_restore_inode_finish. split; [|split].
  - intros Hp. apply Z.eqb_eq in Hp. rewrite Hp. cbn [negb]. reflexivity.
  - intros p Hp Hself Hfp. pose proof (hash_find_id _ _ _ Hfp) as Hid. simpl in Hid.
    rewrite (ffs_inode_is_root_parent di Hp).
    apply Z.eqb_neq in Hp. rewrite Hp. cbn [negb].
    unfold ffs_hash_find_inode, ffs_hash_insert. cbn [ffs_hash set_hash].
    rewrite hash_find_tail by (simpl; congruence). cbn [ffs_hash set_inode_pool].
    rewrite Hfp. cbn [option_map]. rewrite Hid.
    unfold ffs_inode_add_child, inode_update. cbn [ffs_hash set_hash set_inode_pool].
    rewrite (hash_update_tail _ _ (fdi_parent_id di)) by (simpl; congruence).
    rewrite hash_update_head by reflexivity. reflexivity.
  - intros m Hp Hself Hfp ->.
    rewrite (ffs_inode_is_root_parent di Hp).
    apply Z.eqb_neq in Hp. rewrite Hp. cbn [negb].
    unfold ffs_hash_find_inode, ffs_hash_insert. cbn [ffs_hash set_hash].
    rewrite hash_find_tail by (simpl; congruence). cbn [ffs_hash set_inode_pool].
    rewrite Hfp. unfold ffs_restore_dummy_inode, ffs_inode_alloc.
    cbn [ffs_inode_pool set_hash set_inode_pool].
    unfold ffs_inode_add_child, inode_update, ffs_hash_insert.
    cbn [ffs_hash set_hash set_inode_pool].
    rewrite hash_update_head by reflexivity.
    rewrite (hash_update_tail _ _ (fdi_id di)) by (simpl; congruence).
    rewrite hash_update_head by reflexivity. reflexivity.
Qed.

Lemma ffs_next_id_update_root_dir (id : Z) (st : ffs_state) :
  ffs_root_dir (ffs_next_id_update id st) = ffs_root_dir st.
Proof. unfold ffs_next_id_update. now destruct (ffs_next_id st <=? id). Qed.



(** X14.  In a run in which no merge has failed after it changed the index
    ([ffs_index_tainted] is clear, so that the pools hold no object that the
    table still links), and with [ffs_inode_from_disk] returning 0 (l.167;
    its code is not in this file, and the model takes it to return 0): the
    merge of an inode record whose id is new and which names no parent
    succeeds and inserts the inode without a parent; [ffs_root_dir] then
    points to the new inode if [ffs_inode_is_root] holds of the record, and
    is unchanged otherwise.  Every other object of the index is as it was,
    and [ffs_index_tainted] stays clear. *)
Theorem ffs_restore_inode_new_root (di : ffs_disk_inode) (area_idx area_offset : Z)
        (st : ffs_state) (n : nat) :
  ffs_index_tainted st = false ->
  hash_find (ffs_hash st) (fdi_id di) = None ->
  ffs_inode_pool st = S n ->
  fdi_parent_id di = FFS_ID_NONE ->
  let r := ffs_restore_inode di area_idx area_offset st in
  fst r = FFS_OK
  /\ ffs_index_tainted (snd r) = false
  /\ hash_find (ffs_hash (snd r)) (fdi_id di)
     = Some (ObjInode (mk_inode (fdi_id di) (fdi_seq di) area_idx area_offset
                                (fdi_flags di) 1 (fdi_filename_len di) None [] []))
  /\ ffs_root_dir (snd r)
     = (if ffs_inode_is_root di then Some (fdi_id di) else ffs_root_dir st)
  /\ (forall x, x <> fdi_id di ->
                hash_find (ffs_hash (snd r)) x = hash_find (ffs_hash st) x).
Proof.
  intros Hclear Hfind Hpool Hp. cbv zeta.
  destruct (ffs_restore_inode_new_state di area_idx area_offset st n Hfind Hpool)
    as (Ha & _ & _). cbv zeta in Ha. rewrite (Ha Hp). cbn [fst snd].
  rewrite ffs_next_id_update_hash, ffs_next_id_update_root_dir,
    ffs_next_id_update_tainted.
  destruct (ffs_inode_is_root di);
    cbn [ffs_hash set_hash ffs_root_dir set_root_dir set_inode_pool];
    repeat split; try (now apply hash_find_head); try exact Hclear;
    intros x Hx; now rewrite hash_find_tail by (simpl; congruence).
Qed.

Lemma ffs_restore_inode_new_root_witness :
  let r := ffs_restore_inode (mk_disk_inode 0 0 FFS_ID_NONE FFS_INODE_F_DIRECTORY 0)
                             0 24 (set_inode_pool 4 st_empty) in
  fst r = FFS_OK
  /\ ffs_index_tainted (snd r) = false
  /\ hash_find (ffs_hash (snd r)) 0
     = Some (ObjInode (mk_inode 0 0 0 24 FFS_INODE_F_DIRECTORY 1 0 None [] []))
  /\ ffs_root_dir (snd r) = Some 0
  /\ (forall x, x <> 0 -> hash_find (ffs_hash (snd r)) x = None).
Proof.
  apply (ffs_restore_inode_new_root
           (mk_disk_inode 0 0 FFS_ID_NONE FFS_INODE_F_DIRECTORY 0) 0 24
           (set_inode_pool 4 st_empty) 3%nat); reflexivity.
Defined.

(** ** Replacing an inode *)

Lemma on_inode_from_disk_id (di : ffs_disk_inode) (area_idx area_offset : Z)
      (o : ffs_object) :
  fo_id o = fdi_id di ->
  fo_id (on_inode (ffs_inode_from_disk di area_idx area_offset) o) = fdi_id di.
Proof. destruct o; simpl; auto. Qed.

(** X15.  When [ffs_restore_inode] finds an inode under the id of the record
    and replaces it (the inode is a dummy or has a lower sequence number),
    for an inode without a parent and a record that names none: the merge
    succeeds, the inode takes the id, sequence number, flags and file name
    length of the record and the place the record was read from (so a dummy
    is no dummy any more unless the record says so), and keeps its child
    list, its block list and its reference count; [ffs_root_dir] points to it
    if [ffs_inode_is_root] holds of the record; every other object is as it
    was. *)
Theorem ffs_restore_inode_replace (di : ffs_disk_inode) (area_idx area_offset : Z)
        (st : ffs_state) (old : ffs_inode) :
  hash_find (ffs_hash st) (fdi_id di) = Some (ObjInode old) ->
  flag_set (fi_flags old) FFS_INODE_F_DUMMY = true \/ fi_seq old < fdi_seq di ->
  fi_parent old = None ->
  fdi_parent_id di = FFS_ID_NONE ->
  let r := ffs_restore_inode di area_idx area_offset st in
  fst r = FFS_OK
  /\ hash_find (ffs_hash (snd r)) (fdi_id di)
     = Some (ObjInode (mk_inode (fdi_id di) (fdi_seq di) area_idx area_offset
                                (fdi_flags di) (fi_refcnt old) (fdi_filename_len di)
                                None (fi_child_list old) (fi_block_list old)))
  /\ ffs_root_dir (snd r)
     = (if ffs_inode_is_root di then Some (fdi_id di) else ffs_root_dir st)
  /\ (forall x, x <> fdi_id di ->
                hash_find (ffs_hash (snd r)) x = hash_find (ffs_hash st) x).
Proof.
  intros Hfind Hrep Hpar Hnone. cbv zeta.
  pose proof (hash_find_id _ _ _ Hfind) as Hid. simpl in Hid.
  assert (Hg : ffs_restore_inode_gets_replaced old di = inl true).
  { unfold ffs_restore_inode_gets_replaced.
    destruct (flag_set (fi_flags old) FFS_INODE_F_DUMMY); [reflexivity|].
    destruct Hrep as [Hrep|Hrep]; [discriminate|].
    apply Z.ltb_lt in Hrep. now rewrite Hrep. }
  assert (Hr : ffs_restore_inode di area_idx area_offset st
               = (FFS_OK,
                  ffs_next_id_update (fdi_id di)
                    (let st2 := inode_update (fdi_id di)
                                  (ffs_inode_from_disk di area_idx area_offset) st in
                     if ffs_inode_is_root di
                     then set_root_dir (Some (fdi_id di)) st2 else st2))).
  { unfold ffs_restore_inode, ffs_hash_find_inode.
    rewrite Hfind, Hg, Hpar, Hid. unfold ffs_restore_inode_finish.
    apply Z.eqb_eq in Hnone. rewrite Hnone. reflexivity. }
  rewrite Hr. cbn [fst snd].
  rewrite ffs_next_id_update_hash, ffs_next_id_update_root_dir. cbv zeta.
  assert (Hh : forall s, ffs_hash (if ffs_inode_is_root di
                                   then set_root_dir (Some (fdi_id di)) s else s)
                         = ffs_hash s) by (intros s; now destruct (ffs_inode_is_root di)).
  rewrite Hh. unfold inode_update. cbn [ffs_hash set_hash].
  split; [reflexivity|]. split; [|split].
  - rewrite hash_find_update_same by (intros o; apply on_inode_from_disk_id).
    rewrite Hfind. cbn [option_map on_inode]. unfold ffs_inode_from_disk.
    now rewrite Hpar.
  - now destruct (ffs_inode_is_root di).
  - intros x Hx. apply hash_find_update_other; [|exact Hx].
    intros o; apply on_inode_from_disk_id.
Qed.

Lemma ffs_restore_inode_replace_witness :
  let r := ffs_restore_inode (mk_disk_inode 7 3 FFS_ID_NONE 0 4) 0 100 wit_st_orphan in
  fst r = FFS_OK
  /\ hash_find (ffs_hash (snd r)) 7
     = Some (ObjInode (mk_inode 7 3 0 100 0 1 4 None [] [9]))
  /\ ffs_root_dir (snd r) = Some 0
  /\ (forall x, x <> 7 ->
                hash_find (ffs_hash (snd r)) x = hash_find (ffs_hash wit_st_orphan) x).
Proof.
  apply (ffs_restore_inode_replace (mk_disk_inode 7 3 FFS_ID_NONE 0 4) 0 100
           wit_st_orphan
           (mk_inode 7 0 FFS_AREA_ID_NONE 0 FFS_INODE_F_DUMMY 1 0 None [] [9]));
    [reflexivity | left; reflexivity | reflexivity | reflexivity].
Defined.

(** ** [ffs_next_id] across a merge *)

Lemma ffs_restore_inode_finish_err_next_id (di : ffs_disk_inode) (inode : Z)
      (new_inode do_add : bool) (st : ffs_state) :
  fst (ffs_restore_inode_finish di inode new_inode do_add st) <> FFS_OK ->
  ffs_next_id (snd (ffs_restore_inode_finish di inode new_inode do_add st))
  = ffs_next_id st.
Proof.
  unfold ffs_restore_inode_finish, ffs_restore_inode_err.
  destruct do_add; [|simpl; congruence].
  destruct (negb (fdi_parent_id di =? FFS_ID_NONE)); [|simpl; congruence].
  pose proof (ffs_restore_dummy_inode_next_id (fdi_parent_id di) true st) as Hd.
  destruct (ffs_hash_find_inode st (fdi_parent_id di)) as [rc parent].
  destruct (ffs_restore_dummy_inode (fdi_parent_id di) true st) as [[rcd pd] std].
  simpl in Hd.
  destruct rc, parent as [p|]; simpl; try congruence;
    try (intros _; now destruct new_inode).
  all: destruct rcd, pd as [p0|]; simpl; try congruence;
    intros _; destruct new_inode; exact Hd.
Qed.

Lemma ffs_restore_inode_err_next_id (di : ffs_disk_inode) (area_idx area_offset : Z)
      (st : ffs_state) :
  fst (ffs_restore_inode di area_idx area_offset st) <> FFS_OK ->
  ffs_next_id (snd (ffs_restore_inode di area_idx area_offset st)) = ffs_next_id st.
Proof.
  unfold ffs_restore_inode, ffs_hash_find_inode, ffs_restore_inode_err.
  destruct (hash_find (ffs_hash st) (fdi_id di)) as [[i|b]|]; try reflexivity.
  - destruct (ffs_restore_inode_gets_replaced i di) as [do_add|rc]; [|reflexivity].
    intros H. rewrite ffs_restore_inode_finish_err_next_id by exact H.
    destruct do_add; [|reflexivity]. rewrite inode_update_next_id.
    destruct (fi_parent i); [apply ffs_inode_remove_child_next_id | reflexivity].
  - unfold ffs_inode_alloc. destruct (ffs_inode_pool st); [reflexivity|].
    intros H. now rewrite ffs_restore_inode_finish_err_next_id by exact H.
Qed.

Lemma ffs_restore_block_err_next_id (db : ffs_disk_block) (area_idx area_offset : Z)
      (st : ffs_state) :
  fst (ffs_restore_block db area_idx area_offset st) <> FFS_OK ->
  ffs_next_id (snd (ffs_restore_block db area_idx area_offset st)) = ffs_next_id st.
Proof.
  unfold ffs_restore_block, ffs_hash_find_block, ffs_restore_block_err.
  destruct (hash_find (ffs_hash st) (fdb_id db)) as [[i|b]|]; try reflexivity.
  - destruct (ffs_restore_block_gets_replaced b db) as [do_replace|rc];
      [simpl; congruence | reflexivity].
  - unfold ffs_block_alloc. destruct (ffs_block_pool st); [reflexivity|].
    simpl fb_id.
    match goal with
    | |- context [ffs_hash_find_inode ?s ?x] =>
        pose proof (ffs_restore_dummy_inode_next_id x false s) as Hd;
        destruct (ffs_hash_find_inode s x) as [rc found];
        destruct (ffs_restore_dummy_inode x false s) as [[rcd pd] std]
    end.
    simpl in Hd.
    destruct rc, found as [f|]; simpl; try congruence; try reflexivity.
    all: destruct rcd, pd as [p0|]; simpl; try congruence; intros _; exact Hd.
Qed.

(** X16.  A merge that fails leaves [ffs_next_id] as it was, and a merge of a
    record whose id is below [UINT32_MAX] never lowers it. *)
Theorem ffs_restore_object_next_id_mono (d : ffs_disk_object) (st : ffs_state) :
  (fst (ffs_restore_object d st) <> FFS_OK ->
   ffs_next_id (snd (ffs_restore_object d st)) = ffs_next_id st)
  /\ (0 <= fdo_id d < UINT32_MAX ->
      ffs_next_id st <= ffs_next_id (snd (ffs_restore_object d st))).
Proof.
  assert (Herr : fst (ffs_restore_object d st) <> FFS_OK ->
                 ffs_next_id (snd (ffs_restore_object d st)) = ffs_next_id st).
  { unfold ffs_restore_object. destruct (fdo_type d).
    - apply ffs_restore_inode_err_next_id.
    - apply ffs_restore_block_err_next_id.
    - reflexivity. }
  split; [exact Herr|]. intros Hid.
  destruct (ffs_restore_object d st) as [rc st'] eqn:Hr.
  destruct (ffs_rc_eqb rc FFS_OK) eqn:Hrc.
  - destruct rc; try discriminate.
    assert (Hex : exists st3, ffs_next_id st3 = ffs_next_id st
                              /\ st' = ffs_next_id_update (fdo_id d) st3).
    { unfold ffs_restore_object, fdo_id in *.
      destruct (fdo_type d); [| |discriminate].
      - now apply ffs_restore_inode_ok in Hr.
      - now apply ffs_restore_block_ok in Hr. }
    destruct Hex as [st3 [Hn ->]]. simpl.
    rewrite ffs_next_id_update_value by exact Hid. lia.
  - simpl in *. rewrite Herr; [lia|]. intros ->. discriminate.
Qed.

(** ** The repair of the scratch area and the empty area *)

Section Repair.

Variable E : ffs_env.

(** X17.  [ffs_restore_corrupt_flash] returns the code of
    [ffs_area_find_corrupt_scratch] when that fails, and then leaves the
    state as it was: no object is marked.  When it returns 0, the pair of
    areas was found, and [ffs_scratch_area_idx] is the index of the bad
    area. *)
Theorem ffs_restore_corrupt_flash_result (fuel : nat) (st st' : ffs_state)
        (rc rc0 : ffs_rc) (good_idx bad_idx : Z) :
  ffs_area_find_corrupt_scratch E st = (rc0, (good_idx, bad_idx)) ->
  ffs_restore_corrupt_flash E fuel st = Some (rc, st') ->
  (rc0 <> FFS_OK -> rc = rc0 /\ st' = st)
  /\ (rc = FFS_OK -> rc0 = FFS_OK /\ ffs_scratch_area_idx st' = bad_idx).
Proof.
  intros Hfind. unfold ffs_restore_corrupt_flash. rewrite Hfind.
  destruct rc0; try (intros [= <- <-]; split; [auto | discriminate]).
  destruct (ffs_restore_area_contents E fuel good_idx _) as [[rc1 st2]|];
    [|discriminate].
  destruct rc1; try (intros [= <- <-]; split; [congruence | discriminate]).
  destruct (ffs_format_area E bad_idx 1 st2) as [rc2 st3].
  destruct rc2; intros [= <- <-]; (split; [congruence|]);
    try discriminate. intros _. split; reflexivity.
Qed.

(** X18.  An area whose first read after the header fails is not merged
    from: the scan sets the cursor to the end of the header and returns at
    once, with 0 for erased flash or the end of the area and with the code of
    the read otherwise. *)
Theorem ffs_restore_area_contents_empty (fuel : nat) (idx : Z) (st : ffs_state)
        (rc0 : ffs_rc) (d1 : ffs_disk_object) :
  let st0 := area_set_cur idx (sizeof_disk_area E) st in
  ffs_restore_disk_object E (uninit_disk_object E) (ffs_areas st0) idx
                          (fa_cur (area_at st0 idx)) = (rc0, d1) ->
  rc0 <> FFS_OK ->
  ffs_restore_area_contents E (S fuel) idx st
  = Some (match rc0 with FFS_EEMPTY | FFS_ERANGE => FFS_OK | _ => rc0 end, st0).
Proof.
  cbv zeta. intros Hread Hrc. unfold ffs_restore_area_contents.
  cbn [ffs_restore_area_contents_loop]. rewrite Hread.
  destruct rc0; congruence.
Qed.

End Repair.

Lemma ffs_restore_corrupt_flash_result_witness :
  (FFS_ECORRUPT <> FFS_OK -> FFS_ECORRUPT = FFS_ECORRUPT /\ wit_st_inode5 = wit_st_inode5)
  /\ (FFS_ECORRUPT = FFS_OK ->
      FFS_ECORRUPT = FFS_OK /\ ffs_scratch_area_idx wit_st_inode5 = 0).
Proof.
  apply (ffs_restore_corrupt_flash_result wit_env 10 wit_st_inode5 wit_st_inode5
           FFS_ECORRUPT FFS_ECORRUPT 0 0); reflexivity.
Defined.

Lemma ffs_restore_area_contents_empty_witness :
  ffs_restore_area_contents wit_env_noroot 1 0 wit_st_inode5
  = Some (FFS_OK, area_set_cur 0 (sizeof_disk_area wit_env_noroot) wit_st_inode5).
Proof.
  apply (ffs_restore_area_contents_empty wit_env_noroot 0 0 wit_st_inode5 FFS_EEMPTY
           (uninit_disk_object wit_env_noroot)); [reflexivity | discriminate].
Defined.

(** ** Where the objects of the index come from *)
















(** ** The invariant on [ffs_next_id] *)












Section NextIdInvariant.

Variable E : ffs_env.

(** The record decoders return no id [0xFFFFFFFF] (it is [FFS_ID_NONE]); the
    ids are unsigned. *)
Hypothesis inode_read_id :
  forall areas idx off di,
    ffs_inode_read_disk E areas idx off = (FFS_OK, di) ->
    0 <= fdi_id di < UINT32_MAX.

Hypothesis block_read_id :
  forall areas idx off db,
    ffs_block_read_disk E areas idx off = (FFS_OK, db) ->
    0 <= fdb_id db < UINT32_MAX.

(** The area subsystem and the block size computation do not touch the index
    nor [ffs_next_id]. *)
Hypothesis ffs_format_area_index :
  forall idx is_scratch st,
    let st' := snd (ffs_format_area E idx is_scratch st) in
    ffs_hash st' = ffs_hash st /\ ffs_next_id st' = ffs_next_id st
    /\ ffs_index_tainted st' = ffs_index_tainted st.

Hypothesis ffs_misc_set_max_block_data_size_index :
  forall st,
    let st' := ffs_misc_set_max_block_data_size E st in
    ffs_hash st' = ffs_hash st /\ ffs_next_id st' = ffs_next_id st
    /\ ffs_index_tainted st' = ffs_index_tainted st.






End NextIdInvariant.







(** ** What becomes of a merge error *)

(** C1 (as amended).  A merge that fails does not stop the area scan: when
    the read at the cursor succeeds and the merge of the record returns a
    nonzero code, the scan drops that code, moves the cursor past the record
    and goes on with the next one, on the state the merge leaves (which is
    the state before the merge, unless the merge has failed after it changed
    the index).  What the scan returns in the end is the outcome of a later
    read that failed, never the code of the merge.  And for a data area
    [ffs_restore_full] goes on to the next descriptor whatever the scan
    returns. *)
Theorem ffs_restore_area_contents_merge_error_dropped (E : ffs_env) (fuel : nat)
        (idx : Z) (d d1 : ffs_disk_object) (st st1 : ffs_state) (rc : ffs_rc) :
  ffs_restore_disk_object E d (ffs_areas st) idx (fa_cur (area_at st idx))
  = (FFS_OK, d1) ->
  ffs_restore_object d1 st = (rc, st1) ->
  rc <> FFS_OK ->
  ffs_restore_area_contents_loop E (S fuel) idx d st
  = ffs_restore_area_contents_loop E fuel idx d1
      (area_set_cur idx
         (u32 (fa_cur (area_at st idx) + ffs_restore_disk_object_size E d1)) st1)
  /\ (ffs_index_tainted st1 = true \/ st1 = st)
  /\ (forall rc' st',
         ffs_restore_area_contents_loop E (S fuel) idx d st = Some (rc', st') ->
         exists d0 rc0 d2,
           ffs_restore_disk_object E d0 (ffs_areas st') idx (fa_cur (area_at st' idx))
           = (rc0, d2)
           /\ rc0 <> FFS_OK
           /\ rc' = match rc0 with FFS_EEMPTY | FFS_ERANGE => FFS_OK | _ => rc0 end)
  /\ (forall fuel' desc rest disk_area disk_area1 s s1 rc1 s3,
         fad_length desc <> 0 ->
         ffs_restore_detect_one_area E disk_area (fad_offset desc)
         = (FFS_OK, disk_area1) ->
         fda_id disk_area1 <> FFS_AREA_ID_NONE ->
         ffs_misc_set_num_areas E (ffs_num_areas s + 1) s = (FFS_OK, s1) ->
         ffs_restore_area_contents E fuel' (ffs_num_areas s)
           (area_set (ffs_num_areas s)
              (mk_area (fad_offset desc) (fad_length desc) (sizeof_disk_area E)
                       (fda_gc_seq disk_area1) (fda_id disk_area1)) s1)
         = Some (rc1, s3) ->
         ffs_restore_full_areas E fuel' (desc :: rest) disk_area s
         = ffs_restore_full_areas E fuel' rest disk_area1 s3).
Proof.
  intros Hread Hmerge Hrc. split; [|split; [|split]].
  - cbn [ffs_restore_area_contents_loop]. rewrite Hread, Hmerge.
    pose proof (ffs_restore_object_areas d1 st) as Ha. rewrite Hmerge in Ha.
    simpl in Ha. cbn [snd]. unfold area_at at 1. rewrite Ha. reflexivity.
  - destruct (ffs_restore_object_tainted d1 st) as [_ H2].
    rewrite Hmerge in H2. simpl in H2. exact (H2 Hrc).
  - intros rc' st' H.
    exact (proj1 (ffs_restore_area_contents_loop_result E _ _ _ _ _ _ H)).
  - intros fuel' desc rest disk_area disk_area1 s s1 rc1 s3 Hlen Hdet Hid Hset Hscan.
    cbn [ffs_restore_full_areas].
    apply Z.eqb_neq in Hlen, Hid. rewrite Hlen, Hdet, Hid. cbn [andb].
    rewrite Hset, Hscan. reflexivity.
Qed.

Lemma ffs_restore_area_contents_merge_error_dropped_witness :
  let E := cex_env_duplicate in
  let d1 := mk_disk_object FFS_OBJECT_TYPE_INODE (mk_disk_inode 5 1 0 0 3)
                           disk_block_zero 0 67 in
  ffs_restore_object d1 wit_st_duplicate = (FFS_ECORRUPT, wit_st_duplicate)
  /\ ffs_restore_area_contents_loop E 6 0 (uninit_disk_object E) wit_st_duplicate
     = ffs_restore_area_contents_loop E 5 0 d1 (area_set_cur 0 90 wit_st_duplicate)
  /\ ffs_restore_area_contents_loop E 6 0 (uninit_disk_object E) wit_st_duplicate
     = Some (FFS_OK, area_set_cur 0 90 wit_st_duplicate).
Proof.
  cbv zeta.
  assert (Hmerge : ffs_restore_object
                     (mk_disk_object FFS_OBJECT_TYPE_INODE (mk_disk_inode 5 1 0 0 3)
                                     disk_block_zero 0 67) wit_st_duplicate
                   = (FFS_ECORRUPT, wit_st_duplicate)) by reflexivity.
  split; [exact Hmerge|].
  destruct (ffs_restore_area_contents_merge_error_dropped cex_env_duplicate 5 0
              (uninit_disk_object cex_env_duplicate) _ wit_st_duplicate
              wit_st_duplicate FFS_ECORRUPT
              ltac:(vm_compute; reflexivity) Hmerge ltac:(discriminate))
    as (Hstep & _ & _ & _).
  split; [exact Hstep|]. vm_compute. reflexivity.
Defined.

End Ffs.
